(** * InfoMining: crawl orchestration and curation, embedded in Rocq

    The development follows the Python sources file by file:

    - [PyStr]        the [str] methods the sources call, and the reading
                     of a file in text mode;
    - [UrlLib]       [urllib.parse.urlparse] / [urlunparse] (CPython 3.11);
    - [CrawlAndRank] [app/crawl_and_rank.py]: [canon], [unique_by_url];
    - [CrawlExtract] [app/crawl_extract.py]: [load_items], [fetch_one],
                     [run_crawl];
    - [Curate]       [app/curate_results.py]: the scorers, the fusion and
                     the ranking of [main];
    - [CurateFilter] [app/curate_results.py]: [contains_any];
    - [RankRules]    [app/crawl_and_rank.py]: [recency_boost];
    - [FetchYoutube] [app/fetch_youtube.py]: [chunks], [yt_get];
    - [FetchGoogle]  [app/fetch_google.py]: the paging loop;
    - [SaveData]     [app/utils/save_data.py]: [save_jsonl];
    - [FetchRss]     [app/fetch_rss.py]: [dedup], [sort_by_date].

    The second part introduces the vocabulary of the statements and the
    data of the worked examples; the third part holds the lemmas and the
    theorems, one section per function.

    Conventions.  A Python [str] is a [string] whose characters are the
    code points U+0000..U+00FF.  A Python [float] is a real number ([R])
    where the code needs [log1p], [**] or [exp], and a rational ([Q])
    where only field operations occur: rounding is not modelled, the ends
    of the float range are.  A power or an exponential too small for a
    float is 0.0, an exponential too large raises [OverflowError], and so
    does the conversion of an integer too large.  Statements about the
    values near these ends keep a margin.  An exception is a value of
    [exn] carried by [Raise]; the regular-expression engine is a
    parameter that returns, raises [re.error] or raises something
    else. *)

From Stdlib Require Import String Ascii List ZArith NArith Lia Bool.
From Stdlib Require Import QArith Qminmax Qreals Reals Psatz Permutation Sorted.
From stdpp Require Import gmap strings.
Import ListNotations.

Local Open Scope string_scope.
Local Open Scope list_scope.

(** ** Exceptions *)

Record exn : Type := MkExn { exn_type : string; exn_msg : string }.

Inductive result (A : Type) : Type :=
| Ok (a : A)
| Raise (e : exn).
Arguments Ok {A} a.
Arguments Raise {A} e.

Definition rbind {A B : Type} (r : result A) (k : A -> result B) : result B :=
  match r with
  | Ok a => k a
  | Raise e => Raise e
  end.

Notation "'let!' x ':=' r 'in' k" := (rbind r (fun x => k))
  (at level 10, x name, r at level 100, k at level 200).

Definition ValueError (msg : string) : exn := MkExn "ValueError" msg.
Definition RuntimeError (msg : string) : exn := MkExn "RuntimeError" msg.
Definition TypeError (msg : string) : exn := MkExn "TypeError" msg.
Definition OverflowError (msg : string) : exn := MkExn "OverflowError" msg.

(** ** Python string methods *)

Module PyStr.

Definition code (c : ascii) : N := N_of_ascii c.

(** [c.isspace()] for a code point below 256. *)
Definition is_space (c : ascii) : bool :=
  let n := code c in
  ((9 <=? n) && (n <=? 13) || (28 <=? n) && (n <=? 32)
   || (n =? 133) || (n =? 160))%N.

Definition is_ascii (c : ascii) : bool := (code c <? 128)%N.

Definition is_ascii_alpha (c : ascii) : bool :=
  let n := code c in
  ((65 <=? n) && (n <=? 90) || (97 <=? n) && (n <=? 122))%N.

Definition is_digit (c : ascii) : bool :=
  let n := code c in ((48 <=? n) && (n <=? 57))%N.

(** [c.lower()]: the ASCII capitals and the Latin-1 capitals except U+00D7. *)
Definition lower_char (c : ascii) : ascii :=
  let n := code c in
  if ((65 <=? n) && (n <=? 90)
      || (192 <=? n) && (n <=? 222) && negb (n =? 215))%N
  then ascii_of_N (n + 32) else c.

Fixpoint lower (s : string) : string :=
  match s with
  | EmptyString => EmptyString
  | String c r => String (lower_char c) (lower r)
  end.

Fixpoint all_chars (p : ascii -> bool) (s : string) : bool :=
  match s with
  | EmptyString => true
  | String c r => p c && all_chars p r
  end.

Fixpoint mem_char (c : ascii) (chars : string) : bool :=
  match chars with
  | EmptyString => false
  | String d r => Ascii.eqb c d || mem_char c r
  end.

Fixpoint lstrip_by (p : ascii -> bool) (s : string) : string :=
  match s with
  | EmptyString => EmptyString
  | String c r => if p c then lstrip_by p r else s
  end.

Fixpoint rstrip_by (p : ascii -> bool) (s : string) : string :=
  match s with
  | EmptyString => EmptyString
  | String c r =>
      match rstrip_by p r with
      | EmptyString => if p c then EmptyString else String c EmptyString
      | r' => String c r'
      end
  end.

(** [s.strip()] and [s.rstrip(chars)]. *)
Definition strip (s : string) : string := rstrip_by is_space (lstrip_by is_space s).
Definition rstrip (chars s : string) : string := rstrip_by (fun c => mem_char c chars) s.

Fixpoint take (n : nat) (s : string) : string :=
  match n, s with
  | S k, String c r => String c (take k r)
  | _, _ => EmptyString
  end.

Fixpoint drop (n : nat) (s : string) : string :=
  match n, s with
  | S k, String _ r => drop k r
  | _, _ => s
  end.

Fixpoint rev_onto (s acc : string) : string :=
  match s with
  | EmptyString => acc
  | String c r => rev_onto r (String c acc)
  end.

Definition startswith (p s : string) : bool := String.prefix p s.
Definition endswith (p s : string) : bool :=
  String.prefix (rev_onto p EmptyString) (rev_onto s EmptyString).

(** [s[1:-1]] *)
Definition slice_1_m1 (s : string) : string := drop 1 (take (String.length s - 1) s).

Fixpoint find_at (sub s : string) (i : nat) : option nat :=
  if String.prefix sub s then Some i
  else match s with
       | EmptyString => None
       | String _ r => find_at sub r (S i)
       end.

(** [s.find(sub, start)], with [None] for -1. *)
Definition find_from (sub s : string) (start : nat) : option nat :=
  if (start <=? String.length s)%nat then find_at sub (drop start s) start else None.
Definition find (sub s : string) : option nat := find_from sub s 0.

Fixpoint rfind_at (sub s : string) (i : nat) : option nat :=
  match s with
  | EmptyString => if String.prefix sub s then Some i else None
  | String _ r =>
      match rfind_at sub r (S i) with
      | Some j => Some j
      | None => if String.prefix sub s then Some i else None
      end
  end.

(** [s.rfind(sub)] *)
Definition rfind (sub s : string) : option nat := rfind_at sub s 0.

(** [sub in s] *)
Definition contains (sub s : string) : bool :=
  match find sub s with Some _ => true | None => false end.

(** [s.count(sub)]: occurrences that do not overlap, scanned from the
    left; [skip] characters of the last occurrence are still to be passed. *)
Fixpoint count_aux (sub s : string) (skip : nat) : nat :=
  match skip with
  | S k => match s with
           | EmptyString => 0
           | String _ r => count_aux sub r k
           end
  | O =>
      match s with
      | EmptyString => if String.prefix sub s then 1 else 0
      | String _ r =>
          if String.prefix sub s
          then S (count_aux sub r (String.length sub - 1))
          else count_aux sub r 0
      end
  end.
Definition count (sub s : string) : nat := count_aux sub s 0.

(** [s.replace(old, new)] *)
Fixpoint replace_aux (old new s : string) (skip : nat) : string :=
  match skip with
  | S k => match s with
           | EmptyString => EmptyString
           | String _ r => replace_aux old new r k
           end
  | O =>
      match s with
      | EmptyString => if String.prefix old s then new else EmptyString
      | String c r =>
          if String.prefix old s
          then match old with
               | EmptyString => new +:+ String c (replace_aux old new r 0)
               | _ => new +:+ replace_aux old new r (String.length old - 1)
               end
          else String c (replace_aux old new r 0)
      end
  end.
Definition replace (old new s : string) : string := replace_aux old new s 0.

(** Truth value of a [str]: non-empty. *)
Definition truthy (s : string) : bool :=
  match s with EmptyString => false | _ => true end.

Definition CR : ascii := "013"%char.
Definition LF : ascii := "010"%char.

(** What [f.read()] returns for a file opened in text mode with the
    default [newline=None] whose decoded content is [s]: every [\r\n]
    and every other [\r] has become [\n]. *)
Fixpoint universal_newlines (s : string) : string :=
  match s with
  | EmptyString => EmptyString
  | String c r =>
      if Ascii.eqb c CR then
        match r with
        | String d r' =>
            if Ascii.eqb d LF then String LF (universal_newlines r')
            else String LF (universal_newlines r)
        | EmptyString => String LF EmptyString
        end
      else String c (universal_newlines r)
  end.

End PyStr.

(** ** [urllib.parse] (CPython 3.11)

    [canon] and [norm_domain] are thin wrappers around [urlparse] and
    [urlunparse]; the library functions are transcribed from
    [Lib/urllib/parse.py].  Two checks of [urlsplit] reach into
    [ipaddress] and [unicodedata]; they are taken as the fields of
    [internals]. *)

Module UrlLib.

Record internals : Type := MkInternals {
  (* [_check_bracketed_netloc netloc]: [Some e] when it raises [e] *)
  check_bracketed_netloc : string -> option exn;
  (* the NFKC test of [_checknetloc] on a netloc that is not ASCII *)
  nfkc_rejects : string -> bool
}.

Definition uses_netloc : list string :=
  [""; "ftp"; "http"; "gopher"; "nntp"; "telnet"; "imap"; "wais"; "file";
   "mms"; "https"; "shttp"; "snews"; "prospero"; "rtsp"; "rtspu"; "rsync";
   "svn"; "svn+ssh"; "sftp"; "nfs"; "git"; "git+ssh"; "ws"; "wss"].

Definition uses_params : list string :=
  [""; "ftp"; "hdl"; "prospero"; "http"; "imap"; "https"; "shttp"; "rtsp";
   "rtspu"; "sip"; "sips"; "mms"; "sftp"; "tel"].

Definition mem_str (s : string) (l : list string) : bool :=
  existsb (String.eqb s) l.

Definition is_scheme_char (c : ascii) : bool :=
  PyStr.is_ascii_alpha c || PyStr.is_digit c || PyStr.mem_char c "+-.".

(** [_WHATWG_C0_CONTROL_OR_SPACE]: the code points 0..32. *)
Definition is_c0_or_space (c : ascii) : bool := (PyStr.code c <=? 32)%N.

Definition TAB : string := String (ascii_of_N 9) EmptyString.
Definition CR : string := String (ascii_of_N 13) EmptyString.
Definition LF : string := String (ascii_of_N 10) EmptyString.

Record SplitResult : Type := MkSplit {
  s_scheme : string; s_netloc : string; s_path : string;
  s_query : string; s_fragment : string
}.

Record ParseResult : Type := MkParse {
  scheme : string; netloc : string; path : string;
  params : string; query : string; fragment : string
}.

Definition min_opt (delim : nat) (w : option nat) : nat :=
  match w with Some i => Nat.min delim i | None => delim end.

(** [_splitnetloc(url, start)] *)
Definition _splitnetloc (url : string) (start : nat) : string * string :=
  let delim := String.length url in
  let delim := min_opt delim (PyStr.find_from "/" url start) in
  let delim := min_opt delim (PyStr.find_from "?" url start) in
  let delim := min_opt delim (PyStr.find_from "#" url start) in
  (PyStr.drop start (PyStr.take delim url), PyStr.drop delim url).

(** [_checknetloc(netloc)] *)
Definition _checknetloc (lib : internals) (nl : string) : result unit :=
  if negb (PyStr.truthy nl) || PyStr.all_chars PyStr.is_ascii nl then Ok tt
  else if nfkc_rejects lib nl
       then Raise (ValueError ("netloc '" +:+ nl +:+
                     "' contains invalid characters under NFKC normalization"))
       else Ok tt.

(** [s.split(c, 1)] once [c in s] is known: the text before and after the
    first [c]. *)
Definition split_once (c s : string) : option (string * string) :=
  match PyStr.find c s with
  | Some i => Some (PyStr.take i s, PyStr.drop (i + String.length c) s)
  | None => None
  end.

(** The scheme test of [urlsplit]: [i = url.find(':')], [i > 0], the
    first character an ASCII letter, every character before the colon a
    scheme character. *)
Definition split_scheme (url : string) : string * string :=
  match PyStr.find ":" url with
  | Some (S i') =>
      let i := S i' in
      match url with
      | String c0 _ =>
          if PyStr.is_ascii c0 && PyStr.is_ascii_alpha c0 &&
             PyStr.all_chars is_scheme_char (PyStr.take i url)
          then (PyStr.lower (PyStr.take i url), PyStr.drop (i + 1) url)
          else ("", url)
      | EmptyString => ("", url)
      end
  | _ => ("", url)
  end.

Definition split_netloc (lib : internals) (url : string)
  : result (string * string) :=
  if String.eqb (PyStr.take 2 url) "//" then
    let '(nl, rest) := _splitnetloc url 2 in
    let has_open := PyStr.contains "[" nl in
    let has_close := PyStr.contains "]" nl in
    if has_open && negb has_close || has_close && negb has_open
    then Raise (ValueError "Invalid IPv6 URL")
    else if has_open && has_close
         then match check_bracketed_netloc lib nl with
              | Some e => Raise e
              | None => Ok (nl, rest)
              end
         else Ok (nl, rest)
  else Ok ("", url).

(** [urlsplit(url)] with the default [scheme=''], [allow_fragments=True]. *)
Definition urlsplit (lib : internals) (url : string) : result SplitResult :=
  let url := PyStr.lstrip_by is_c0_or_space url in
  let url := PyStr.replace TAB "" url in
  let url := PyStr.replace CR "" url in
  let url := PyStr.replace LF "" url in
  let '(sch, url) := split_scheme url in
  let! nr := split_netloc lib url in
  let '(nl, url) := nr in
  let '(url, frag) :=
    match split_once "#" url with Some p => p | None => (url, "") end in
  let '(url, qry) :=
    match split_once "?" url with Some p => p | None => (url, "") end in
  let! _u := _checknetloc lib nl in
  Ok (MkSplit sch nl url qry frag).

(** [_splitparams(url)] *)
Definition _splitparams (url : string) : string * string :=
  let cut (i : nat) := (PyStr.take i url, PyStr.drop (i + 1) url) in
  match PyStr.rfind "/" url with
  | Some j =>
      match PyStr.find_from ";" url j with
      | Some i => cut i
      | None => (url, "")
      end
  | None =>
      match PyStr.find ";" url with
      | Some i => cut i
      | None => (PyStr.take (String.length url - 1) url, url)
      end
  end.

(** [urlparse(url)] *)
Definition urlparse (lib : internals) (url : string) : result ParseResult :=
  let! sr := urlsplit lib url in
  let '(p, prm) :=
    if mem_str (s_scheme sr) uses_params && PyStr.contains ";" (s_path sr)
    then _splitparams (s_path sr) else (s_path sr, "") in
  Ok (MkParse (s_scheme sr) (s_netloc sr) p prm (s_query sr) (s_fragment sr)).

(** [urlunsplit((scheme, netloc, url, query, fragment))] *)
Definition urlunsplit (sch nl url qry frag : string) : string :=
  let url :=
    if PyStr.truthy nl
       || PyStr.truthy sch && mem_str sch uses_netloc
          && negb (String.eqb (PyStr.take 2 url) "//")
    then
      let url := if PyStr.truthy url && negb (String.eqb (PyStr.take 1 url) "/")
                 then "/" +:+ url else url in
      "//" +:+ nl +:+ url
    else url in
  let url := if PyStr.truthy sch then sch +:+ ":" +:+ url else url in
  let url := if PyStr.truthy qry then url +:+ "?" +:+ qry else url in
  let url := if PyStr.truthy frag then url +:+ "#" +:+ frag else url in
  url.

(** [urlunparse((scheme, netloc, url, params, query, fragment))] *)
Definition urlunparse (sch nl url prm qry frag : string) : string :=
  let url := if PyStr.truthy prm then url +:+ ";" +:+ prm else url in
  urlunsplit sch nl url qry frag.

End UrlLib.

(** ** app/crawl_and_rank.py *)

Module CrawlAndRank.

(** [canon(url)]: no [try] surrounds the call of [urlparse]. *)
Definition canon (lib : UrlLib.internals) (url : string) : result string :=
  let! u := UrlLib.urlparse lib url in
  Ok (UrlLib.urlunparse (UrlLib.scheme u) (PyStr.lower (UrlLib.netloc u))
        (PyStr.rstrip "/" (UrlLib.path u)) "" "" "").

(** The dictionaries handed to [unique_by_url]: the keys ["url"] and
    ["title"] may be missing. *)
Record entry : Type := MkEntry {
  e_id : string;
  e_source : string;
  e_title : option string;
  e_url : option string;
  e_published_at : option string
}.

Definition with_url (it : entry) (cu : string) : entry :=
  MkEntry (e_id it) (e_source it) (e_title it) (Some cu) (e_published_at it).

(** [cu in seen] for the insertion-ordered dict [seen]. *)
Definition seen_has (seen : list (string * entry)) (cu : string) : bool :=
  existsb (fun kv => String.eqb (fst kv) cu) seen.

Definition unique_step (lib : UrlLib.internals)
  (acc : result (list (string * entry))) (it : entry)
  : result (list (string * entry)) :=
  let! seen := acc in
  match e_url it, e_title it with
  | Some u, Some _ =>
      let! cu := canon lib u in
      if seen_has seen cu then Ok seen
      else Ok (seen ++ [(cu, with_url it cu)])
  | _, _ => Ok seen
  end.

(** [unique_by_url(items)] *)
Definition unique_by_url (lib : UrlLib.internals) (items : list entry)
  : result (list entry) :=
  let! seen := fold_left (unique_step lib) items (Ok []) in
  Ok (map snd seen).

End CrawlAndRank.

(** ** app/crawl_extract.py *)

Module CrawlExtract.

(** One parsed line of an input file: the four keys [load_items] reads. *)
Record raw_record : Type := MkRaw {
  r_url : option string;
  r_link : option string;
  r_title : option string;
  r_htmlTitle : option string
}.

(** A line of a JSONL file as [read_jsonl] sees it: a JSON object, or a
    line that is blank or does not parse and is skipped. *)
Inductive jsonl_line (A : Type) : Type :=
| Parsed (a : A)
| Skipped.
Arguments Parsed {A} a.
Arguments Skipped {A}.

Definition read_jsonl {A : Type} (lines : list (jsonl_line A)) : list A :=
  flat_map (fun ln => match ln with Parsed a => [a] | Skipped => [] end) lines.

Record item : Type := MkItem {
  url : string;
  title : string;
  source_file : string
}.

(** The dictionary [out] of [fetch_one], one line of [contents.jsonl]. *)
Record fetch_record : Type := MkRecord {
  f_url : string;
  f_title : string;
  f_source_file : string;
  f_fetched_at : string;
  f_ok : bool;
  f_error : option string;
  f_markdown_path : option string;
  f_markdown_chars : nat
}.

(** [pick(d, *keys)]: the first value that is present and truthy. *)
Fixpoint pick (vals : list (option string)) : option string :=
  match vals with
  | [] => None
  | Some v :: rest => if PyStr.truthy v then Some v else pick rest
  | None :: rest => pick rest
  end.

(** [os.path.basename(p)] on POSIX paths. *)
Definition basename (p : string) : string :=
  match PyStr.rfind "/" p with
  | Some i => PyStr.drop (i + 1) p
  | None => p
  end.

Definition items_of_file (f : string * list (jsonl_line raw_record)) : list item :=
  flat_map (fun rec =>
    match pick [r_url rec; r_link rec] with
    | Some u =>
        let t := pick [r_title rec; r_htmlTitle rec] in
        [MkItem u (default "" t) (basename (fst f))]
    | None => []
    end) (read_jsonl (snd f)).

(** The loop over [items] with the set [seen]. *)
Fixpoint dedup (seen : gset string) (items : list item) : list item :=
  match items with
  | [] => []
  | it :: rest =>
      if decide (url it ∈ seen) then dedup seen rest
      else it :: dedup ({[url it]} ∪ seen) rest
  end.

(** [load_items(files)] *)
Definition load_items (files : list (string * list (jsonl_line raw_record)))
  : list item :=
  dedup ∅ (flat_map items_of_file files).

(** *** [fetch_one] *)

(** What one call of [crawler.arun] does. *)
Inductive arun_outcome : Type :=
| ArunRaises (e : exn)
| ArunReturns (markdown : option string).

(** The world around one run: the crawler's answer to the [k]-th call for
    a URL, the result of writing a page ([Some e] when [open] or [write]
    raises [e]), the clock and the hash. *)
Record env : Type := MkEnv {
  arun : string -> nat -> arun_outcome;
  write_page : string -> string -> option exn;
  utcnow_iso : string;
  sha1 : string -> string
}.

(** What a task does to the outside: a call of the crawler, an attempt to
    write a page, a sleep. *)
Inductive event : Type :=
| EvArun (u : string) (attempt : nat)
| EvWrite (path content : string)
| EvSleep (seconds : nat).

Definition OUT_MD_DIR : string := "app/crawl_result/pages".
Definition LF : string := UrlLib.LF.

Definition set_error (out : fetch_record) (err : string) : fetch_record :=
  MkRecord (f_url out) (f_title out) (f_source_file out) (f_fetched_at out)
    (f_ok out) (Some err) (f_markdown_path out) (f_markdown_chars out).

Definition set_ok (out : fetch_record) (mpath : string) (n : nat) : fetch_record :=
  MkRecord (f_url out) (f_title out) (f_source_file out) (f_fetched_at out)
    true (f_error out) (Some mpath) n.

Definition backoff_cap : nat := 5.

(** The body of the [try] in its [attempt]-th turn: [inr] is the
    [return out] of a success, [inl] an exception on its way to the
    [except] clause, each with the events so far. *)
Definition try_fetch (w : env) (out : fetch_record) (attempt : nat)
  : (exn * list event) + (fetch_record * list event) :=
  let u := f_url out in
  match arun w u attempt with
  | ArunRaises e => inl (e, [EvArun u attempt])
  | ArunReturns markdown =>
      let md := PyStr.strip (default "" markdown) in
      if negb (PyStr.truthy md)
      then inl (RuntimeError "Empty markdown", [EvArun u attempt])
      else
        let fpath := OUT_MD_DIR +:+ "/" +:+ sha1 w u +:+ ".md" in
        let meta := PyStr.strip
          ("<!-- title: " +:+ f_title out +:+ LF +:+ "url: " +:+ u +:+ LF
           +:+ "fetched_at: " +:+ f_fetched_at out +:+ LF +:+ "-->") in
        let content := meta +:+ LF +:+ LF +:+ md in
        match write_page w fpath content with
        | Some e => inl (e, [EvArun u attempt; EvWrite fpath content])
        | None =>
            inr (set_ok out fpath (String.length md),
                 [EvArun u attempt; EvWrite fpath content])
        end
  end.

(** The [while attempt <= retries] loop with its [except] clause.
    [fuel] bounds the number of turns; [None] stands for leaving the loop
    without a [return]. *)
Fixpoint fetch_loop (w : env) (retries : nat) (out : fetch_record)
  (fuel attempt : nat) : option (fetch_record * list event) :=
  match fuel with
  | O => None
  | S fuel' =>
      if (attempt <=? retries)%nat then
        match try_fetch w out attempt with
        | inr done => Some done
        | inl (e, tr) =>
            let attempt' := (attempt + 1)%nat in
            let last_err := exn_type e +:+ ": " +:+ exn_msg e in
            if (retries <? attempt')%nat then Some (set_error out last_err, tr)
            else
              match fetch_loop w retries out fuel' attempt' with
              | Some (r, tr') =>
                  Some (r, tr ++ EvSleep (Nat.min (2 ^ attempt') backoff_cap) :: tr')
              | None => None
              end
        end
      else None
  end.

(** [fetch_one(crawler, item, sem, retries)] *)
Definition fetch_one (w : env) (retries : nat) (it : item)
  : option (fetch_record * list event) :=
  let out := MkRecord (url it) (title it) (source_file it)
               (utcnow_iso w +:+ "Z") false None None 0 in
  fetch_loop w retries out (S retries) 0.

Definition default_retries : nat := 2.

(** *** [run_crawl] *)

Definition ledger : Type := list (jsonl_line fetch_record).

(** The set [done_ok] read back from [contents.jsonl]. *)
Definition done_ok (l : ledger) : gset string :=
  fold_left (fun acc rec =>
      if f_ok rec && PyStr.truthy (f_url rec) then {[f_url rec]} ∪ acc else acc)
    (read_jsonl l) ∅.

Definition pending (items : list item) (done : gset string) : list item :=
  List.filter (fun it => negb (bool_decide (url it ∈ done))) items.

Definition write_jsonl (file : ledger) (rows : list fetch_record) : ledger :=
  file ++ map Parsed rows.

Definition batch_size : nat := 20.

(** The body of [for coro in asyncio.as_completed(tasks)]: the state is
    the file and [results_batch]. *)
Definition flush_step (st : ledger * list fetch_record) (res : fetch_record)
  : ledger * list fetch_record :=
  let '(file, batch) := st in
  let batch := batch ++ [res] in
  if (batch_size <=? length batch)%nat then (write_jsonl file batch, [])
  else (file, batch).

Definition flush_rest (st : ledger * list fetch_record) : ledger :=
  let '(file, batch) := st in
  match batch with
  | [] => file
  | _ => write_jsonl file batch
  end.

(** The file once the records [completed] have come in, in this order. *)
Definition flush_all (file : ledger) (completed : list fetch_record) : ledger :=
  flush_rest (fold_left flush_step completed (file, [])).

(** The file if the process dies after [n] completions. *)
Definition flush_upto (file : ledger) (completed : list fetch_record) (n : nat)
  : ledger :=
  fst (fold_left flush_step (firstn n completed) (file, [])).

(** The tasks of one run, each with its record and its events. *)
Definition run_tasks (w : env) (todo : list item)
  : list (option (fetch_record * list event)) :=
  map (fetch_one w default_retries) todo.

(** The items [run_crawl] hands to [fetch_one]. *)
Definition todo (files : list (string * list (jsonl_line raw_record)))
  (file : ledger) : list item :=
  pending (load_items files) (done_ok file).

Definition events_of (o : option (fetch_record * list event)) : list event :=
  match o with Some (_, tr) => tr | None => [] end.

(** Everything the tasks of one run do, task by task. *)
Definition run_events (w : env) (files : list (string * list (jsonl_line raw_record)))
  (file : ledger) : list event :=
  flat_map events_of (run_tasks w (todo files file)).

(** [run_crawl]: [asyncio.as_completed] hands the results over in the
    order the fetches finish, any permutation of the tasks.  The last
    rule is a run that dies after [n] results have come in. *)
Inductive run_crawl (w : env) (files : list (string * list (jsonl_line raw_record)))
  (file : ledger) : ledger -> Prop :=
| run_no_items :
    load_items files = [] -> run_crawl w files file file
| run_nothing_to_do :
    load_items files <> [] -> todo files file = [] ->
    run_crawl w files file file
| run_completes (completed : list (fetch_record * list event)) :
    load_items files <> [] -> todo files file <> [] ->
    Permutation (map Some completed) (run_tasks w (todo files file)) ->
    run_crawl w files file (flush_all file (map fst completed))
| run_killed (completed : list (fetch_record * list event)) (n : nat) :
    load_items files <> [] -> todo files file <> [] ->
    Permutation (map Some completed) (run_tasks w (todo files file)) ->
    run_crawl w files file (flush_upto file (map fst completed) n).

(** The ledger over its lifetime: empty at first, then extended by runs. *)
Inductive ledger_history : ledger -> Prop :=
| history_empty : ledger_history []
| history_run w files file file' :
    ledger_history file -> run_crawl w files file file' ->
    ledger_history file'.

End CrawlExtract.

(** ** app/curate_results.py *)

Module Curate.

Local Open Scope R_scope.

(** [math.log1p] *)
Definition log1p (x : R) : R := ln (1 + x).

(** [datetime] values: seconds are kept as microseconds since the epoch;
    a value carries a UTC offset ([Aware]) or none ([Naive]). *)
Inductive datetime : Type :=
| Aware (us : Z)
| Naive (us : Z).

(** What a call of the [re] module does: it returns (for [findall] the
    number of matches), raises [re.error], or raises something else, as
    the parser does with [OverflowError] for a repetition count that is
    too large ([a{4294967296}]). *)
Inductive re_outcome (A : Type) : Type :=
| ReReturns (a : A)
| ReError
| ReRaises (e : exn).
Arguments ReReturns {A} a.
Arguments ReError {A}.
Arguments ReRaises {A} e.

(** What the scorers take from their libraries and from the machine:
    [re.findall(pattern, text, flags=re.IGNORECASE)], [datetime.fromisoformat]
    ([None] when it raises), the clock, the file system (what [read_text]
    returns for a path) and the checks inside [urlsplit]. *)
Record world : Type := MkWorld {
  re_findall : string -> string -> re_outcome nat;
  fromisoformat : string -> option datetime;
  now_utc : Z;
  read_text : string -> string;
  urllib : UrlLib.internals
}.

Definition Rltb (x y : R) : bool := if Rlt_dec x y then true else false.

(** [safe_lower(s)] *)
Definition safe_lower (s : option string) : string := PyStr.lower (default "" s).

(** [norm_domain(u)] *)
Definition norm_domain (w : world) (u : string) : string :=
  match UrlLib.urlparse (urllib w) u with
  | Ok p =>
      let nl := PyStr.lower (UrlLib.netloc p) in
      if PyStr.startswith "www." nl then PyStr.drop 4 nl else nl
  | Raise _ => ""
  end.

(** *** [keyword_score] *)

Definition is_regex (kw : string) : bool :=
  PyStr.startswith "/" kw && PyStr.endswith "/" kw.

(** One turn of the loop [for kw in include or []] on the counter: only
    [re.error] is caught. *)
Definition hit_step (w : world) (text text_l : string) (acc : result nat)
  (kw : string) : result nat :=
  let! n := acc in
  if negb (PyStr.truthy kw) then Ok n
  else if is_regex kw then
    match re_findall w (PyStr.slice_1_m1 kw) text with
    | ReReturns hits => Ok (n + hits)%nat
    | ReError => Ok n
    | ReRaises e => Raise e
    end
  else Ok (n + PyStr.count (PyStr.lower kw) text_l)%nat.

Definition count_hits (w : world) (text text_l : string) (patterns : list string)
  : result nat :=
  fold_left (hit_step w text text_l) patterns (Ok 0%nat).

(** [keyword_score(text, include, exclude)] *)
Definition keyword_score (w : world) (text : string) (include exclude : list string)
  : result R :=
  if negb (PyStr.truthy text) then Ok 0
  else
    let text_l := safe_lower (Some text) in
    let! pos := count_hits w text text_l include in
    let! neg := count_hits w text text_l exclude in
    let pos_part := if (0 <? pos)%nat then log1p (INR pos) else 0 in
    let neg_part := if (0 <? neg)%nat then 1.5 * log1p (INR neg) else 0 in
    Ok (Rmax 0 (pos_part - neg_part)).

(** *** [recency_score] *)

Definition US_PER_DAY : Z := 86400000000.

(** [(now - dt).days]; subtracting a naive value from the aware [now]
    raises [TypeError]. *)
Definition days_since (w : world) (dt : datetime) : result Z :=
  match dt with
  | Aware us => Ok ((now_utc w - us) / US_PER_DAY)%Z
  | Naive _ =>
      Raise (TypeError "can't subtract offset-naive and offset-aware datetimes")
  end.

(** [0.5 ** x] for a float [x >= 0]: a power below [2 ** -1075] is the
    float 0.0, which is so from [x = 1075] on.  The floats are taken as
    reals apart from this underflow. *)
Definition half_pow (x : R) : R :=
  if Rle_dec 1075 x then 0 else Rpower 0.5 x.

(** The part of [recency_score] below the parsing: from [days] on. *)
Definition recency_of_days (days half_life_days hard_days_cutoff : Z) : R :=
  let s := half_pow (IZR days / IZR (Z.max 1 half_life_days)) in
  if (hard_days_cutoff <? days)%Z then s * 0.3 else s.

(** [recency_score(fetched_at_iso, half_life_days, hard_days_cutoff)]:
    the [try] covers [fromisoformat] only. *)
Definition recency_score (w : world) (fetched_at_iso : option string)
  (half_life_days hard_days_cutoff : Z) : result R :=
  match fetched_at_iso with
  | None => Ok 0.2
  | Some s =>
      if negb (PyStr.truthy s) then Ok 0.2
      else
        match fromisoformat w (PyStr.replace "Z" "+00:00" s) with
        | None => Ok 0.2
        | Some dt =>
            let! d := days_since w dt in
            let days := Z.max 0 d in
            Ok (recency_of_days days half_life_days hard_days_cutoff)
        end
  end.

(** *** [length_score] and [domain_score] *)

Local Open Scope Q_scope.

(** [length_score(n_chars, min_chars, max_chars)] *)
Definition length_score (n_chars : option Z) (min_chars max_chars : Z) : Q :=
  match n_chars with
  | None => 0
  | Some n =>
      if (n <=? 0)%Z then 0
      else if (n <? min_chars)%Z
      then (2 # 10) * (inject_Z n / inject_Z (Z.max 1 min_chars))
      else if (n <=? max_chars)%Z then 1
      else
        let over := (n - max_chars)%Z in
        Qmax (4 # 10) (1 / (1 + inject_Z over / 100000))
  end.

(** [domain_score(domain, prefer_domains, avoid_domains)] *)
Definition domain_score (domain : string) (prefer_domains avoid_domains : list string)
  : Q :=
  if negb (PyStr.truthy domain) then 3 # 10
  else if existsb (String.eqb domain) (map PyStr.lower prefer_domains) then 1
  else if existsb (String.eqb domain) (map PyStr.lower avoid_domains) then 0
  else 6 # 10.

Local Close Scope Q_scope.

(** *** The profile and the scoring loop of [main] *)

(** [x or d] on an optional integer setting. *)
Definition or_default (o : option Z) (d : Z) : Z :=
  match o with
  | Some z => if (z =? 0)%Z then d else z
  | None => d
  end.

Record profile : Type := MkProfile {
  include_keywords : list string;
  exclude_keywords : list string;
  prefer_domains : list string;
  avoid_domains : list string;
  cfg_final_n : option Z;
  cfg_min_chars : option Z;
  cfg_max_chars : option Z;
  use_fetched_at : bool;
  cfg_half_life_days : option Z;
  cfg_hard_days_cutoff : option Z;
  weight_keyword : option R;
  weight_domain : option R;
  weight_recency : option R;
  weight_length : option R
}.

Record weights : Type := MkWeights {
  w_keyword : R; w_domain : R; w_recency : R; w_length : R
}.

Definition weights_of (p : profile) : weights :=
  MkWeights (default 0.50 (weight_keyword p)) (default 0.20 (weight_domain p))
            (default 0.20 (weight_recency p)) (default 0.10 (weight_length p)).

Record llm_config : Type := MkLlm {
  llm_enabled : bool;
  top_k_for_llm : option Z
}.

(** One line of [contents.jsonl] as [main] reads it. *)
Record row : Type := MkRow {
  row_ok : bool;
  row_url : string;
  row_title : string;
  row_markdown_path : option string;
  row_fetched_at : option string
}.

Inductive reason : Type :=
| KeywordsPlus (ks : R)
| PreferDomain (domain : string)
| AvoidDomain (domain : string)
| VeryRecent
| TooShort
| TooLong
| LlmBonus.

(** The dictionaries of [scored]; the snippet, which no score reads, is
    left out.  [score_llm] and [score] are set by the second part of
    [main]. *)
Record scored_item : Type := MkScored {
  url : string;
  title : string;
  domain : string;
  score_raw : R;
  reasons : list reason;
  fetched_at : option string;
  markdown_path : option string;
  chars : nat;
  score_llm : R;
  score : R
}.

(** The four signal scores of an item. *)
Record signals : Type := MkSignals {
  ks : R; ds : Q; rs : R; ls : Q
}.

(** Line 229: the weighted sum. *)
Definition fuse (wt : weights) (sg : signals) : R :=
  (w_keyword wt * ks sg) + (w_domain wt * Q2R (ds sg))
  + (w_recency wt * rs sg) + (w_length wt * Q2R (ls sg)).

(** The text that is scored: the page without its leading comment. *)
Definition content_for_score (content : string) : string :=
  if PyStr.startswith "<!--" content then
    match PyStr.find "-->" content with
    | Some e => PyStr.strip (PyStr.drop (e + 3) content)
    | None => content
    end
  else content.

Definition when {A : Type} (b : bool) (x : A) : list A := if b then [x] else [].

Definition reason_bits (sg : signals) (dom : string) (n_chars min_chars max_chars : Z)
  : list reason :=
  when (Rltb 0 (ks sg)) (KeywordsPlus (ks sg))
  ++ when (Qle_bool (9 # 10) (ds sg)) (PreferDomain dom)
  ++ when (Qeq_bool (ds sg) 0) (AvoidDomain dom)
  ++ when (Rltb 0.7 (rs sg)) VeryRecent
  ++ when (n_chars <? min_chars)%Z TooShort
  ++ when (max_chars <? n_chars)%Z TooLong.

(** The signal scores of a row with its text (lines 221-227). *)
Definition signals_of (w : world) (p : profile) (r : row) (text : string)
  : result signals :=
  let n_chars := Z.of_nat (String.length text) in
  let dom := norm_domain w (row_url r) in
  let fetched := if use_fetched_at p then row_fetched_at r else None in
  let! k := keyword_score w (row_title r +:+ UrlLib.LF +:+ text)
              (include_keywords p) (exclude_keywords p) in
  let d := domain_score dom (map PyStr.lower (prefer_domains p))
             (map PyStr.lower (avoid_domains p)) in
  let! r_ := recency_score w fetched (or_default (cfg_half_life_days p) 14)
               (or_default (cfg_hard_days_cutoff p) 365) in
  let l := length_score (Some n_chars) (or_default (cfg_min_chars p) 500)
             (or_default (cfg_max_chars p) 150000) in
  Ok (MkSignals k d r_ l).

(** The body of [for r in rows]: [Ok None] is a [continue]. *)
Definition score_row (w : world) (p : profile) (r : row)
  : result (option scored_item) :=
  if negb (row_ok r) then Ok None
  else
    match row_markdown_path r with
    | None => Ok None
    | Some mp =>
        if negb (PyStr.truthy mp) then Ok None
        else
          let fullpath := if PyStr.startswith "/" mp then mp else "./" +:+ mp in
          let content := read_text w fullpath in
          if negb (PyStr.truthy content) then Ok None
          else
            let text := content_for_score content in
            let n_chars := Z.of_nat (String.length text) in
            let dom := norm_domain w (row_url r) in
            let! sg := signals_of w p r text in
            let sc := fuse (weights_of p) sg in
            Ok (Some (MkScored (row_url r) (row_title r) dom sc
                        (reason_bits sg dom n_chars
                           (or_default (cfg_min_chars p) 500)
                           (or_default (cfg_max_chars p) 150000))
                        (if use_fetched_at p then row_fetched_at r else None)
                        (row_markdown_path r) (String.length text) 0 0))
    end.

Fixpoint score_rows (w : world) (p : profile) (rows : list row)
  : result (list scored_item) :=
  match rows with
  | [] => Ok []
  | r :: rest =>
      let! o := score_row w p r in
      let! tl := score_rows w p rest in
      Ok (match o with Some it => it :: tl | None => tl end)
  end.

(** *** Sorting, slicing and the second stage *)

(** [list.sort(key=..., reverse=True)]: descending and stable; an item
    goes in front of the first one whose key is not larger than its own. *)
Section StableSort.
Context {A : Type} (key : A -> R).

Fixpoint insert_desc (x : A) (l : list A) : list A :=
  match l with
  | [] => [x]
  | y :: r => if Rltb (key x) (key y) then y :: insert_desc x r else x :: y :: r
  end.

Fixpoint sort_desc (l : list A) : list A :=
  match l with
  | [] => []
  | x :: r => insert_desc x (sort_desc r)
  end.

End StableSort.

(** [l[:k]] and [l[k:]] for an integer [k] of either sign. *)
Definition slice_to {A : Type} (k : Z) (l : list A) : list A :=
  if (0 <=? k)%Z then firstn (Z.to_nat k) l
  else firstn (length l - Z.to_nat (- k)) l.

Definition slice_from {A : Type} (k : Z) (l : list A) : list A :=
  if (0 <=? k)%Z then skipn (Z.to_nat k) l
  else skipn (length l - Z.to_nat (- k)) l.

Definition set_scores (it : scored_item) (bonus total : R) (rsn : list reason)
  : scored_item :=
  MkScored (url it) (title it) (domain it) (score_raw it) rsn (fetched_at it)
    (markdown_path it) (chars it) bonus total.

(** Line 271 *)
Definition llm_bonus (it : scored_item) : R :=
  Rmin 0.1 (log1p (INR (chars it)) / 10000).

(** Lines 270-274, the body of [for h in head]. *)
Definition rescore_head (h : scored_item) : scored_item :=
  let bonus := llm_bonus h in
  set_scores h bonus (score_raw h + bonus) (reasons h ++ [LlmBonus]).

(** Lines 276-278 and 281-283: no bonus, the score is the raw score. *)
Definition rescore_tail (t : scored_item) : scored_item :=
  set_scores t 0 (score_raw t) (reasons t).

Definition top_k_of (cfg : llm_config) (n : nat) : Z :=
  Z.min (or_default (top_k_for_llm cfg) 60) (Z.of_nat n).

(** Lines 260-283 *)
Definition second_stage (cfg : llm_config) (scored : list scored_item)
  : list scored_item :=
  if llm_enabled cfg then
    let top_k := top_k_of cfg (length scored) in
    let scored := sort_desc score_raw scored in
    let head := slice_to top_k scored in
    let tail := slice_from top_k scored in
    map rescore_head head ++ map rescore_tail tail
  else map rescore_tail scored.

(** Lines 286-288; [final_n] is an integer setting here, so line 287
    keeps it. *)
Definition final_cut (final_n : Z) (scored : list scored_item) : list scored_item :=
  slice_to final_n (sort_desc score scored).

Definition rank (p : profile) (cfg : llm_config) (scored : list scored_item)
  : list scored_item :=
  final_cut (or_default (cfg_final_n p) 40) (second_stage cfg scored).

(** [main], up to the list [top] that is written out. *)
Definition main (w : world) (p : profile) (cfg : llm_config) (rows : list row)
  : result (list scored_item) :=
  match rows with
  | [] => Ok []
  | _ =>
      let! scored := score_rows w p rows in
      match scored with
      | [] => Ok []
      | _ => Ok (rank p cfg scored)
      end
  end.

End Curate.

(** ** app/curate_results.py: [contains_any] *)

Module CurateFilter.
Import Curate.

(** The loop of [contains_any] for a [str] text.  [re_search] is
    [re.search(pattern, text, flags=re.IGNORECASE)] as a truth value;
    only [re.error] is caught. *)
Fixpoint contains_any_loop (re_search : string -> string -> re_outcome bool)
  (text text_l : string) (patterns : list string) : result bool :=
  match patterns with
  | [] => Ok false
  | kw :: rest =>
      if PyStr.truthy (PyStr.strip kw) then
        if is_regex kw then
          match re_search (PyStr.slice_1_m1 kw) text with
          | ReReturns true => Ok true
          | ReReturns false | ReError => contains_any_loop re_search text text_l rest
          | ReRaises e => Raise e
          end
        else if PyStr.contains (PyStr.lower kw) text_l then Ok true
        else contains_any_loop re_search text text_l rest
      else contains_any_loop re_search text text_l rest
  end.

(** [contains_any(text, patterns)] *)
Definition contains_any (re_search : string -> string -> re_outcome bool)
  (text : string) (patterns : list string) : result bool :=
  contains_any_loop re_search text (safe_lower (Some text)) patterns.

End CurateFilter.

(** ** app/crawl_and_rank.py: [recency_boost] *)

Module RankRules.
Import Curate.

Local Open Scope R_scope.

Definition ZeroDivisionError (msg : string) : exn := MkExn "ZeroDivisionError" msg.

(** [(datetime.datetime.utcnow() - d).days]: [utcnow()] carries no
    offset, so it is an aware [d] that cannot be subtracted. *)
Definition days_before_utcnow (w : world) (d : datetime) : result Z :=
  match d with
  | Naive us => Ok ((now_utc w - us) / US_PER_DAY)%Z
  | Aware _ =>
      Raise (TypeError "can't subtract offset-naive and offset-aware datetimes")
  end.

(** [math.exp(x)]: [OverflowError] when the result is [2 ** 1024] or
    more, the float 0.0 when it is [2 ** -1075] or less; the floats are
    taken as reals apart from that. *)
Definition math_exp (x : R) : result R :=
  if Rle_dec (1024 * ln 2) x then Raise (OverflowError "math range error")
  else if Rle_dec x (- (1075 * ln 2)) then Ok 0
  else Ok (exp x).

(** The integers from which on [float(n)] fails. *)
Definition FLOAT_INT_LIMIT : Z := 2 ^ 1024.

(** [x / n] for a float [x] and an [int] [n]: the integer is converted
    to a float first. *)
Definition float_div_int (x : R) (n : Z) : result R :=
  if (FLOAT_INT_LIMIT <=? Z.abs n)%Z
  then Raise (OverflowError "int too large to convert to float")
  else if (n =? 0)%Z then Raise (ZeroDivisionError "float division by zero")
  else Ok (x / IZR n).

(** [recency_boost(published_at, half_life_days)]: the [try] covers
    [fromisoformat] only. *)
Definition recency_boost (w : world) (published_at : option string)
  (half_life_days : Z) : result R :=
  match published_at with
  | None => Ok 0
  | Some s =>
      if negb (PyStr.truthy s) then Ok 0
      else
        match fromisoformat w (PyStr.replace "Z" "+00:00" s) with
        | None => Ok 0
        | Some d =>
            let! days := days_before_utcnow w d in
            let! x := float_div_int (- ln 2 * IZR days) half_life_days in
            math_exp x
        end
  end.

End RankRules.

(** ** app/fetch_youtube.py *)

Module FetchYoutube.

(** The seconds [sleep_backoff(i)] sleeps. *)
Definition sleep_backoff (i : nat) : nat := Nat.min (2 ^ i) 10.

(** [range(0, stop, step)] for [stop >= 0], as the list of its values. *)
Definition range_from_0 (stop step : Z) : result (list Z) :=
  if (step =? 0)%Z then Raise (ValueError "range() arg 3 must not be zero")
  else if (0 <? step)%Z
  then Ok (map (fun k => (Z.of_nat k * step)%Z)
             (seq 0 (Z.to_nat ((stop + step - 1) / step))))
  else Ok [].

(** [chunks(lst, n)], as the list of what the generator yields. *)
Definition chunks {A : Type} (lst : list A) (n : Z) : result (list (list A)) :=
  let! starts := range_from_0 (Z.of_nat (length lst)) n in
  Ok (map (fun i => Curate.slice_to n (Curate.slice_from i lst)) starts).

(** What [client.get] and the response do in one turn of [yt_get]:
    [client.get] raises an [httpx.HTTPError], or something else, or
    returns a response with its status code, what [raise_for_status]
    raises (an [HTTPStatusError], which is an [HTTPError]) and the result
    of [r.json()]. *)
Inductive get_outcome (J : Type) : Type :=
| GetRaisesHTTPError (e : exn)
| GetRaises (e : exn)
| GetResponse (status_code : Z) (status_error : option exn) (json : result J).
Arguments GetRaisesHTTPError {J} e.
Arguments GetRaises {J} e.
Arguments GetResponse {J} status_code status_error json.

(** How [yt_get] ends: with the JSON, with one of its own two
    [RuntimeError]s, or with an exception of the client. *)
Inductive yt_result (J : Type) : Type :=
| YtJson (j : J)
| YtNoApiKey
| YtRequestFailed
| YtRaises (e : exn).
Arguments YtJson {J} j.
Arguments YtNoApiKey {J}.
Arguments YtRequestFailed {J}.
Arguments YtRaises {J} e.

Inductive yt_event : Type :=
| YtGet (attempt : nat)
| YtSleep (seconds : nat).

(** The loop [for attempt in range(5)], over the attempts still to come. *)
Fixpoint yt_loop {J : Type} (get : nat -> get_outcome J) (attempts : list nat)
  : yt_result J * list yt_event :=
  match attempts with
  | [] => (YtRequestFailed, [])
  | attempt :: rest =>
      let again :=
        let '(r, tr) := yt_loop get rest in
        (r, YtGet attempt :: YtSleep (sleep_backoff attempt) :: tr) in
      let on_http_error (e : exn) :=
        if (attempt =? 4)%nat then (YtRaises e, [YtGet attempt]) else again in
      match get attempt with
      | GetRaisesHTTPError e => on_http_error e
      | GetRaises e => (YtRaises e, [YtGet attempt])
      | GetResponse status_code status_error json =>
          if ((status_code =? 429) || (500 <=? status_code))%Z then again
          else
            match status_error with
            | Some e => on_http_error e
            | None =>
                match json with
                | Ok j => (YtJson j, [YtGet attempt])
                | Raise e => (YtRaises e, [YtGet attempt])
                end
            end
      end
  end.

(** [yt_get(client, path, params)]; [api_key] is [YOUTUBE_API_KEY]. *)
Definition yt_get {J : Type} (api_key : option string) (get : nat -> get_outcome J)
  : yt_result J * list yt_event :=
  if negb (PyStr.truthy (default "" api_key)) then (YtNoApiKey, [])
  else yt_loop get (seq 0 5).

End FetchYoutube.

(** ** app/fetch_google.py *)

Module FetchGoogle.

(** One turn of the paging loop: the request, [raise_for_status] or
    [r.json()] raises, or the page has its list of items. *)
Inductive page_outcome (I : Type) : Type :=
| PageRaises (e : exn)
| PageItems (items : list I).
Arguments PageRaises {I} e.
Arguments PageItems {I} items.

(** The loop [while start <= 31]: the result, and the values of [start]
    the requests were made with.  [fuel] bounds the turns. *)
Fixpoint paging {I : Type} (get : Z -> page_outcome I) (fuel : nat) (start : Z)
  (all_items : list I) : option (result (list I) * list Z) :=
  match fuel with
  | O => None
  | S fuel' =>
      if (start <=? 31)%Z then
        match get start with
        | PageRaises e => Some (Raise e, [start])
        | PageItems [] => Some (Ok all_items, [start])
        | PageItems items =>
            match paging get fuel' (start + 10)%Z (all_items ++ items) with
            | Some (r, starts) => Some (r, start :: starts)
            | None => None
            end
        end
      else Some (Ok all_items, [])
  end.

(** The list [all_items] the script saves, from [start = 1] on. *)
Definition all_items {I : Type} (get : Z -> page_outcome I)
  : option (result (list I) * list Z) :=
  paging get 5 1%Z [].

End FetchGoogle.

(** ** app/utils/save_data.py *)

Module SaveData.

(** The loop of [save_jsonl] with its counter [n]: the items whose line
    is written. *)
Fixpoint save_loop {A : Type} (limit : option Z) (n : Z) (items : list A) : list A :=
  match items with
  | [] => []
  | item :: rest =>
      match limit with
      | Some l =>
          if (l <=? n)%Z then [] else item :: save_loop limit (n + 1)%Z rest
      | None => item :: save_loop limit (n + 1)%Z rest
      end
  end.

(** [save_jsonl(items, outpath, limit)]: the file is opened with ["w"],
    so these lines are all it holds afterwards. *)
Definition save_jsonl {A : Type} (items : list A) (limit : option Z) : list A :=
  save_loop limit 0%Z items.

End SaveData.

(** ** app/fetch_rss.py *)

Module FetchRss.

(** The dictionaries [norm_item] builds. *)
Record rss_item : Type := MkRss {
  rss_source : string;
  rss_title : string;
  rss_url : string;
  rss_summary : string;
  rss_published_at : string;
  rss_hash : string
}.

(** The loop of [dedup] with its set [seen]. *)
Fixpoint dedup_loop (seen : gset string) (items : list rss_item) : list rss_item :=
  match items with
  | [] => []
  | it :: rest =>
      if decide (rss_hash it ∈ seen) then dedup_loop seen rest
      else it :: dedup_loop ({[rss_hash it]} ∪ seen) rest
  end.

(** [dedup(items)] *)
Definition dedup (items : list rss_item) : list rss_item := dedup_loop ∅ items.

(** The keys [sorted] computes before it sorts: [dtparse.parse] of each
    date, or the exception it raises.  The dates are those [norm_item]
    writes, which all carry an offset, so a parsed date is an instant,
    here in microseconds, and any two of them compare. *)
Fixpoint date_keys (parse : string -> result Z) (items : list rss_item)
  : result (list (Z * rss_item)) :=
  match items with
  | [] => Ok []
  | it :: rest =>
      let! k := parse (rss_published_at it) in
      let! keyed := date_keys parse rest in
      Ok ((k, it) :: keyed)
  end.

(** [sort_by_date(items)]: [sorted(items, key=_dt, reverse=True)] *)
Definition sort_by_date (parse : string -> result Z) (items : list rss_item)
  : result (list rss_item) :=
  let! keyed := date_keys parse items in
  Ok (map snd (Curate.sort_desc (fun kv => IZR (fst kv)) keyed)).

(** The script from the fetched items on: the lines of [rss_data.jsonl]. *)
Definition rss_rows (parse : string -> result Z) (items : list rss_item)
  : result (list rss_item) :=
  let! sorted := sort_by_date parse (dedup items) in
  Ok (SaveData.save_jsonl (firstn 50 sorted) None).

End FetchRss.

(** * Vocabulary of the properties

    The notions the statements below are written in, and the data of the
    worked examples. *)

Section CanonVocabulary.
Import CrawlAndRank.

Definition canon_twice (lib : UrlLib.internals) (u : string) : result string :=
  let! c := canon lib u in canon lib c.

Definition bad_entry : entry :=
  MkEntry "1" "rss" (Some "t") (Some "http://[") None.

End CanonVocabulary.

Section CrawlVocabulary.
Import CrawlExtract.

(** An attempt that does not succeed at the crawler: [arun] raises, or
    the markdown is missing or blank. *)
Definition attempt_fails (o : arun_outcome) : Prop :=
  match o with
  | ArunRaises _ => True
  | ArunReturns markdown => PyStr.strip (default "" markdown) = ""
  end.

(** The text [last_err] of such an attempt. *)
Definition attempt_error (o : arun_outcome) : string :=
  match o with
  | ArunRaises e => exn_type e +:+ ": " +:+ exn_msg e
  | ArunReturns _ => "RuntimeError: Empty markdown"
  end.

(** The candidates as they are read, before the duplicates go. *)
Definition candidates (files : list (string * list (jsonl_line raw_record)))
  : list item :=
  flat_map items_of_file files.

(** The candidates without duplicates: of the items that share a URL the
    first one stays. *)
Fixpoint distinct (items : list item) : list item :=
  match items with
  | [] => []
  | it :: rest =>
      it :: List.filter (fun x => negb (String.eqb (url x) (url it))) (distinct rest)
  end.

(** A URL that has a ledger record with [ok = true]. *)
Definition has_ok_record (file : ledger) (u : string) : bool :=
  existsb (fun rec => f_ok rec && String.eqb (f_url rec) u) (read_jsonl file).

(** The URLs of the records with [ok = true], one entry per record. *)
Definition ok_urls (file : ledger) : list string :=
  map f_url (List.filter f_ok (read_jsonl file)).

(** How many records with [ok = true] the ledger holds for a URL. *)
Definition ok_count (file : ledger) (u : string) : nat :=
  count_occ string_dec (ok_urls file) u.

Definition url_of_task (o : option (fetch_record * list event)) : string :=
  match o with Some (r, _) => f_url r | None => "" end.

(** The result of a task, which always exists. *)
Definition task_result (w : env) (it : item) : fetch_record * list event :=
  match fetch_one w default_retries it with
  | Some x => x
  | None => (MkRecord (url it) (title it) (source_file it) "" false None None 0, [])
  end.

Definition ex_files : list (string * list (jsonl_line raw_record)) :=
  [("app/data/rss_data.jsonl",
    [Parsed (MkRaw (Some "http://a/") None (Some "A") None);
     Skipped;
     Parsed (MkRaw None (Some "http://b/") None (Some "B"));
     Parsed (MkRaw (Some "http://a/") None (Some "A again") None);
     Parsed (MkRaw None None (Some "no url") None)])].

(** The crawler times out on [http://a/] and returns text for the rest. *)
Definition ex_world : env :=
  MkEnv (fun u _ => if String.eqb u "http://a/"
                    then ArunRaises (MkExn "TimeoutError" "30s")
                    else ArunReturns (Some " body "))
        (fun _ _ => None) "2024-05-01T10:00:00" (fun u => "sha1-of-" +:+ u).

Definition ex_item_a : item := MkItem "http://a/" "A" "rss_data.jsonl".

Definition ex_item_b : item := MkItem "http://b/" "B" "rss_data.jsonl".

Definition ex_ledger1 : ledger :=
  [] ++ map Parsed (map fst (map (task_result ex_world) (todo ex_files []))).

Definition ex_ledger2 : ledger :=
  ex_ledger1
  ++ map Parsed (map fst (map (task_result ex_world) (todo ex_files ex_ledger1))).

End CrawlVocabulary.

Section CurateVocabulary.
Import Curate.
Local Open Scope R_scope.

(** The score above [max_chars] as a function of the overflow. *)
Definition overflow_score (over : Z) : Q :=
  Qmax (4 # 10) (1 / (1 + inject_Z over / 100000)).

(** The hits of one pattern, as the scorer is described: the matches of
    the regular expression for a pattern between slashes (none when the
    expression is invalid), the occurrences of the lowered pattern in the
    lowered text otherwise. *)
Definition pattern_hits (w : world) (text kw : string) : nat :=
  if is_regex kw then
    match re_findall w (PyStr.slice_1_m1 kw) text with
    | ReReturns hits => hits
    | ReError | ReRaises _ => 0%nat
    end
  else PyStr.count (PyStr.lower kw) (PyStr.lower text).

(** The exception the regular-expression engine raises on a pattern of
    the list, if there is one that is not [re.error]: that of the first
    such pattern. *)
Fixpoint first_raise (w : world) (text : string) (patterns : list string)
  : option exn :=
  match patterns with
  | [] => None
  | kw :: rest =>
      if PyStr.truthy kw && is_regex kw then
        match re_findall w (PyStr.slice_1_m1 kw) text with
        | ReRaises e => Some e
        | _ => first_raise w text rest
        end
      else first_raise w text rest
  end.

Definition total_hits (w : world) (text : string) (patterns : list string) : nat :=
  list_sum (map (pattern_hits w text) patterns).

(** [max(0, log1p(P) - 1.5 * log1p(N))] *)
Definition keyword_formula (pos neg : nat) : R :=
  Rmax 0 (log1p (INR pos) - 1.5 * log1p (INR neg)).

(** The patterns the loop does not pass over. *)
Definition nonempty (patterns : list string) : list string :=
  List.filter PyStr.truthy patterns.

(** A regular-expression engine for the examples: the empty pattern
    matches once at every position of the text, and the parser gives up
    on the repetition count 4294967296 with [OverflowError], as in [re];
    no example uses another pattern. *)
Definition re_empty_pattern_only (pattern text : string) : re_outcome nat :=
  if String.eqb pattern "" then ReReturns (S (String.length text))
  else if String.eqb pattern "a{4294967296}"
  then ReRaises (OverflowError "the repetition number is too large")
  else ReError.

Definition kw_world : world :=
  MkWorld re_empty_pattern_only (fun _ => None) 0 (fun _ => "")
    (UrlLib.MkInternals (fun _ => None) (fun _ => false)).

(** The age in days that [recency_score] works with: whole days between
    the timestamp and now, 0 for a timestamp in the future. *)
Definition age_days (w : world) (us : Z) : Z :=
  Z.max 0 ((now_utc w - us) / US_PER_DAY).


(** A clock and a parser for the examples: now is day 20 of the epoch,
    and the one timestamp that parses is the start of day 6. *)
Definition clock_world : world :=
  MkWorld (fun _ _ => ReError)
    (fun s => if String.eqb s "1970-01-07T00:00:00+00:00"
              then Some (Aware (6 * US_PER_DAY)) else None)
    (20 * US_PER_DAY) (fun _ => "")
    (UrlLib.MkInternals (fun _ => None) (fun _ => false)).


(** A clock and a parser with a date far ahead: now is the epoch, and
    one date 40000 days later parses without an offset. *)
Definition early_world : world :=
  MkWorld (fun _ _ => ReError)
    (fun s => if String.eqb s "2079-07-08T00:00:00"
              then Some (Naive (40000 * US_PER_DAY)) else None)
    0 (fun _ => "")
    (UrlLib.MkInternals (fun _ => None) (fun _ => false)).

Definition Reqb (x y : R) : bool := if Req_dec_T x y then true else false.

Definition ex_scored_item (u : string) (raw : R) (n : nat) : scored_item :=
  MkScored u "t" "example.org" raw [] None (Some "p.md") n 0 0.

(** Five scored items, as in the scenario with [top_k_for_llm = 2]. *)
Definition ex_scored : list scored_item :=
  [ex_scored_item "u1" 0.3 100; ex_scored_item "u2" 0.9 2000;
   ex_scored_item "u3" 0.5 700; ex_scored_item "u4" 0.7 50;
   ex_scored_item "u5" 0.1 900].

Definition ex_profile : profile :=
  MkProfile [] [] [] [] (Some 3%Z) None None true None None None None None None.

(** The text of a row that [main] scores, when the row gets that far. *)
Definition scored_text (w : world) (r : row) : option string :=
  if row_ok r then
    match row_markdown_path r with
    | Some mp =>
        if PyStr.truthy mp then
          let content :=
            read_text w (if PyStr.startswith "/" mp then mp else "./" +:+ mp) in
          if PyStr.truthy content then Some (content_for_score content) else None
        else None
    | None => None
    end
  else None.

(** One page on disk; no dates are used, so the clock does not matter. *)
Definition page_world : world :=
  MkWorld (fun _ _ => ReError) (fun _ => None) 0
    (fun path => if String.eqb path "./app/crawl_result/pages/1.md"
                 then "<!-- title: T -->" +:+ UrlLib.LF +:+ "Rust and more rust"
                 else "")
    (UrlLib.MkInternals (fun _ => None) (fun _ => false)).

(** Weights that sum to 2. *)
Definition heavy_profile : profile :=
  MkProfile ["rust"] [] ["example.org"] [] None None None false None None
    (Some 1) (Some 0.5) (Some 0.25) (Some 0.25).

Definition ex_row : row :=
  MkRow true "http://www.Example.org/a" "T" (Some "app/crawl_result/pages/1.md")
    (Some "2024-05-01T10:00:00Z").

End CurateVocabulary.

Section SortVocabulary.
Local Open Scope R_scope.
Context {A : Type} (key : A -> R).

(** Descending by [key]: every item is followed by items that are not
    larger. *)
Definition descending (l : list A) : Prop :=
  StronglySorted (fun a b => key b <= key a) l.

(** The items whose key is [v], in the order they have in [l]. *)
Definition with_key (v : R) (l : list A) : list A :=
  List.filter (fun a => Reqb (key a) v) l.

End SortVocabulary.

(** * Vocabulary of the further properties *)

Section CrawlVocabularyMore.
Import CrawlExtract.

(** The attempt numbers of the crawler calls of a trace, and its sleeps,
    in the order they happen. *)
Definition attempts_of (tr : list event) : list nat :=
  flat_map (fun e => match e with EvArun _ k => [k] | _ => [] end) tr.

Definition sleeps_of (tr : list event) : list nat :=
  flat_map (fun e => match e with EvSleep s => [s] | _ => [] end) tr.

(** The sleep in front of the attempt with number [i]. *)
Definition backoff (i : nat) : nat := Nat.min (2 ^ i) backoff_cap.

(** Where the page of a URL is stored. *)
Definition page_path (w : env) (u : string) : string :=
  OUT_MD_DIR +:+ "/" +:+ sha1 w u +:+ ".md".

(** The comment in front of a stored page, before [strip]. *)
Definition page_header (t u fetched : string) : string :=
  "<!-- title: " +:+ t +:+ LF +:+ "url: " +:+ u +:+ LF
  +:+ "fetched_at: " +:+ fetched +:+ LF +:+ "-->".

(** The text of a stored page. *)
Definition page_text (t u fetched md : string) : string :=
  PyStr.strip (page_header t u fetched) +:+ LF +:+ LF +:+ md.



(** The text after the first occurrence of [sub], if there is one. *)
Fixpoint after_first (sub s : string) : option string :=
  if String.prefix sub s then Some (PyStr.drop (String.length sub) s)
  else match s with
       | EmptyString => None
       | String _ r => after_first sub r
       end.


End CrawlVocabularyMore.

Section CurateVocabularyMore.
Import Curate.

(** A pattern that is matched as a substring, not as a regular
    expression. *)
Definition literal (kw : string) : Prop := is_regex kw = false.

(** The hits of lowered literal patterns in a lowered text. *)
Definition literal_hits (text_l : string) (lowered : list string) : nat :=
  fold_left (fun acc k => if PyStr.truthy k then (acc + PyStr.count k text_l)%nat
                          else acc) lowered 0%nat.

(** A pattern [contains_any] passes over although [keyword_score] counts
    it: not empty, but nothing except white space. *)
Definition blank (kw : string) : Prop := kw <> "" /\ PyStr.strip kw = "".

(** A row that gets as far as the scorers. *)
Definition eligible (w : world) (r : row) : bool :=
  match scored_text w r with Some _ => true | None => false end.

(** A row whose timestamp is used and parses without an offset. *)
Definition stamp_is_naive (w : world) (p : profile) (r : row) : bool :=
  use_fetched_at p
  && match row_fetched_at r with
     | Some t =>
         PyStr.truthy t
         && match fromisoformat w (PyStr.replace "Z" "+00:00" t) with
            | Some (Naive _) => true
            | _ => false
            end
     | None => false
     end.

(** What the second stage leaves of an item [s]. *)
Definition rescored (s it : scored_item) : Prop :=
  it = rescore_head s \/ it = rescore_tail s.

End CurateVocabularyMore.

Section PageVocabulary.

(** The row that [main] of the curation step reads from the line of
    [contents.jsonl] that holds a record of the crawl. *)
Definition row_of_record (r : CrawlExtract.fetch_record) : Curate.row :=
  Curate.MkRow (CrawlExtract.f_ok r) (CrawlExtract.f_url r) (CrawlExtract.f_title r)
    (CrawlExtract.f_markdown_path r) (Some (CrawlExtract.f_fetched_at r)).

(** The one-character string [\r]. *)
Definition CR : string := String PyStr.CR EmptyString.

(** A markdown text of four characters with a Windows line end. *)
Definition md_crlf : string :=
  String "a" (String PyStr.CR (String PyStr.LF "b")).

(** A disk for the curation step that holds the page of [ex_item_b]. *)
Definition ex_read_world : Curate.world :=
  Curate.MkWorld (fun _ _ => Curate.ReError) (fun _ => None) 0
    (fun path =>
       if String.eqb path "./app/crawl_result/pages/sha1-of-http://b/.md"
       then PyStr.universal_newlines
              (page_text "B" "http://b/" "2024-05-01T10:00:00Z" "body")
       else "")
    (UrlLib.MkInternals (fun _ => None) (fun _ => false)).

End PageVocabulary.

Section FetchVocabulary.
Import FetchYoutube FetchGoogle.

(** The attempts [yt_get] makes a request for, and its sleeps, in the
    order they happen. *)
Definition yt_gets (tr : list yt_event) : list nat :=
  flat_map (fun e => match e with YtGet k => [k] | YtSleep _ => [] end) tr.

Definition yt_sleeps (tr : list yt_event) : list nat :=
  flat_map (fun e => match e with YtSleep s => [s] | YtGet _ => [] end) tr.

(** A status code that makes [yt_get] sleep and try again. *)
Definition throttled (status_code : Z) : bool :=
  ((status_code =? 429) || (500 <=? status_code))%Z.

(** An attempt that ends with the JSON [j]. *)
Definition answers {J : Type} (o : get_outcome J) (j : J) : Prop :=
  exists status_code,
    o = GetResponse status_code None (Ok j) /\ throttled status_code = false.

(** An attempt that is not throttled and ends with an [httpx.HTTPError]. *)
Definition http_error {J : Type} (o : get_outcome J) (e : exn) : Prop :=
  o = GetRaisesHTTPError e
  \/ exists status_code json,
       o = GetResponse status_code (Some e) json /\ throttled status_code = false.

(** An attempt that ends with an exception nothing in [yt_get] catches. *)
Definition other_error {J : Type} (o : get_outcome J) (e : exn) : Prop :=
  o = GetRaises e
  \/ exists status_code,
       o = GetResponse status_code None (Raise e) /\ throttled status_code = false.

(** An attempt that is answered with a throttled status. *)
Definition is_throttled {J : Type} (o : get_outcome J) : Prop :=
  exists status_code status_error json,
    o = GetResponse status_code status_error json /\ throttled status_code = true.

(** An attempt after which [yt_get] sleeps and goes on: a throttled
    answer, or an [httpx.HTTPError] on an attempt that is not the fifth. *)
Definition retried {J : Type} (attempt : nat) (o : get_outcome J) : Prop :=
  is_throttled o \/ (attempt <> 4%nat /\ exists e, http_error o e).

(** The events of [k] attempts from [a] on that are all retried. *)
Definition yt_retry_events (a k : nat) : list yt_event :=
  flat_map (fun i => [YtGet i; YtSleep (sleep_backoff i)]) (seq a k).

(** How the loop of [yt_get] ends when it starts at attempt [a] and
    makes [k] requests. *)
Definition yt_loop_ends {J : Type} (get : nat -> get_outcome J) (a n : nat)
  (r : yt_result J) (tr : list yt_event) (k : nat) : Prop :=
  match r with
  | YtJson j =>
      (1 <= k)%nat /\ tr = yt_retry_events a (k - 1) ++ [YtGet (a + k - 1)]
      /\ (forall i, (a <= i < a + k - 1)%nat -> retried i (get i))
      /\ answers (get (a + k - 1)) j
  | YtRaises e =>
      (1 <= k)%nat /\ tr = yt_retry_events a (k - 1) ++ [YtGet (a + k - 1)]
      /\ (forall i, (a <= i < a + k - 1)%nat -> retried i (get i))
      /\ (other_error (get (a + k - 1)) e
          \/ ((a + k = 5)%nat /\ http_error (get 4) e))
  | YtRequestFailed =>
      k = n /\ tr = yt_retry_events a n
      /\ (forall i, (a <= i < a + n)%nat -> retried i (get i))
  | YtNoApiKey => False
  end.

(** The items of the page that starts at [start], none if the request
    fails. *)
Definition page_items {I : Type} (get : Z -> page_outcome I) (start : Z) : list I :=
  match get start with
  | PageItems items => items
  | PageRaises _ => []
  end.

(** The date of a feed item as the key it is sorted by. *)
Definition date_of (parse : string -> result Z) (it : FetchRss.rss_item) : R :=
  match parse (FetchRss.rss_published_at it) with
  | Ok z => IZR z
  | Raise _ => 0%R
  end.

End FetchVocabulary.

(** * Properties *)

(** ** [canon] *)

Section CanonFacts.
Import CrawlAndRank.

Lemma canon_params_after_slash lib :
  canon lib "http://a.com/x;p/" = Ok "http://a.com/x;p".
Proof. vm_compute. reflexivity. Qed.

Lemma canon_params_last_segment lib :
  canon lib "http://a.com/x;p" = Ok "http://a.com/x".
Proof. vm_compute. reflexivity. Qed.

(** C5.  [canon] is not idempotent: with a [;params] part in a segment
    that is followed by a slash, the first pass removes the slash only,
    and the second pass then cuts the parameters off. *)
Theorem canon_not_idempotent : forall lib : UrlLib.internals,
  canon lib "http://a.com/x;p/" = Ok "http://a.com/x;p" /\
  canon_twice lib "http://a.com/x;p/" = Ok "http://a.com/x" /\
  canon_twice lib "http://a.com/x;p/" <> canon lib "http://a.com/x;p/".
Proof.
  intro lib. unfold canon_twice.
  rewrite canon_params_after_slash. cbn [rbind].
  rewrite canon_params_last_segment.
  repeat split; try reflexivity. discriminate.
Qed.

(** C6.  [canon] raises on a URL whose host opens a bracket that is never
    closed; [urlparse] raises [ValueError], nothing catches it, and
    [unique_by_url] passes it on. *)
Theorem canon_raises_on_open_bracket : forall lib : UrlLib.internals,
  canon lib "http://[" = Raise (ValueError "Invalid IPv6 URL") /\
  unique_by_url lib [bad_entry] = Raise (ValueError "Invalid IPv6 URL").
Proof. intro lib. split; vm_compute; reflexivity. Qed.

(** [norm_domain] makes the same call of [urlparse] inside a [try] and
    answers with the empty domain. *)
Lemma norm_domain_swallows_the_error (w : Curate.world) :
  Curate.norm_domain w "http://[" = "".
Proof. reflexivity. Qed.

End CanonFacts.

(** ** [fetch_one] *)

Section FetchFacts.
Import CrawlExtract.

(** *** One turn of the [try] *)

Lemma try_fetch_fails w out attempt :
  attempt_fails (arun w (f_url out) attempt) ->
  exists e,
    try_fetch w out attempt = inl (e, [EvArun (f_url out) attempt])
    /\ exn_type e +:+ ": " +:+ exn_msg e
       = attempt_error (arun w (f_url out) attempt).
Proof.
  unfold try_fetch, attempt_fails, attempt_error.
  destruct (arun w (f_url out) attempt) as [e|markdown]; intros H.
  - exists e. split; reflexivity.
  - rewrite H. exists (RuntimeError "Empty markdown"). split; reflexivity.
Qed.

Lemma try_fetch_done w out attempt r tr :
  try_fetch w out attempt = inr (r, tr) ->
  exists md,
    arun w (f_url out) attempt = ArunReturns (Some md)
    /\ PyStr.strip md <> ""
    /\ f_ok r = true /\ f_url r = f_url out
    /\ f_markdown_chars r = String.length (PyStr.strip md).
Proof.
  unfold try_fetch.
  destruct (arun w (f_url out) attempt) as [e|[md|]]; try discriminate.
  change (default "" (Some md)) with md.
  destruct (PyStr.truthy (PyStr.strip md)) eqn:Et; [|discriminate].
  cbn [negb]. destruct (write_page w _ _); [discriminate|].
  intros H. inversion H; subst. exists md. repeat split.
  intros E. rewrite E in Et. discriminate.
Qed.

Lemma try_fetch_raised w out attempt e tr :
  try_fetch w out attempt = inl (e, tr) ->
  forall u k, In (EvArun u k) tr -> u = f_url out.
Proof.
  unfold try_fetch. intros H u k Hin.
  destruct (arun w (f_url out) attempt) as [e0|markdown].
  - inversion H; subst. destruct Hin as [E|[]]. congruence.
  - destruct (negb (PyStr.truthy _)).
    + inversion H; subst. destruct Hin as [E|[]]. congruence.
    + destruct (write_page w _ _); [|discriminate].
      inversion H; subst. destruct Hin as [E|[E|[]]]; congruence.
Qed.

Lemma try_fetch_done_events w out attempt r tr :
  try_fetch w out attempt = inr (r, tr) ->
  forall u k, In (EvArun u k) tr -> u = f_url out.
Proof.
  unfold try_fetch. intros H u k Hin.
  destruct (arun w (f_url out) attempt) as [e0|markdown]; [discriminate|].
  destruct (negb (PyStr.truthy _)); [discriminate|].
  destruct (write_page w _ _); [discriminate|].
  inversion H; subst. destruct Hin as [E|[E|[]]]; congruence.
Qed.

(** *** The loop *)

(** The loop always returns, and the record keeps the URL. *)
Lemma fetch_loop_total w retries out : forall fuel attempt,
  (attempt <= retries)%nat -> (retries < attempt + fuel)%nat ->
  exists r tr, fetch_loop w retries out fuel attempt = Some (r, tr)
               /\ f_url r = f_url out.
Proof.
  induction fuel as [|fuel IH]; intros attempt Hle Hfuel; [lia|].
  cbn [fetch_loop].
  destruct (Nat.leb_spec attempt retries) as [_|]; [|lia].
  destruct (try_fetch w out attempt) as [[e tr]|[r tr]] eqn:E.
  - destruct (Nat.ltb_spec retries (attempt + 1)) as [|Hge].
    + eauto.
    + destruct (IH (attempt + 1)%nat) as (r & tr' & -> & Hu); [lia|lia|]. eauto.
  - apply try_fetch_done in E as (md & _ & _ & _ & Hu & _). eauto.
Qed.

Lemma fetch_one_total w retries it :
  exists r tr, fetch_one w retries it = Some (r, tr) /\ f_url r = url it.
Proof. unfold fetch_one. apply fetch_loop_total; lia. Qed.

(** A failing attempt inside the loop: either the budget is used up, or
    the loop sleeps and goes on. *)
Lemma fetch_loop_fail_step w retries out fuel attempt :
  (attempt <= retries)%nat ->
  attempt_fails (arun w (f_url out) attempt) ->
  fetch_loop w retries out (S fuel) attempt =
    if (retries <? attempt + 1)%nat
    then Some (set_error out (attempt_error (arun w (f_url out) attempt)),
               [EvArun (f_url out) attempt])
    else match fetch_loop w retries out fuel (attempt + 1) with
         | Some (r, tr') =>
             Some (r, [EvArun (f_url out) attempt]
                      ++ EvSleep (Nat.min (2 ^ (attempt + 1)) backoff_cap) :: tr')
         | None => None
         end.
Proof.
  intros Hle Hf. cbn [fetch_loop].
  destruct (Nat.leb_spec attempt retries) as [_|]; [|lia].
  destruct (try_fetch_fails w out attempt Hf) as (e & -> & ->). reflexivity.
Qed.

(** A record with [ok = true] comes from an attempt that returned text
    which is not blank, and [markdown_chars] is its length. *)
Lemma fetch_loop_ok w retries out : forall fuel attempt r tr,
  f_ok out = false ->
  fetch_loop w retries out fuel attempt = Some (r, tr) ->
  f_ok r = true ->
  exists k md, (attempt <= k <= retries)%nat
    /\ arun w (f_url out) k = ArunReturns (Some md)
    /\ PyStr.strip md <> ""
    /\ f_markdown_chars r = String.length (PyStr.strip md).
Proof.
  induction fuel as [|fuel IH]; intros attempt r tr Hout H Hok; [discriminate|].
  cbn [fetch_loop] in H.
  destruct (Nat.leb_spec attempt retries) as [Hle|]; [|discriminate].
  destruct (try_fetch w out attempt) as [[e tr0]|[r0 tr0]] eqn:E.
  - destruct (retries <? attempt + 1)%nat.
    + inversion H; subst. cbn in Hok. congruence.
    + destruct (fetch_loop w retries out fuel (attempt + 1)) as [[r' tr']|] eqn:E';
        [|discriminate].
      inversion H; subst.
      destruct (IH _ _ _ Hout E' Hok) as (k & md & Hk & Hrest).
      exists k, md. split; [lia|exact Hrest].
  - inversion H; subst.
    apply try_fetch_done in E as (md & Ha & Hs & _ & _ & Hn).
    exists attempt, md. repeat split; try lia; assumption.
Qed.

(** Every call of the crawler in a task is for the task's own URL. *)
Lemma fetch_loop_events w retries out : forall fuel attempt r tr u k,
  fetch_loop w retries out fuel attempt = Some (r, tr) ->
  In (EvArun u k) tr -> u = f_url out.
Proof.
  induction fuel as [|fuel IH]; intros attempt r tr u k H Hin; [discriminate|].
  cbn [fetch_loop] in H.
  destruct (attempt <=? retries)%nat; [|discriminate].
  destruct (try_fetch w out attempt) as [[e tr0]|[r0 tr0]] eqn:E.
  - pose proof (try_fetch_raised w out attempt e tr0 E) as Hown.
    destruct (retries <? attempt + 1)%nat.
    + inversion H; subst. eauto.
    + destruct (fetch_loop w retries out fuel (attempt + 1)) as [[r' tr']|] eqn:E';
        [|discriminate].
      inversion H; subst.
      apply in_app_or in Hin. destruct Hin as [Hin|[Hin|Hin]]; eauto; discriminate.
  - inversion H; subst. eapply try_fetch_done_events; eassumption.
Qed.

End FetchFacts.

(** ** [load_items], the ledger and [run_crawl] *)

Section RunFacts.
Import CrawlExtract.

Lemma read_jsonl_app {A} (l1 l2 : list (jsonl_line A)) :
  read_jsonl (l1 ++ l2) = read_jsonl l1 ++ read_jsonl l2.
Proof. unfold read_jsonl. apply flat_map_app. Qed.

Lemma read_jsonl_parsed {A} (rs : list A) : read_jsonl (map Parsed rs) = rs.
Proof.
  unfold read_jsonl. induction rs as [|r rs IH]; cbn; [|rewrite IH]; reflexivity.
Qed.

Lemma has_ok_record_iff file u :
  has_ok_record file u = true <->
  exists rec, In rec (read_jsonl file) /\ f_ok rec = true /\ f_url rec = u.
Proof.
  unfold has_ok_record. rewrite existsb_exists. split.
  - intros (rec & Hin & H). apply andb_prop in H as [H1 H2].
    apply String.eqb_eq in H2. eauto.
  - intros (rec & Hin & H1 & H2). exists rec. split; [assumption|].
    rewrite H1. cbn. now apply String.eqb_eq.
Qed.

Lemma in_ok_urls file u : In u (ok_urls file) <-> has_ok_record file u = true.
Proof.
  rewrite has_ok_record_iff. unfold ok_urls. rewrite in_map_iff. split.
  - intros (rec & Hu & Hin). apply filter_In in Hin as [Hin Hok]. eauto.
  - intros (rec & Hin & Hok & Hu). exists rec. split; [assumption|].
    apply filter_In. auto.
Qed.

Lemma done_ok_fold (recs : list fetch_record) : forall (acc : gset string) u,
  u ∈ fold_left (fun acc rec =>
        if f_ok rec && PyStr.truthy (f_url rec) then {[f_url rec]} ∪ acc else acc)
      recs acc
  <-> u ∈ acc \/ exists rec, In rec recs /\ f_ok rec = true
                              /\ PyStr.truthy (f_url rec) = true /\ f_url rec = u.
Proof.
  induction recs as [|r recs IH]; intros acc u; cbn [fold_left].
  - split; [auto|]. intros [H|(rec & [] & _)]. exact H.
  - rewrite IH. split.
    + intros [H|(rec & Hin & H)].
      * destruct (f_ok r && PyStr.truthy (f_url r)) eqn:E; [|auto].
        apply elem_of_union in H as [H|H]; [|auto].
        apply elem_of_singleton in H. apply andb_prop in E as [E1 E2].
        right. exists r. cbn. auto.
      * right. exists rec. cbn. tauto.
    + intros [H|(rec & [->|Hin] & H1 & H2 & H3)].
      * left. destruct (f_ok r && PyStr.truthy (f_url r)); [|assumption].
        apply elem_of_union. auto.
      * left. rewrite H1, H2. cbn. apply elem_of_union. left.
        apply elem_of_singleton. auto.
      * right. eauto.
Qed.

(** [done_ok] holds the URLs with an [ok] record, the empty URL apart. *)
Lemma done_ok_spec file u :
  u ∈ done_ok file <-> has_ok_record file u = true /\ PyStr.truthy u = true.
Proof.
  unfold done_ok. rewrite done_ok_fold, has_ok_record_iff. split.
  - intros [H|(rec & Hin & H1 & H2 & <-)].
    + now apply not_elem_of_empty in H.
    + split; [exists rec|]; auto.
  - intros [(rec & Hin & H1 & <-) H2]. right. eauto.
Qed.

Lemma pick_truthy vals v : pick vals = Some v -> PyStr.truthy v = true.
Proof.
  induction vals as [|[x|] vals IH]; cbn; try discriminate; auto.
  destruct (PyStr.truthy x) eqn:E; [|assumption]. congruence.
Qed.

Lemma candidates_url_truthy files it :
  In it (candidates files) -> PyStr.truthy (url it) = true.
Proof.
  unfold candidates. rewrite in_flat_map. intros (f & _ & Hin).
  unfold items_of_file in Hin. apply in_flat_map in Hin as (rec & _ & Hin).
  destruct (pick [r_url rec; r_link rec]) as [u|] eqn:E; [|destruct Hin].
  destruct Hin as [<-|[]]. cbn. eapply pick_truthy; eassumption.
Qed.

Lemma distinct_incl items it : In it (distinct items) -> In it items.
Proof.
  induction items as [|x items IH]; cbn; [tauto|].
  intros [->|H]; [auto|]. apply filter_In in H as [H _]. auto.
Qed.

Lemma NoDup_map_filter {A B} (f : A -> B) (p : A -> bool) (l : list A) :
  List.NoDup (map f l) -> List.NoDup (map f (List.filter p l)).
Proof.
  induction l as [|a l IH]; cbn; [auto|]. intros H.
  apply List.NoDup_cons_iff in H as [Hn Hd].
  destruct (p a); cbn; [|auto].
  constructor; [|auto]. intros Hin. apply Hn.
  apply in_map_iff in Hin as (x & Hx & Hin). apply filter_In in Hin as [Hin _].
  apply in_map_iff. eauto.
Qed.

Lemma firstn_In {A} (l : list A) : forall m x, In x (firstn m l) -> In x l.
Proof.
  induction l as [|a l IH]; intros [|m] x; cbn; try tauto.
  intros [->|H]; eauto.
Qed.

Lemma NoDup_map_firstn {A B} (f : A -> B) (l : list A) : forall m,
  List.NoDup (map f l) -> List.NoDup (map f (firstn m l)).
Proof.
  induction l as [|a l IH]; intros [|m] H; cbn; try constructor.
  - apply List.NoDup_cons_iff in H as [Hn Hd]. intros Hin. apply Hn.
    apply in_map_iff in Hin as (x & Hx & Hin). apply firstn_In in Hin.
    apply in_map_iff. eauto.
  - apply List.NoDup_cons_iff in H as [Hn Hd]. auto.
Qed.

Lemma distinct_NoDup items : List.NoDup (map url (distinct items)).
Proof.
  induction items as [|x items IH]; cbn; constructor.
  - intros Hin. apply in_map_iff in Hin as (y & Hy & Hin).
    apply filter_In in Hin as [_ Hne]. rewrite Hy, String.eqb_refl in Hne.
    discriminate.
  - now apply NoDup_map_filter.
Qed.

Lemma filter_filter_weaken {A} (p q : A -> bool) (l : list A) :
  (forall x, p x = true -> q x = true) ->
  List.filter p (List.filter q l) = List.filter p l.
Proof.
  intros H. induction l as [|a l IH]; cbn; [reflexivity|].
  destruct (q a) eqn:Eq; cbn.
  - destruct (p a); rewrite ?IH; reflexivity.
  - destruct (p a) eqn:Ep; [|assumption]. apply H in Ep. congruence.
Qed.

Lemma filter_filter_and {A} (p q : A -> bool) (l : list A) :
  List.filter p (List.filter q l) = List.filter (fun x => p x && q x) l.
Proof.
  induction l as [|a l IH]; cbn; [reflexivity|].
  destruct (q a); cbn; destruct (p a); cbn; rewrite ?IH; reflexivity.
Qed.

(** The loop with the set [seen] keeps the first item of every URL. *)
Lemma dedup_distinct items : forall seen,
  dedup seen items =
  List.filter (fun x => negb (bool_decide (url x ∈ seen))) (distinct items).
Proof.
  induction items as [|it items IH]; intros seen; cbn [dedup distinct List.filter];
    [reflexivity|].
  destruct (decide (url it ∈ seen)) as [Hin|Hnin].
  - rewrite (bool_decide_eq_true_2 _ Hin). cbn [negb].
    rewrite IH. symmetry. apply filter_filter_weaken.
    intros x Hx. apply negb_true_iff in Hx. apply bool_decide_eq_false in Hx.
    apply negb_true_iff. apply String.eqb_neq. intros E. apply Hx. now rewrite E.
  - rewrite (bool_decide_eq_false_2 _ Hnin). cbn [negb]. f_equal.
    rewrite IH, filter_filter_and. apply filter_ext. intros x.
    destruct (String.eqb_spec (url x) (url it)) as [E|E]; cbn.
    + rewrite andb_false_r. apply negb_false_iff, bool_decide_eq_true.
      apply elem_of_union. left. now apply elem_of_singleton.
    + rewrite andb_true_r. f_equal. apply bool_decide_ext.
      rewrite elem_of_union, elem_of_singleton. tauto.
Qed.

Lemma load_items_distinct files : load_items files = distinct (candidates files).
Proof.
  unfold load_items. fold (candidates files). rewrite dedup_distinct.
  rewrite <- (filter_ext (fun _ => true)).
  - induction (distinct (candidates files)) as [|a l IH]; cbn; congruence.
  - intros x. symmetry. apply negb_true_iff, bool_decide_eq_false.
    apply not_elem_of_empty.
Qed.

(** The work list is the distinct candidates without the URLs that have
    an [ok] record. *)
Lemma todo_spec files file :
  todo files file =
  List.filter (fun it => negb (has_ok_record file (url it)))
    (distinct (candidates files)).
Proof.
  unfold todo, pending. rewrite load_items_distinct.
  apply filter_ext_in. intros it Hin. f_equal.
  apply distinct_incl, candidates_url_truthy in Hin.
  destruct (has_ok_record file (url it)) eqn:E.
  - apply bool_decide_eq_true. apply done_ok_spec. auto.
  - apply bool_decide_eq_false. rewrite done_ok_spec. intros [H _]. congruence.
Qed.

Lemma todo_NoDup files file : List.NoDup (map url (todo files file)).
Proof. rewrite todo_spec. apply NoDup_map_filter, distinct_NoDup. Qed.

Lemma todo_no_ok_record files file it :
  In it (todo files file) -> has_ok_record file (url it) = false.
Proof.
  rewrite todo_spec. intros H. apply filter_In in H as [_ H].
  now apply negb_true_iff in H.
Qed.

(** *** Writing the results *)

Lemma flush_fold (file : ledger) (l : list fetch_record) : forall pre batch,
  exists pre' batch',
    fold_left flush_step l (file ++ map Parsed pre, batch)
      = (file ++ map Parsed pre', batch')
    /\ pre' ++ batch' = pre ++ batch ++ l.
Proof.
  induction l as [|r l IH]; intros pre batch; cbn [fold_left].
  - exists pre, batch. now rewrite app_nil_r.
  - unfold flush_step at 2.
    destruct (batch_size <=? length (batch ++ [r]))%nat.
    + unfold write_jsonl. rewrite <- app_assoc, <- map_app.
      destruct (IH (pre ++ batch ++ [r]) []) as (pre' & batch' & H & E).
      exists pre', batch'. split; [exact H|].
      rewrite E. cbn. now rewrite <- !app_assoc.
    + destruct (IH pre (batch ++ [r])) as (pre' & batch' & H & E).
      exists pre', batch'. split; [exact H|].
      rewrite E. now rewrite <- !app_assoc.
Qed.

(** A run that completes appends every result, in the order of arrival. *)
Lemma flush_all_spec file completed :
  flush_all file completed = file ++ map Parsed completed.
Proof.
  unfold flush_all.
  destruct (flush_fold file completed [] []) as (pre & batch & H & E).
  simpl in H. rewrite app_nil_r in H. unfold ledger in *. rewrite H.
  cbn in E. subst completed.
  unfold flush_rest. destruct batch as [|b batch].
  - now rewrite !app_nil_r.
  - unfold write_jsonl. now rewrite <- app_assoc, <- map_app.
Qed.

(** A run that dies has appended a prefix of the results. *)
Lemma flush_upto_spec file completed n :
  exists m, flush_upto file completed n = file ++ map Parsed (firstn m completed).
Proof.
  unfold flush_upto.
  destruct (flush_fold file (firstn n completed) [] []) as (pre & batch & H & E).
  simpl in H. rewrite app_nil_r in H. unfold ledger in *. rewrite H.
  cbn in E. cbn [fst].
  exists (Nat.min (length pre) n).
  rewrite <- firstn_firstn, <- E, firstn_app, Nat.sub_diag, firstn_all.
  cbn. now rewrite app_nil_r.
Qed.

Lemma run_crawl_appends w files file file' :
  run_crawl w files file file' ->
  file' = file \/
  exists completed m,
    Permutation (map Some completed) (run_tasks w (todo files file))
    /\ file' = file ++ map Parsed (firstn m (map fst completed)).
Proof.
  intros [H|H1 H2|completed H1 H2 HP|completed n H1 H2 HP]; auto; right.
  - exists completed, (length (map fst completed)).
    now rewrite firstn_all, flush_all_spec.
  - destruct (flush_upto_spec file (map fst completed) n) as (m & ->). eauto.
Qed.

Lemma completed_urls w (completed : list (fetch_record * list event)) items :
  Permutation (map Some completed) (run_tasks w items) ->
  Permutation (map f_url (map fst completed)) (map url items).
Proof.
  intros HP. apply (Permutation_map url_of_task) in HP.
  unfold run_tasks in HP. rewrite !map_map in HP. rewrite map_map.
  replace (map (fun x => f_url (fst x)) completed)
    with (map (fun x => url_of_task (Some x)) completed)
    by (apply map_ext; intros [r tr]; reflexivity).
  replace (map url items)
    with (map (fun x => url_of_task (fetch_one w default_retries x)) items);
    [exact HP|].
  apply map_ext. intros it.
  destruct (fetch_one_total w default_retries it) as (r & tr & -> & E).
  exact E.
Qed.

Lemma ok_urls_app file recs :
  ok_urls (file ++ map Parsed recs) = ok_urls file ++ map f_url (List.filter f_ok recs).
Proof.
  unfold ok_urls. now rewrite read_jsonl_app, read_jsonl_parsed, List.filter_app, map_app.
Qed.

Lemma NoDup_append {A} (l k : list A) :
  List.NoDup l -> List.NoDup k -> (forall x, In x k -> ~ In x l) -> List.NoDup (l ++ k).
Proof.
  induction l as [|a l IH]; cbn; intros Hl Hk Hd; [assumption|].
  apply List.NoDup_cons_iff in Hl as [Hn Hl]. constructor.
  - intros Hin. apply in_app_or in Hin as [Hin|Hin]; [auto|].
    apply (Hd a Hin). now left.
  - apply IH; auto. intros x Hx Hin. apply (Hd x Hx). now right.
Qed.

(** Records for URLs that have no [ok] record yet, each URL once, keep
    the [ok] records of the ledger free of duplicates. *)
Lemma append_fresh_records file recs :
  List.NoDup (ok_urls file) -> List.NoDup (map f_url recs) ->
  (forall r, In r recs -> has_ok_record file (f_url r) = false) ->
  List.NoDup (ok_urls (file ++ map Parsed recs)).
Proof.
  intros Hf Hr Hfresh. rewrite ok_urls_app. apply NoDup_append.
  - assumption.
  - now apply NoDup_map_filter.
  - intros u Hin Hold. apply in_map_iff in Hin as (r & <- & Hin).
    apply filter_In in Hin as [Hin _]. apply in_ok_urls in Hold.
    rewrite (Hfresh r Hin) in Hold. discriminate.
Qed.

Lemma run_crawl_keeps_one_ok w files file file' :
  List.NoDup (ok_urls file) -> run_crawl w files file file' ->
  List.NoDup (ok_urls file').
Proof.
  intros Hf Hrun.
  destruct (run_crawl_appends w files file file' Hrun)
    as [->|(completed & m & HP & ->)]; [assumption|].
  apply completed_urls in HP. apply append_fresh_records.
  - assumption.
  - apply NoDup_map_firstn. eapply Permutation_NoDup.
    + symmetry. exact HP.
    + apply todo_NoDup.
  - intros r Hin. apply firstn_In in Hin.
    assert (Hu : In (f_url r) (map url (todo files file))).
    { eapply Permutation_in; [exact HP|]. now apply in_map. }
    apply in_map_iff in Hu as (it & <- & Hit).
    exact (todo_no_ok_record files file it Hit).
Qed.

Lemma ledger_history_one_ok file :
  ledger_history file -> List.NoDup (ok_urls file).
Proof.
  induction 1 as [|w files file file' _ IH Hrun].
  - constructor.
  - eapply run_crawl_keeps_one_ok; eassumption.
Qed.

Lemma has_ok_record_app file more u :
  has_ok_record file u = true -> has_ok_record (file ++ more) u = true.
Proof.
  rewrite !has_ok_record_iff. intros (rec & Hin & H). exists rec.
  split; [|assumption]. rewrite read_jsonl_app. apply in_or_app. now left.
Qed.

(** The crawler is only called for URLs of the work list. *)
Lemma run_events_in_todo w files file u k :
  In (EvArun u k) (run_events w files file) ->
  exists it, In it (todo files file) /\ url it = u.
Proof.
  unfold run_events, run_tasks. rewrite in_flat_map.
  intros (o & Ho & Hin). apply in_map_iff in Ho as (it & <- & Hit).
  exists it. split; [assumption|].
  unfold fetch_one in Hin.
  destruct (fetch_loop _ _ _ _ _) as [[r tr]|] eqn:E; [|destruct Hin].
  cbn in Hin. symmetry. eapply fetch_loop_events in E; [|exact Hin]. exact E.
Qed.

End RunFacts.

(** ** The orchestrator: resuming and retrying *)

Section OrchestratorFacts.
Import CrawlExtract.

(** C1.  The work list is the distinct candidates minus the URLs that
    have a record with [ok = true]; a second run on the same candidates
    never calls the crawler for a URL that has such a record, before or
    after the first run; and a ledger that starts empty and is only
    extended by runs (complete or cut short) never holds two [ok]
    records for one URL. *)
Theorem resume_is_idempotent :
  forall (files : list (string * list (jsonl_line raw_record))) (file : ledger),
    todo files file
      = List.filter (fun it => negb (has_ok_record file (url it)))
          (distinct (candidates files))
    /\ (forall w1 w2 file' u k,
          run_crawl w1 files file file' ->
          In (EvArun u k) (run_events w2 files file') ->
          has_ok_record file' u = false /\ has_ok_record file u = false)
    /\ (ledger_history file ->
        forall w1 w2 file' file'',
          run_crawl w1 files file file' -> run_crawl w2 files file' file'' ->
          forall u, (ok_count file u <= 1 /\ ok_count file' u <= 1
                     /\ ok_count file'' u <= 1)%nat).
Proof.
  intros files file. split; [apply todo_spec|]. split.
  - intros w1 w2 file' u k Hrun Hev.
    apply run_events_in_todo in Hev as (it & Hit & <-).
    pose proof (todo_no_ok_record files file' it Hit) as Hno.
    split; [exact Hno|].
    destruct (has_ok_record file (url it)) eqn:E; [|reflexivity].
    destruct (run_crawl_appends w1 files file file' Hrun)
      as [->|(completed & m & _ & ->)].
    + congruence.
    + rewrite (has_ok_record_app _ _ _ E) in Hno. discriminate.
  - intros Hh w1 w2 file' file'' H1 H2 u.
    assert (Hh' : ledger_history file') by (econstructor; eassumption).
    assert (Hh'' : ledger_history file'') by (econstructor; eassumption).
    unfold ok_count.
    repeat split; apply NoDup_count_occ; now apply ledger_history_one_ok.
Qed.

Lemma task_result_spec w it : fetch_one w default_retries it = Some (task_result w it).
Proof.
  unfold task_result.
  destruct (fetch_one_total w default_retries it) as (r & tr & -> & _). reflexivity.
Qed.

Lemma run_tasks_results w items :
  map Some (map (task_result w) items) = run_tasks w items.
Proof.
  unfold run_tasks. rewrite map_map. apply map_ext. intros it.
  symmetry. apply task_result_spec.
Qed.

(** A run over a work list that is not empty can complete, whatever the
    crawler answers, and then holds the record of every task. *)
Lemma run_crawl_completes w files file :
  todo files file <> [] ->
  run_crawl w files file
    (file ++ map Parsed (map fst (map (task_result w) (todo files file)))).
Proof.
  intros Hne. rewrite <- flush_all_spec. apply run_completes.
  - intros E. apply Hne. unfold todo. rewrite E. reflexivity.
  - exact Hne.
  - rewrite run_tasks_results. apply Permutation_refl.
Qed.

(** Three failing attempts in a row, as [fetch_one] goes through them. *)
Lemma fetch_one_three_failures w it :
  (forall k, attempt_fails (arun w (url it) k)) ->
  fetch_one w default_retries it =
    Some (MkRecord (url it) (title it) (source_file it) (utcnow_iso w +:+ "Z")
            false (Some (attempt_error (arun w (url it) 2))) None 0,
          [EvArun (url it) 0; EvSleep (Nat.min (2 ^ 1) backoff_cap);
           EvArun (url it) 1; EvSleep (Nat.min (2 ^ 2) backoff_cap);
           EvArun (url it) 2]).
Proof.
  intros Hf. unfold fetch_one, default_retries.
  rewrite fetch_loop_fail_step; [|lia|apply Hf]. cbn [Nat.ltb Nat.leb Nat.add].
  rewrite fetch_loop_fail_step; [|lia|apply Hf]. cbn [Nat.ltb Nat.leb Nat.add].
  rewrite fetch_loop_fail_step; [|lia|apply Hf]. cbn [Nat.ltb Nat.leb Nat.add].
  reflexivity.
Qed.

(** C2.  With the default budget of two retries, a URL whose every
    attempt raises or returns blank markdown ends with one record,
    [ok = false] and the error of the third attempt, after the three
    calls [0, 1, 2] of the crawler with the sleeps [min (2 ^ 1) 5] and
    [min (2 ^ 2) 5] in between; a record with [ok = true] always comes from
    markdown that is not blank; and a run whose work list holds such a
    URL still completes with the record of every task, one of them for
    this URL. *)
Theorem fetch_one_gives_up_after_three :
  forall (w : env) (it : item),
    (forall rec tr,
        fetch_one w default_retries it = Some (rec, tr) -> f_ok rec = true ->
        exists k md, (k <= default_retries)%nat
          /\ arun w (url it) k = ArunReturns (Some md)
          /\ PyStr.strip md <> ""
          /\ f_markdown_chars rec = String.length (PyStr.strip md))
    /\ ((forall k, attempt_fails (arun w (url it) k)) ->
        (exists rec,
            fetch_one w default_retries it =
              Some (rec, [EvArun (url it) 0; EvSleep (Nat.min (2 ^ 1) backoff_cap);
                          EvArun (url it) 1; EvSleep (Nat.min (2 ^ 2) backoff_cap);
                          EvArun (url it) 2])
            /\ f_url rec = url it /\ f_ok rec = false
            /\ f_error rec = Some (attempt_error (arun w (url it) 2))
            /\ f_markdown_path rec = None)
        /\ (forall files file,
              In it (todo files file) ->
              exists completed,
                run_crawl w files file (file ++ map Parsed (map fst completed))
                /\ (forall it', In it' (todo files file) ->
                      exists r tr, fetch_one w default_retries it' = Some (r, tr)
                                   /\ In (r, tr) completed /\ f_url r = url it')
                /\ count_occ string_dec (map f_url (map fst completed)) (url it)
                   = 1%nat)).
Proof.
  intros w it. split.
  - intros rec tr H Hok. unfold fetch_one in H.
    eapply fetch_loop_ok in H; [|reflexivity|exact Hok].
    destruct H as (k & md & Hk & Ha & Hs & Hn).
    exists k, md. cbn in Ha. repeat split; try assumption. lia.
  - intros Hf. split.
    + eexists. split; [apply fetch_one_three_failures; exact Hf|].
      cbn. repeat split.
    + intros files file Hin.
      exists (map (task_result w) (todo files file)). split; [|split].
      * apply run_crawl_completes. intros E. rewrite E in Hin. destruct Hin.
      * intros it' Hin'.
        destruct (fetch_one_total w default_retries it') as (r & tr & E & Hu).
        exists r, tr. split; [exact E|]. split; [|exact Hu].
        apply in_map_iff. exists it'. split; [|exact Hin'].
        unfold task_result. rewrite E. reflexivity.
      * apply NoDup_count_occ'.
        -- eapply Permutation_NoDup; [|apply (todo_NoDup files file)].
           symmetry. apply (completed_urls w). rewrite run_tasks_results.
           apply Permutation_refl.
        -- eapply Permutation_in.
           ++ symmetry. apply (completed_urls w). rewrite run_tasks_results.
              apply Permutation_refl.
           ++ now apply in_map.
Qed.

End OrchestratorFacts.

(** ** A small run, end to end *)

Section OrchestratorExample.
Import CrawlExtract.

Example ex_todo_first : todo ex_files [] = [ex_item_a; ex_item_b].
Proof. vm_compute. reflexivity. Qed.

Example ex_todo_second : todo ex_files ex_ledger1 = [ex_item_a].
Proof. vm_compute. reflexivity. Qed.

Example ex_ok_urls : ok_urls ex_ledger2 = ["http://b/"].
Proof. vm_compute. reflexivity. Qed.

Lemma ex_run_first : run_crawl ex_world ex_files [] ex_ledger1.
Proof. apply run_crawl_completes. rewrite ex_todo_first. discriminate. Qed.

Lemma ex_run_second : run_crawl ex_world ex_files ex_ledger1 ex_ledger2.
Proof. apply run_crawl_completes. rewrite ex_todo_second. discriminate. Qed.

Lemma resume_is_idempotent_witness :
  todo ex_files ex_ledger1 = [ex_item_a]
  /\ (ok_count ex_ledger2 "http://b/" <= 1)%nat.
Proof.
  destruct (resume_is_idempotent ex_files ex_ledger1) as (Ha & _).
  destruct (resume_is_idempotent ex_files []) as (_ & _ & Hc).
  split.
  - rewrite Ha. vm_compute. reflexivity.
  - apply (Hc history_empty ex_world ex_world ex_ledger1 ex_ledger2
             ex_run_first ex_run_second "http://b/").
Defined.

Lemma fetch_one_gives_up_after_three_witness :
  exists rec,
    fetch_one ex_world default_retries ex_item_a =
      Some (rec, [EvArun "http://a/" 0; EvSleep 2; EvArun "http://a/" 1;
                  EvSleep 4; EvArun "http://a/" 2])
    /\ f_ok rec = false
    /\ f_error rec = Some "TimeoutError: 30s".
Proof.
  destruct (fetch_one_gives_up_after_three ex_world ex_item_a) as (_ & H).
  destruct H as ((rec & H1 & _ & H3 & H4 & _) & _).
  - intros k. simpl. exact I.
  - exists rec. split; [exact H1|]. split; [exact H3|exact H4].
Defined.

End OrchestratorExample.

(** ** [length_score] *)

Section LengthFacts.
Import Curate.
Local Open Scope Q_scope.




Lemma overflow_score_floor over : 4 # 10 <= overflow_score over.
Proof. apply Q.le_max_l. Qed.

Lemma overflow_score_below_one over : (0 < over)%Z -> overflow_score over < 1.
Proof.
  intros H. unfold overflow_score. apply Q.max_lub_lt; [reflexivity|].
  rewrite Zlt_Qlt in H.
  assert (0 < inject_Z over / 100000).
  { apply Qlt_shift_div_l; [reflexivity|]. now rewrite Qmult_0_l. }
  apply Qlt_shift_div_r; lra.
Qed.

(** From an overflow of 150000 characters on, the floor is reached. *)
Lemma overflow_score_flat over : (150000 <= over)%Z -> overflow_score over == 4 # 10.
Proof.
  intros H. unfold overflow_score. apply Q.max_l.
  rewrite Zle_Qle in H.
  assert (15 # 10 <= inject_Z over / 100000).
  { apply Qle_shift_div_l; [reflexivity|].
    eapply Qle_trans; [|exact H]. discriminate. }
  apply Qle_shift_div_r; lra.
Qed.


Lemma length_score_short n min_chars max_chars :
  (0 < n < min_chars)%Z ->
  length_score (Some n) min_chars max_chars
    = (2 # 10) * (inject_Z n / inject_Z min_chars).
Proof.
  intros [H1 H2]. unfold length_score.
  destruct (Z.leb_spec n 0); [lia|].
  destruct (Z.ltb_spec n min_chars); [|lia].
  now rewrite Z.max_r by lia.
Qed.


Lemma length_score_long n min_chars max_chars :
  (0 < n)%Z -> (min_chars <= n)%Z -> (max_chars < n)%Z ->
  length_score (Some n) min_chars max_chars = overflow_score (n - max_chars).
Proof.
  intros H0 H1 H2. unfold length_score.
  destruct (Z.leb_spec n 0); [lia|].
  destruct (Z.ltb_spec n min_chars); [lia|].
  destruct (Z.leb_spec n max_chars); [lia|reflexivity].
Qed.

Lemma short_ratio n m : (0 <= n < m)%Z -> 0 <= inject_Z n / inject_Z m < 1.
Proof.
  intros [H1 H2].
  assert (Hm : inject_Z 0 < inject_Z m) by (rewrite <- Zlt_Qlt; lia).
  change (inject_Z 0) with 0 in Hm.
  rewrite Zle_Qle in H1. rewrite Zlt_Qlt in H2. split.
  - apply Qle_shift_div_l; [exact Hm|]. now rewrite Qmult_0_l.
  - apply Qlt_shift_div_r; [exact Hm|]. now rewrite Qmult_1_l.
Qed.


End LengthFacts.

Section LengthClaims.
Import Curate.
Local Open Scope Q_scope.



(** The claim as stated fails for a band that is inverted and for a
    [max_chars] that is negative: 400 characters with [min_chars = 500]
    and [max_chars = 300] are above [max_chars] and score 0.16, and 0
    characters with [max_chars = -1] score 0. *)
Lemma length_score_above_max_below_floor :
  (300 < 400)%Z
  /\ length_score (Some 400%Z) 500 300 == 16 # 100
  /\ ~ 4 # 10 <= length_score (Some 400%Z) 500 300
  /\ ~ length_score (Some 400%Z) 500 300
        == Qmax (4 # 10) (1 / (1 + inject_Z (400 - 300) / 100000))
  /\ (-1 < 0)%Z
  /\ length_score (Some 0%Z) 500 (-1) == 0.
Proof.
  split; [lia|]. split; [reflexivity|].
  split; [intros H; vm_compute in H; now apply H|].
  split; [intros H; vm_compute in H; discriminate|].
  split; [lia|reflexivity].
Qed.

(** C10 (amended).  For every [n] above [max_chars] that is positive and
    not below [min_chars], so for every [n] above [max_chars] when the
    band is not inverted ([min_chars <= max_chars], with [max_chars] not
    negative), the score is [max 0.4 (1 / (1 + (n - max_chars) / 100000))];
    it is never below 0.4, and it is 0.4 once the overflow reaches
    150000.  An [n] above [max_chars] that is not positive scores 0, and
    one that is positive and below [min_chars] scores
    [0.2 * (n / min_chars)], which is below 0.2. *)
Theorem length_score_overflow :
  forall n min_chars max_chars : Z,
    (max_chars < n)%Z ->
    ((0 < n)%Z -> (min_chars <= n)%Z ->
     length_score (Some n) min_chars max_chars
       == Qmax (4 # 10) (1 / (1 + inject_Z (n - max_chars) / 100000))
     /\ 4 # 10 <= length_score (Some n) min_chars max_chars
     /\ ((150000 <= n - max_chars)%Z ->
         length_score (Some n) min_chars max_chars == 4 # 10))
    /\ ((0 <= max_chars)%Z -> (min_chars <= max_chars)%Z ->
        (0 < n)%Z /\ (min_chars <= n)%Z)
    /\ ((n <= 0)%Z -> length_score (Some n) min_chars max_chars == 0)
    /\ ((0 < n < min_chars)%Z ->
        length_score (Some n) min_chars max_chars
          == (2 # 10) * (inject_Z n / inject_Z min_chars)
        /\ length_score (Some n) min_chars max_chars < 2 # 10).
Proof.
  intros n min_chars max_chars Hn. split; [|split; [|split]].
  - intros Hpos Hmin. rewrite length_score_long by lia.
    split; [reflexivity|]. split; [apply overflow_score_floor|].
    apply overflow_score_flat.
  - lia.
  - intros H0. unfold length_score.
    destruct (Z.leb_spec n 0); [reflexivity|lia].
  - intros H. rewrite length_score_short by exact H.
    split; [reflexivity|].
    destruct (short_ratio n min_chars) as [Ha Hb]; [lia|]. lra.
Qed.

Lemma length_score_overflow_witness :
  length_score (Some 300000%Z) 500 150000 == 4 # 10
  /\ length_score (Some 200000%Z) 500 150000 == 2 # 3.
Proof.
  destruct (length_score_overflow 300000 500 150000) as (H3 & _); [lia|].
  destruct (length_score_overflow 200000 500 150000) as (H1 & _); [lia|].
  destruct H3 as (_ & _ & H3); [lia|lia|].
  destruct H1 as (H1 & _); [lia|lia|].
  split; [apply H3; lia|]. rewrite H1. reflexivity.
Defined.

End LengthClaims.

(** ** [keyword_score] *)

Section KeywordFacts.
Import Curate.
Local Open Scope R_scope.

Lemma log1p_0 : log1p (INR 0) = 0.
Proof. unfold log1p. cbn. rewrite Rplus_0_r. apply ln_1. Qed.

Lemma total_hits_cons w text kw l :
  total_hits w text (kw :: l) = (pattern_hits w text kw + total_hits w text l)%nat.
Proof. reflexivity. Qed.

(** Once a pattern has raised, the loop is over. *)
Lemma hit_fold_raise w text text_l patterns e :
  fold_left (hit_step w text text_l) patterns (Raise e) = Raise e.
Proof. induction patterns as [|kw rest IH]; [reflexivity|exact IH]. Qed.

(** The loop over the patterns ends with the exception of the first
    pattern on which the engine raises something other than [re.error],
    and with the hits of the patterns that are not empty otherwise. *)
Lemma count_hits_fold w text patterns : forall acc,
  fold_left (hit_step w text (PyStr.lower text)) patterns (Ok acc)
  = match first_raise w text patterns with
    | Some e => Raise e
    | None => Ok (acc + total_hits w text (nonempty patterns))%nat
    end.
Proof.
  induction patterns as [|kw rest IH]; intros acc; cbn [fold_left first_raise].
  - change (total_hits w text (nonempty [])) with 0%nat. f_equal. lia.
  - unfold hit_step at 2. cbn [rbind]. unfold nonempty. cbn [List.filter].
    destruct (PyStr.truthy kw); cbn [negb andb]; [|apply IH].
    rewrite total_hits_cons. unfold pattern_hits.
    destruct (is_regex kw).
    + destruct (re_findall w (PyStr.slice_1_m1 kw) text) as [hits| |e].
      * rewrite IH. destruct (first_raise w text rest); [reflexivity|].
        f_equal. unfold nonempty. lia.
      * rewrite IH. destruct (first_raise w text rest); [reflexivity|].
        f_equal.
      * apply hit_fold_raise.
    + rewrite IH. destruct (first_raise w text rest); [reflexivity|].
      f_equal. unfold nonempty. lia.
Qed.

Lemma count_hits_total w text patterns :
  count_hits w text (PyStr.lower text) patterns
  = match first_raise w text patterns with
    | Some e => Raise e
    | None => Ok (total_hits w text (nonempty patterns))
    end.
Proof. unfold count_hits. now rewrite count_hits_fold. Qed.

Lemma guarded_log1p (n : nat) (c : R) :
  (if (0 <? n)%nat then c * log1p (INR n) else 0) = c * log1p (INR n).
Proof.
  destruct n; cbn [Nat.ltb Nat.leb]; [|reflexivity].
  rewrite log1p_0. now rewrite Rmult_0_r.
Qed.

Lemma keyword_score_nonempty_text w text include exclude :
  text <> "" ->
  keyword_score w text include exclude
  = match first_raise w text include with
    | Some e => Raise e
    | None =>
        match first_raise w text exclude with
        | Some e => Raise e
        | None =>
            Ok (keyword_formula (total_hits w text (nonempty include))
                  (total_hits w text (nonempty exclude)))
        end
    end.
Proof.
  intros Ht. unfold keyword_score, keyword_formula.
  destruct text as [|c text]; [congruence|]. cbn [PyStr.truthy negb].
  change (safe_lower (Some (String c text))) with (PyStr.lower (String c text)).
  rewrite !count_hits_total.
  destruct (first_raise w (String c text) include); [reflexivity|]. cbn [rbind].
  destruct (first_raise w (String c text) exclude); [reflexivity|]. cbn [rbind].
  rewrite guarded_log1p.
  pose proof (guarded_log1p (total_hits w (String c text) (nonempty include)) 1) as H.
  rewrite !Rmult_1_l in H. rewrite H. reflexivity.
Qed.

Lemma keyword_score_ok_inv w text include exclude v :
  keyword_score w text include exclude = Ok v ->
  (text = "" /\ v = 0)
  \/ (text <> "" /\ first_raise w text include = None
      /\ first_raise w text exclude = None
      /\ v = keyword_formula (total_hits w text (nonempty include))
                (total_hits w text (nonempty exclude))).
Proof.
  destruct text as [|c text].
  - intros H. left. split; [reflexivity|]. now inversion H.
  - rewrite keyword_score_nonempty_text by discriminate. intros H. right.
    destruct (first_raise w _ include); [discriminate|].
    destruct (first_raise w _ exclude); [discriminate|].
    inversion H. repeat split. discriminate.
Qed.

Lemma keyword_score_raise_inv w text include exclude e :
  keyword_score w text include exclude = Raise e ->
  text <> ""
  /\ (first_raise w text include = Some e
      \/ (first_raise w text include = None /\ first_raise w text exclude = Some e)).
Proof.
  destruct text as [|c text]; [discriminate|].
  rewrite keyword_score_nonempty_text by discriminate. intros H.
  split; [discriminate|].
  destruct (first_raise w _ include); [left; now inversion H|].
  destruct (first_raise w _ exclude); [right; split; [reflexivity|now inversion H]|].
  discriminate.
Qed.

Lemma first_raise_app w text ps qs :
  first_raise w text (ps ++ qs)
  = match first_raise w text ps with
    | Some e => Some e
    | None => first_raise w text qs
    end.
Proof.
  induction ps as [|kw ps IH]; [reflexivity|]. cbn [app first_raise].
  destruct (PyStr.truthy kw && is_regex kw); [|exact IH].
  destruct (re_findall w _ text); auto.
Qed.

Lemma total_hits_nonempty_app w text ps qs :
  total_hits w text (nonempty (ps ++ qs))
  = (total_hits w text (nonempty ps) + total_hits w text (nonempty qs))%nat.
Proof.
  unfold total_hits, nonempty.
  rewrite List.filter_app, map_app, list_sum_app. reflexivity.
Qed.

(** No pattern of the list makes the engine raise. *)
Lemma first_raise_none_iff w text ps :
  first_raise w text ps = None
  <-> forall kw e, In kw ps -> PyStr.truthy kw && is_regex kw = true ->
        re_findall w (PyStr.slice_1_m1 kw) text <> ReRaises e.
Proof.
  induction ps as [|kw ps IH]; cbn [first_raise].
  - split; [intros _ kw e []|reflexivity].
  - destruct (PyStr.truthy kw && is_regex kw) eqn:Ek.
    + destruct (re_findall w (PyStr.slice_1_m1 kw) text) as [h| |e] eqn:Er.
      * rewrite IH. split.
        -- intros H k e [<-|Hin] Hk; [rewrite Er; discriminate|now apply H].
        -- intros H k e Hin. apply H. now right.
      * rewrite IH. split.
        -- intros H k e [<-|Hin] Hk; [rewrite Er; discriminate|now apply H].
        -- intros H k e Hin. apply H. now right.
      * split; [discriminate|]. intros H. exfalso.
        apply (H kw e); [now left|exact Ek|exact Er].
    + rewrite IH. split.
      * intros H k e [<-|Hin] Hk; [congruence|now apply H].
      * intros H k e Hin. apply H. now right.
Qed.

Lemma first_raise_perm_none w text ps qs :
  Permutation ps qs ->
  first_raise w text ps = None -> first_raise w text qs = None.
Proof.
  intros Hp. rewrite !first_raise_none_iff. intros H kw e Hin.
  apply H. eapply Permutation_in; [apply Permutation_sym; exact Hp|exact Hin].
Qed.







End KeywordFacts.

(** ** [recency_score] *)

Section RecencyFacts.
Import Curate.
Local Open Scope R_scope.

Lemma ln_half_neg : ln 0.5 < 0.
Proof. rewrite <- ln_1. apply ln_increasing; lra. Qed.

Lemma Rpower_half_pos x : 0 < Rpower 0.5 x.
Proof. unfold Rpower. apply exp_pos. Qed.


Lemma half_pow_below x : x < 1075 -> half_pow x = Rpower 0.5 x.
Proof. intros H. unfold half_pow. destruct (Rle_dec 1075 x); [lra|reflexivity]. Qed.

Lemma half_pow_underflow x : 1075 <= x -> half_pow x = 0.
Proof. intros H. unfold half_pow. destruct (Rle_dec 1075 x); [reflexivity|lra]. Qed.

Lemma half_pow_nonneg x : 0 <= half_pow x.
Proof.
  unfold half_pow. destruct (Rle_dec 1075 x); [lra|].
  left. apply Rpower_half_pos.
Qed.



(** The age in half-lives. *)
Lemma half_lives_lt d h k : (1 <= h)%Z -> (d < k * h)%Z -> IZR d / IZR h < IZR k.
Proof.
  intros Hh Hd. assert (0 < IZR h) by (apply IZR_lt; lia).
  apply Rmult_lt_reg_r with (IZR h); [assumption|].
  unfold Rdiv. rewrite Rmult_assoc, Rinv_l, Rmult_1_r by lra.
  rewrite <- mult_IZR. now apply IZR_lt.
Qed.

Lemma half_lives_ge d h k : (1 <= h)%Z -> (k * h <= d)%Z -> IZR k <= IZR d / IZR h.
Proof.
  intros Hh Hd. assert (0 < IZR h) by (apply IZR_lt; lia).
  apply Rmult_le_reg_r with (IZR h); [assumption|].
  unfold Rdiv. rewrite Rmult_assoc, Rinv_l, Rmult_1_r by lra.
  rewrite <- mult_IZR. now apply IZR_le.
Qed.












End RecencyFacts.

(** ** The stable descending sort *)

Section SortFacts.
Import Curate.
Local Open Scope R_scope.
Context {A : Type} (key : A -> R).

Lemma Rltb_true x y : Rltb x y = true <-> x < y.
Proof. unfold Rltb. destruct (Rlt_dec x y); split; auto; discriminate. Qed.

Lemma Rltb_false x y : Rltb x y = false <-> y <= x.
Proof.
  unfold Rltb. destruct (Rlt_dec x y); split; try discriminate; try lra; auto.
Qed.

Lemma Reqb_true x y : Reqb x y = true <-> x = y.
Proof. unfold Reqb. destruct (Req_dec_T x y); split; auto; discriminate. Qed.

Lemma insert_desc_perm x l : Permutation (insert_desc key x l) (x :: l).
Proof.
  induction l as [|y l IH]; cbn; [reflexivity|].
  destruct (Rltb (key x) (key y)); [|reflexivity].
  rewrite IH. apply perm_swap.
Qed.

Lemma sort_desc_perm l : Permutation (sort_desc key l) l.
Proof.
  induction l as [|x l IH]; cbn; [reflexivity|].
  rewrite insert_desc_perm. now apply perm_skip.
Qed.

Lemma insert_desc_descending x l :
  descending key l -> descending key (insert_desc key x l).
Proof.
  unfold descending. induction l as [|y l IH]; intros Hs; cbn.
  - constructor; constructor.
  - apply StronglySorted_inv in Hs as [Hs Hy].
    destruct (Rltb (key x) (key y)) eqn:E.
    + apply Rltb_true in E. constructor; [now apply IH|].
      eapply Permutation_Forall; [symmetry; apply insert_desc_perm|].
      constructor; [lra|exact Hy].
    + apply Rltb_false in E. constructor; [constructor; assumption|].
      constructor; [exact E|].
      eapply List.Forall_impl; [|exact Hy]. cbn. intros b Hb. lra.
Qed.

Lemma sort_desc_descending l : descending key (sort_desc key l).
Proof.
  induction l as [|x l IH]; cbn; [constructor|].
  now apply insert_desc_descending.
Qed.

(** Stability: an item goes in front of the items it is put before only
    when its key is strictly larger, so items of one key keep their order. *)
Lemma insert_desc_with_key v x l :
  with_key key v (insert_desc key x l) = with_key key v (x :: l).
Proof.
  unfold with_key. induction l as [|y l IH]; cbn; [reflexivity|].
  destruct (Rltb (key x) (key y)) eqn:E; [|reflexivity].
  apply Rltb_true in E. cbn. rewrite IH. cbn.
  destruct (Reqb (key x) v) eqn:Ex; [|reflexivity].
  destruct (Reqb (key y) v) eqn:Ey; [|reflexivity].
  apply Reqb_true in Ex, Ey. lra.
Qed.

Lemma sort_desc_stable v l : with_key key v (sort_desc key l) = with_key key v l.
Proof.
  induction l as [|x l IH]; cbn [sort_desc]; [reflexivity|].
  rewrite insert_desc_with_key. unfold with_key in *. cbn [List.filter].
  now rewrite IH.
Qed.

Lemma descending_app l1 l2 a b :
  descending key (l1 ++ l2) -> In a l1 -> In b l2 -> key b <= key a.
Proof.
  unfold descending. induction l1 as [|x l1 IH]; cbn; intros Hs Ha Hb; [tauto|].
  apply StronglySorted_inv in Hs as [Hs Hx]. destruct Ha as [->|Ha].
  - rewrite List.Forall_forall in Hx. apply Hx. apply in_or_app. now right.
  - now apply IH.
Qed.

(** The first [k] items of the sorted list are not smaller than the rest. *)
Lemma sort_desc_head_tail l k h t :
  In h (firstn k (sort_desc key l)) -> In t (skipn k (sort_desc key l)) ->
  key t <= key h.
Proof.
  intros Hh Ht. apply (descending_app (firstn k (sort_desc key l))
                         (skipn k (sort_desc key l))); try assumption.
  rewrite firstn_skipn. apply sort_desc_descending.
Qed.

End SortFacts.

(** ** The second stage and the final cut *)

Section RankFacts.
Import Curate.
Local Open Scope R_scope.

Lemma log1p_nonneg (n : nat) : 0 <= log1p (INR n).
Proof.
  unfold log1p. pose proof (pos_INR n) as H.
  destruct (Req_dec_T (INR n) 0) as [->|Hn].
  - rewrite Rplus_0_r, ln_1. lra.
  - apply Rlt_le. rewrite <- ln_1. apply ln_increasing; lra.
Qed.

Lemma log1p_pos (n : nat) : (0 < n)%nat -> 0 < log1p (INR n).
Proof.
  intros H. unfold log1p. rewrite <- ln_1. apply ln_increasing; [lra|].
  assert (0 < INR n) by (apply lt_0_INR; lia). lra.
Qed.

(** The bonus lies in [[0, 0.1]] and is 0 only for an item of 0 characters. *)
Lemma llm_bonus_bounds it : 0 <= llm_bonus it <= 0.1.
Proof.
  unfold llm_bonus. pose proof (log1p_nonneg (chars it)) as H. split.
  - apply Rmin_glb; lra.
  - apply Rmin_l.
Qed.

Lemma llm_bonus_nonzero it : llm_bonus it <> 0 <-> chars it <> 0%nat.
Proof.
  unfold llm_bonus. split.
  - intros H E. apply H. rewrite E, log1p_0.
    unfold Rdiv. rewrite Rmult_0_l. apply Rmin_right. lra.
  - intros H. pose proof (log1p_pos (chars it) ltac:(lia)) as Hp.
    apply Rgt_not_eq. apply Rmin_glb_lt; lra.
Qed.

Lemma slice_to_nonneg {A} (k : Z) (l : list A) :
  (0 <= k)%Z -> slice_to k l = firstn (Z.to_nat k) l.
Proof. intros H. unfold slice_to. destruct (Z.leb_spec 0 k); [reflexivity|lia]. Qed.

Lemma slice_from_nonneg {A} (k : Z) (l : list A) :
  (0 <= k)%Z -> slice_from k l = skipn (Z.to_nat k) l.
Proof. intros H. unfold slice_from. destruct (Z.leb_spec 0 k); [reflexivity|lia]. Qed.

Lemma top_k_positive cfg n :
  (0 < or_default (top_k_for_llm cfg) 60)%Z ->
  (0 <= top_k_of cfg n)%Z
  /\ Z.to_nat (top_k_of cfg n)
     = Nat.min (Z.to_nat (or_default (top_k_for_llm cfg) 60)) n.
Proof. intros H. unfold top_k_of. lia. Qed.

Lemma second_stage_enabled cfg scored :
  llm_enabled cfg = true ->
  (0 < or_default (top_k_for_llm cfg) 60)%Z ->
  let k := Nat.min (Z.to_nat (or_default (top_k_for_llm cfg) 60)) (length scored) in
  second_stage cfg scored
  = map rescore_head (firstn k (sort_desc score_raw scored))
    ++ map rescore_tail (skipn k (sort_desc score_raw scored)).
Proof.
  intros He H k. unfold second_stage. rewrite He.
  destruct (top_k_positive cfg (length scored) H) as [H0 H1].
  rewrite slice_to_nonneg, slice_from_nonneg by exact H0.
  rewrite H1. reflexivity.
Qed.

(** C3.  With the second stage on, [K] the cutoff in force (the setting
    [top_k_for_llm], 60 when it is missing or 0) and [final_n] the output
    size in force (40 when missing or 0), both positive: the items are
    sorted by raw score, descending and stable; the first [min K n] of
    them, none smaller than any of the rest, get the bonus
    [min 0.1 (log1p chars / 10000)], which lies in [[0, 0.1]] and is not 0
    unless the item has 0 characters, and the marker at the end of their
    reasons; the rest get bonus 0 and keep their reasons and raw score;
    head and tail are put together again, sorted by the score with the
    bonus, descending and stable with respect to that order, and cut to
    the first [final_n] items. *)
Theorem rescore_top_k_then_rank :
  forall (scored : list scored_item) (cfg : llm_config) (p : profile),
    llm_enabled cfg = true ->
    let K := or_default (top_k_for_llm cfg) 60 in
    let final_n := or_default (cfg_final_n p) 40 in
    (0 < K)%Z -> (0 < final_n)%Z ->
    let k := Nat.min (Z.to_nat K) (length scored) in
    let ranked := sort_desc score_raw scored in
    let head := firstn k ranked in
    let tail := skipn k ranked in
    let staged := second_stage cfg scored in
    let out := sort_desc score staged in
    (Permutation ranked scored
     /\ (forall v, with_key score_raw v ranked = with_key score_raw v scored)
     /\ length head = k
     /\ (forall h t, In h head -> In t tail -> score_raw t <= score_raw h))
    /\ staged = map rescore_head head ++ map rescore_tail tail
    /\ (forall h, In h head ->
          score_llm (rescore_head h) = Rmin 0.1 (log1p (INR (chars h)) / 10000)
          /\ 0 <= score_llm (rescore_head h) <= 0.1
          /\ (score_llm (rescore_head h) <> 0 <-> chars h <> 0%nat)
          /\ reasons (rescore_head h) = reasons h ++ [LlmBonus]
          /\ score (rescore_head h) = score_raw h + score_llm (rescore_head h))
    /\ (forall t, In t tail ->
          score_llm (rescore_tail t) = 0
          /\ reasons (rescore_tail t) = reasons t
          /\ score (rescore_tail t) = score_raw t)
    /\ (rank p cfg scored = firstn (Z.to_nat final_n) out
        /\ Permutation out staged
        /\ descending score out
        /\ (forall v, with_key score v out = with_key score v staged)
        /\ length (rank p cfg scored) = Nat.min (Z.to_nat final_n) (length scored))
    /\ (cfg_final_n p = None -> rank p cfg scored = firstn 40 out)
    /\ (top_k_for_llm cfg = None -> k = Nat.min 60 (length scored)).
Proof.
  intros scored cfg p He K final_n HK Hn k ranked head tail staged out.
  assert (Hstaged : staged = map rescore_head head ++ map rescore_tail tail)
    by (apply second_stage_enabled; assumption).
  assert (Hlen : length staged = length scored).
  { rewrite Hstaged, length_app, !length_map, <- length_app.
    unfold head, tail. rewrite firstn_skipn. unfold ranked.
    apply Permutation_length, sort_desc_perm. }
  assert (Hrank : rank p cfg scored = firstn (Z.to_nat final_n) out).
  { unfold rank, final_cut. fold final_n. now rewrite slice_to_nonneg by lia. }
  split; [|split; [exact Hstaged|split; [|split; [|split; [|split]]]]].
  - split; [apply sort_desc_perm|]. split; [intros v; apply sort_desc_stable|].
    split.
    + unfold head. rewrite length_firstn. unfold ranked.
      rewrite (Permutation_length (sort_desc_perm score_raw scored)).
      unfold k. lia.
    + intros h t Hh Ht. eapply sort_desc_head_tail; eassumption.
  - intros h _. cbn. split; [reflexivity|]. split; [apply llm_bonus_bounds|].
    split; [apply llm_bonus_nonzero|]. split; reflexivity.
  - intros t _. cbn. repeat split.
  - split; [exact Hrank|]. split; [apply sort_desc_perm|].
    split; [apply sort_desc_descending|].
    split; [intros v; apply sort_desc_stable|].
    rewrite Hrank, length_firstn. unfold out.
    rewrite (Permutation_length (sort_desc_perm score staged)), Hlen. reflexivity.
  - intros Hp0. rewrite Hrank. unfold final_n. rewrite Hp0. reflexivity.
  - intros Hk0. unfold k, K. rewrite Hk0. reflexivity.
Qed.

End RankFacts.

Section RankExample.
Import Curate.
Local Open Scope R_scope.

Lemma rescore_top_k_then_rank_witness :
  length (rank ex_profile (MkLlm true (Some 2%Z)) ex_scored) = 3%nat
  /\ length (firstn 2 (sort_desc score_raw ex_scored)) = 2%nat.
Proof.
  destruct (rescore_top_k_then_rank ex_scored (MkLlm true (Some 2%Z)) ex_profile)
    as ((_ & _ & Hk & _) & _ & _ & _ & (_ & _ & _ & _ & Hlen) & _);
    [reflexivity|reflexivity|reflexivity|].
  split; [exact Hlen|exact Hk].
Defined.

End RankExample.

(** ** The fused score *)

Section FusionFacts.
Import Curate.
Local Open Scope R_scope.

Lemma score_row_inv w p r it :
  score_row w p r = Ok (Some it) ->
  exists text sg,
    scored_text w r = Some text
    /\ signals_of w p r text = Ok sg
    /\ score_raw it = fuse (weights_of p) sg
    /\ chars it = String.length text.
Proof.
  unfold score_row, scored_text. intros H.
  destruct (row_ok r); [|discriminate]. cbn [negb] in H |- *.
  destruct (row_markdown_path r) as [mp|]; [|discriminate].
  destruct (PyStr.truthy mp); [|discriminate]. cbn [negb] in H |- *.
  destruct (PyStr.truthy (read_text w _)); [|discriminate]. cbn [negb] in H |- *.
  destruct (signals_of w p r _) as [sg|e] eqn:E; [|discriminate].
  cbn [rbind] in H. inversion H; subst.
  eexists; eexists. split; [reflexivity|]. split; [exact E|].
  split; reflexivity.
Qed.

Lemma signals_of_inv w p r text sg :
  signals_of w p r text = Ok sg ->
  keyword_score w (row_title r +:+ UrlLib.LF +:+ text)
    (include_keywords p) (exclude_keywords p) = Ok (ks sg)
  /\ ds sg = domain_score (norm_domain w (row_url r))
               (map PyStr.lower (prefer_domains p))
               (map PyStr.lower (avoid_domains p))
  /\ recency_score w (if use_fetched_at p then row_fetched_at r else None)
       (or_default (cfg_half_life_days p) 14)
       (or_default (cfg_hard_days_cutoff p) 365) = Ok (rs sg)
  /\ ls sg = length_score (Some (Z.of_nat (String.length text)))
               (or_default (cfg_min_chars p) 500)
               (or_default (cfg_max_chars p) 150000).
Proof.
  unfold signals_of. intros H.
  destruct (keyword_score w _ _ _) as [k|e]; [|discriminate].
  cbn [rbind] in H.
  destruct (recency_score w _ _ _) as [x|e]; [|discriminate].
  cbn [rbind] in H. inversion H; subst. cbn. repeat split.
Qed.

(** C4.  The raw score of a scored row is
    [w_keyword * ks + w_domain * ds + w_recency * rs + w_length * ls]:
    the four signals are what the four scorers return on the row, and
    the four weights are the profile's [weights.keyword], [.domain],
    [.recency] and [.length], or 0.50, 0.20, 0.20 and 0.10 where the
    profile has none; they are used as they are, whatever their sum.  Two
    rows, of any run, with the same signals and the same weights have the
    same raw score. *)
Theorem fused_score_is_weighted_sum :
  forall (w : world) (p : profile) (r : row) (it : scored_item),
    score_row w p r = Ok (Some it) ->
    exists text sg,
      scored_text w r = Some text
      /\ keyword_score w (row_title r +:+ UrlLib.LF +:+ text)
           (include_keywords p) (exclude_keywords p) = Ok (ks sg)
      /\ ds sg = domain_score (norm_domain w (row_url r))
                   (map PyStr.lower (prefer_domains p))
                   (map PyStr.lower (avoid_domains p))
      /\ recency_score w (if use_fetched_at p then row_fetched_at r else None)
           (or_default (cfg_half_life_days p) 14)
           (or_default (cfg_hard_days_cutoff p) 365) = Ok (rs sg)
      /\ ls sg = length_score (Some (Z.of_nat (String.length text)))
                   (or_default (cfg_min_chars p) 500)
                   (or_default (cfg_max_chars p) 150000)
      /\ score_raw it
         = default 0.50 (weight_keyword p) * ks sg
           + default 0.20 (weight_domain p) * Q2R (ds sg)
           + default 0.20 (weight_recency p) * rs sg
           + default 0.10 (weight_length p) * Q2R (ls sg)
      /\ score (rescore_tail it) = score_raw it
      /\ (forall w' p' r' it' text',
            score_row w' p' r' = Ok (Some it') ->
            scored_text w' r' = Some text' ->
            signals_of w' p' r' text' = Ok sg ->
            default 0.50 (weight_keyword p') = default 0.50 (weight_keyword p) ->
            default 0.20 (weight_domain p') = default 0.20 (weight_domain p) ->
            default 0.20 (weight_recency p') = default 0.20 (weight_recency p) ->
            default 0.10 (weight_length p') = default 0.10 (weight_length p) ->
            score_raw it' = score_raw it).
Proof.
  intros w p r it H.
  destruct (score_row_inv w p r it H) as (text & sg & Ht & Hs & Hf & _).
  destruct (signals_of_inv w p r text sg Hs) as (Hk & Hd & Hr & Hl).
  exists text, sg. repeat split; try assumption.
  intros w' p' r' it' text' H' Ht' Hs' Hwk Hwd Hwr Hwl.
  destruct (score_row_inv w' p' r' it' H') as (t2 & sg2 & Ht2 & Hs2 & Hf2 & _).
  rewrite Ht' in Ht2. inversion Ht2; subst t2.
  rewrite Hs' in Hs2. inversion Hs2; subst sg2.
  rewrite Hf, Hf2. unfold fuse, weights_of. cbn [w_keyword w_domain w_recency w_length].
  rewrite Hwk, Hwd, Hwr, Hwl. reflexivity.
Qed.

End FusionFacts.

Section FusionExample.
Import Curate.
Local Open Scope R_scope.

Lemma ex_row_is_scored :
  exists it, score_row page_world heavy_profile ex_row = Ok (Some it).
Proof. eexists. reflexivity. Qed.

(** The row of the example, with one preferred domain, two hits of one
    literal pattern, no timestamp in use and 18 characters of text, under
    the weights 1, 0.5, 0.25 and 0.25. *)
Lemma fused_score_is_weighted_sum_witness :
  exists it,
    score_row page_world heavy_profile ex_row = Ok (Some it)
    /\ score_raw it
       = 1 * Rmax 0 (log1p (INR 2) - 1.5 * log1p (INR 0))
         + 0.5 * Q2R 1 + 0.25 * 0.2
         + 0.25 * Q2R ((2 # 10) * (inject_Z 18 / inject_Z 500)).
Proof.
  destruct ex_row_is_scored as (it & H).
  destruct (fused_score_is_weighted_sum page_world heavy_profile ex_row it H)
    as (text & sg & Ht & Hk & Hd & Hr & Hl & Hf & _).
  exists it. split; [exact H|].
  assert (Et : text = "Rust and more rust")
    by (vm_compute in Ht; now inversion Ht).
  subst text.
  rewrite keyword_score_nonempty_text in Hk by discriminate.
  change (first_raise page_world _ (include_keywords heavy_profile))
    with (@None exn) in Hk.
  change (first_raise page_world _ (exclude_keywords heavy_profile))
    with (@None exn) in Hk.
  inversion Hk as [Hk']. inversion Hr as [Hr'].
  rewrite Hf, <- Hk', <- Hr', Hd, Hl. reflexivity.
Defined.

End FusionExample.

(** ** More on the string methods *)

Section StringFacts.

Lemma rstrip_by_idem p s : PyStr.rstrip_by p (PyStr.rstrip_by p s) = PyStr.rstrip_by p s.
Proof.
  induction s as [|c s IH]; [reflexivity|]. cbn [PyStr.rstrip_by].
  destruct (PyStr.rstrip_by p s) as [|d r] eqn:E.
  - destruct (p c) eqn:Ep; [reflexivity|]. cbn [PyStr.rstrip_by]. now rewrite Ep.
  - cbn [PyStr.rstrip_by] in IH |- *. now rewrite IH.
Qed.

(** What [lstrip] leaves does not start with a character it strips, and
    [rstrip] keeps the first character of such a string. *)
Lemma lstrip_rstrip_fixed p s :
  PyStr.lstrip_by p (PyStr.rstrip_by p (PyStr.lstrip_by p s))
  = PyStr.rstrip_by p (PyStr.lstrip_by p s).
Proof.
  induction s as [|c s IH]; [reflexivity|]. cbn [PyStr.lstrip_by].
  destruct (p c) eqn:Ep; [exact IH|]. cbn [PyStr.rstrip_by].
  destruct (PyStr.rstrip_by p s); rewrite ?Ep; cbn [PyStr.lstrip_by]; now rewrite Ep.
Qed.

(** [s.strip().strip() == s.strip()] *)
Lemma strip_idem s : PyStr.strip (PyStr.strip s) = PyStr.strip s.
Proof.
  unfold PyStr.strip. rewrite lstrip_rstrip_fixed. apply rstrip_by_idem.
Qed.

Lemma append_cons c a b : String c a +:+ b = String c (a +:+ b).
Proof. reflexivity. Qed.

Lemma append_nil b : "" +:+ b = b.
Proof. reflexivity. Qed.

Lemma append_nonempty a b : b <> "" -> a +:+ b <> "".
Proof. destruct a; rewrite ?append_cons, ?append_nil; [auto|discriminate]. Qed.

Lemma rstrip_by_append p a b :
  b <> "" -> PyStr.rstrip_by p b = b -> PyStr.rstrip_by p (a +:+ b) = a +:+ b.
Proof.
  intros Hb Hr. induction a as [|c a IH]; [exact Hr|].
  rewrite append_cons. cbn [PyStr.rstrip_by]. rewrite IH.
  pose proof (append_nonempty a b Hb) as Hne.
  destruct (a +:+ b); [congruence|reflexivity].
Qed.

Lemma find_at_ge sub s : forall i e, PyStr.find_at sub s i = Some e -> (i <= e)%nat.
Proof.
  induction s as [|c s IH]; intros i e; cbn [PyStr.find_at].
  - destruct (String.prefix sub ""); intros E; inversion E. lia.
  - destruct (String.prefix sub (String c s)); intros E.
    + inversion E. lia.
    + apply IH in E. lia.
Qed.

(** Cutting at the position [find] returns gives the text after the
    first occurrence. *)
Lemma find_at_after sub s : forall i,
  match PyStr.find_at sub s i with
  | Some e => Some (PyStr.drop (e - i + String.length sub) s)
  | None => None
  end = after_first sub s.
Proof.
  induction s as [|c s IH]; intros i; cbn [PyStr.find_at after_first].
  - destruct (String.prefix sub ""); [|reflexivity]. now rewrite Nat.sub_diag.
  - destruct (String.prefix sub (String c s)); [now rewrite Nat.sub_diag|].
    rewrite <- (IH (S i)).
    destruct (PyStr.find_at sub s (S i)) as [e|] eqn:E; [|reflexivity].
    apply find_at_ge in E.
    replace (e - i + String.length sub)%nat with (S (e - S i + String.length sub))
      by lia.
    reflexivity.
Qed.

Lemma find_after sub s :
  match PyStr.find sub s with
  | Some e => Some (PyStr.drop (e + String.length sub) s)
  | None => None
  end = after_first sub s.
Proof.
  unfold PyStr.find, PyStr.find_from. cbn [Nat.leb].
  replace (PyStr.drop 0 s) with s by (destruct s; reflexivity).
  rewrite <- (find_at_after sub s 0).
  destruct (PyStr.find_at sub s 0); [|reflexivity]. now rewrite Nat.sub_0_r.
Qed.

Lemma contains_false_iff sub s :
  PyStr.contains sub s = false <-> after_first sub s = None.
Proof.
  unfold PyStr.contains. rewrite <- find_after.
  destruct (PyStr.find sub s); split; try discriminate; reflexivity.
Qed.

Lemma prefix_arrow_append a t c rest :
  c <> "-"%char -> c <> ">"%char ->
  String.prefix "-->" (String a t) = false ->
  String.prefix "-->" (String a (t +:+ String c rest)) = false.
Proof.
  intros Hc1 Hc2.
  destruct t as [|b [|d t]]; rewrite ?append_cons, ?append_nil;
    cbn [String.prefix]; intros H;
    repeat match goal with
           | H : context [ascii_dec ?x ?y] |- _ => destruct (ascii_dec x y)
           | |- context [ascii_dec ?x ?y] => destruct (ascii_dec x y)
           end;
    try reflexivity; try congruence.
  destruct t; discriminate.
Qed.

(** A text without [-->], followed by a character that is neither [-]
    nor [>], is passed over in the search for [-->]. *)
Lemma after_first_arrow_skip t c rest :
  after_first "-->" t = None -> c <> "-"%char -> c <> ">"%char ->
  after_first "-->" (t +:+ String c rest) = after_first "-->" (String c rest).
Proof.
  intros Ht Hc1 Hc2. induction t as [|a t IH]; [reflexivity|].
  rewrite append_cons.
  change (after_first "-->" (String a t))
    with (if String.prefix "-->" (String a t)
          then Some (PyStr.drop 3 (String a t)) else after_first "-->" t) in Ht.
  change (after_first "-->" (String a (t +:+ String c rest)))
    with (if String.prefix "-->" (String a (t +:+ String c rest))
          then Some (PyStr.drop 3 (String a (t +:+ String c rest)))
          else after_first "-->" (t +:+ String c rest)).
  destruct (String.prefix "-->" (String a t)) eqn:Ep; [discriminate|].
  rewrite (prefix_arrow_append a t c rest Hc1 Hc2 Ep). now apply IH.
Qed.

End StringFacts.

(** ** More on [fetch_one] *)

Section FetchMoreFacts.
Import CrawlExtract.

Lemma attempts_of_app tr1 tr2 :
  attempts_of (tr1 ++ tr2) = attempts_of tr1 ++ attempts_of tr2.
Proof. apply flat_map_app. Qed.

Lemma sleeps_of_app tr1 tr2 : sleeps_of (tr1 ++ tr2) = sleeps_of tr1 ++ sleeps_of tr2.
Proof. apply flat_map_app. Qed.

(** What one turn of the [try] leaves behind. *)
Lemma try_fetch_shape w out attempt :
  match try_fetch w out attempt with
  | inl (_, tr) => attempts_of tr = [attempt] /\ sleeps_of tr = []
  | inr (r, tr) =>
      attempts_of tr = [attempt] /\ sleeps_of tr = []
      /\ exists md,
           md <> "" /\ PyStr.strip md = md
           /\ r = set_ok out (page_path w (f_url out)) (String.length md)
           /\ tr = [EvArun (f_url out) attempt;
                    EvWrite (page_path w (f_url out))
                      (page_text (f_title out) (f_url out) (f_fetched_at out) md)]
  end.
Proof.
  unfold try_fetch.
  destruct (arun w (f_url out) attempt) as [e|markdown]; [split; reflexivity|].
  destruct (PyStr.truthy (PyStr.strip (default "" markdown))) eqn:Et; cbn [negb].
  - destruct (write_page w _ _); [split; reflexivity|].
    split; [reflexivity|]. split; [reflexivity|].
    exists (PyStr.strip (default "" markdown)).
    split; [|split; [apply strip_idem|split; reflexivity]].
    intros E. rewrite E in Et. discriminate.
  - split; reflexivity.
Qed.

(** The loop calls the crawler for the attempts [a, a+1, ...] without a
    gap, sleeps [backoff] in front of every call but the first, and gives
    up only when the budget is used. *)
Lemma fetch_loop_trace w retries out : forall fuel a r tr,
  f_ok out = false ->
  fetch_loop w retries out fuel a = Some (r, tr) ->
  exists k, (1 <= k)%nat /\ (a + k <= retries + 1)%nat
    /\ attempts_of tr = seq a k
    /\ sleeps_of tr = map backoff (seq (a + 1) (k - 1))
    /\ (f_ok r = false -> (a + k = retries + 1)%nat).
Proof.
  induction fuel as [|fuel IH]; intros a r tr Hout H; [discriminate|].
  cbn [fetch_loop] in H.
  destruct (Nat.leb_spec a retries) as [Hle|]; [|discriminate].
  pose proof (try_fetch_shape w out a) as Hs.
  destruct (try_fetch w out a) as [[e tr0]|[r0 tr0]].
  - destruct Hs as [Ha Hsl].
    destruct (Nat.ltb_spec retries (a + 1)) as [Hlt|Hge].
    + inversion H; subst. exists 1%nat. rewrite Ha, Hsl. cbn.
      repeat split; try lia.
    + destruct (fetch_loop w retries out fuel (a + 1)) as [[r' tr']|] eqn:E;
        [|discriminate].
      inversion H; subst.
      destruct (IH _ _ _ Hout E) as (k & Hk1 & Hk2 & Hat & Hsl' & Hfin).
      exists (S k). rewrite attempts_of_app, sleeps_of_app, Ha, Hsl.
      cbn [app attempts_of sleeps_of flat_map]. fold (attempts_of tr') (sleeps_of tr').
      rewrite Hat, Hsl'. replace (a + 1)%nat with (S a) in * by lia.
      repeat split; try lia.
      * replace (S k - 1)%nat with (S (k - 1)) by lia.
        cbn [seq map]. replace (S a + 1)%nat with (S (S a)) by lia. reflexivity.
      * intros Hf. specialize (Hfin Hf). lia.
  - destruct Hs as (Ha & Hsl & md & _ & _ & -> & _). inversion H; subst.
    exists 1%nat. rewrite Ha, Hsl. cbn. repeat split; try lia; try discriminate.
Qed.

(** The record the loop returns: the fields of a success and of a
    failure never mix. *)
Lemma fetch_loop_record w retries out : forall fuel a r tr,
  f_ok out = false -> f_error out = None -> f_markdown_path out = None ->
  f_markdown_chars out = 0%nat ->
  fetch_loop w retries out fuel a = Some (r, tr) ->
  f_url r = f_url out /\ f_title r = f_title out
  /\ f_source_file r = f_source_file out /\ f_fetched_at r = f_fetched_at out
  /\ (f_ok r = true ->
       f_error r = None
       /\ f_markdown_path r = Some (page_path w (f_url out))
       /\ (0 < f_markdown_chars r)%nat
       /\ exists md, PyStr.strip md = md /\ String.length md = f_markdown_chars r
            /\ In (EvWrite (page_path w (f_url out))
                     (page_text (f_title out) (f_url out) (f_fetched_at out) md)) tr)
  /\ (f_ok r = false ->
       (exists err, f_error r = Some err) /\ f_markdown_path r = None
       /\ f_markdown_chars r = 0%nat).
Proof.
  induction fuel as [|fuel IH]; intros a r tr Hok Herr Hpath Hch H; [discriminate|].
  cbn [fetch_loop] in H.
  destruct (a <=? retries)%nat; [|discriminate].
  pose proof (try_fetch_shape w out a) as Hs.
  destruct (try_fetch w out a) as [[e tr0]|[r0 tr0]].
  - destruct (retries <? a + 1)%nat.
    + inversion H; subst. cbn. rewrite Hok, Hpath, Hch.
      repeat split; try discriminate; eauto.
    + destruct (fetch_loop w retries out fuel (a + 1)) as [[r' tr']|] eqn:E;
        [|discriminate].
      inversion H; subst.
      destruct (IH _ _ _ Hok Herr Hpath Hch E) as (H1 & H2 & H3 & H4 & H5 & H6).
      repeat split; try assumption; try (apply H6; assumption);
        try (apply H5; assumption).
      destruct (H5 H0) as (_ & _ & _ & md & Hst & Hl & Hin).
      exists md. split; [exact Hst|]. split; [exact Hl|].
      apply in_or_app. right. now right.
  - destruct Hs as (_ & _ & md & Hmd & Hst & -> & ->). inversion H; subst.
    cbn. rewrite Herr. repeat split; try discriminate.
    + destruct md; [congruence|cbn; lia].
    + exists md. split; [exact Hst|]. split; [reflexivity|]. right. now left.
Qed.

(** X1.  Whatever the crawler and the disk do, [fetch_one] returns one
    record for the URL of its item; with [ok = true] it has no error, the
    path of the page (fixed by the URL alone), a positive length, and the
    page was written with its header; with [ok = false] it has an error
    text, no path and length 0. *)
Theorem fetch_one_record_is_consistent :
  forall (w : env) (retries : nat) (it : item),
  exists r tr,
    fetch_one w retries it = Some (r, tr)
    /\ f_url r = url it /\ f_title r = title it
    /\ f_source_file r = source_file it
    /\ f_fetched_at r = utcnow_iso w +:+ "Z"
    /\ (f_ok r = true ->
         f_error r = None
         /\ f_markdown_path r = Some (page_path w (url it))
         /\ (0 < f_markdown_chars r)%nat
         /\ exists md, PyStr.strip md = md /\ String.length md = f_markdown_chars r
              /\ In (EvWrite (page_path w (url it))
                       (page_text (title it) (url it) (utcnow_iso w +:+ "Z") md)) tr)
    /\ (f_ok r = false ->
         (exists err, f_error r = Some err) /\ f_markdown_path r = None
         /\ f_markdown_chars r = 0%nat).
Proof.
  intros w retries it.
  destruct (fetch_one_total w retries it) as (r & tr & H & _).
  exists r, tr. split; [exact H|]. unfold fetch_one in H.
  apply fetch_loop_record in H; try reflexivity. exact H.
Qed.

(** X2.  [fetch_one] calls the crawler for the attempts 0, 1, ..., k-1
    with [1 <= k <= retries + 1], sleeps [min (2^i) 5] seconds in front of
    attempt [i >= 1] and at no other time, and returns [ok = false] only
    after all [retries + 1] attempts. *)
Theorem fetch_one_attempts_are_bounded :
  forall (w : env) (retries : nat) (it : item) (r : fetch_record) (tr : list event),
    fetch_one w retries it = Some (r, tr) ->
    exists k, (1 <= k <= retries + 1)%nat
      /\ attempts_of tr = seq 0 k
      /\ sleeps_of tr = map backoff (seq 1 (k - 1))
      /\ Forall (fun s => (2 <= s <= 5)%nat) (sleeps_of tr)
      /\ (f_ok r = false -> k = (retries + 1)%nat).
Proof.
  intros w retries it r tr H. unfold fetch_one in H.
  apply fetch_loop_trace in H; [|reflexivity].
  destruct H as (k & Hk1 & Hk2 & Ha & Hs & Hf).
  exists k. cbn in Hk2, Hs, Hf. repeat split; try assumption; try lia.
  rewrite Hs. apply List.Forall_forall. intros s Hin.
  apply in_map_iff in Hin as (i & <- & Hi). apply in_seq in Hi.
  unfold backoff, backoff_cap.
  assert (2 ^ 1 <= 2 ^ i)%nat by (apply Nat.pow_le_mono_r; lia).
  cbn in H. lia.
Qed.

Lemma fetch_one_attempts_are_bounded_witness :
  exists k, (1 <= k <= 3)%nat
    /\ attempts_of [EvArun "http://a/" 0; EvSleep 2; EvArun "http://a/" 1;
                    EvSleep 4; EvArun "http://a/" 2] = seq 0 k.
Proof.
  assert (H : fetch_one ex_world default_retries ex_item_a =
    Some (MkRecord "http://a/" "A" "rss_data.jsonl" "2024-05-01T10:00:00Z" false
            (Some "TimeoutError: 30s") None 0,
          [EvArun "http://a/" 0; EvSleep 2; EvArun "http://a/" 1;
           EvSleep 4; EvArun "http://a/" 2])) by (vm_compute; reflexivity).
  destruct (fetch_one_attempts_are_bounded ex_world default_retries ex_item_a _ _ H)
    as (k & Hk & Ha & _).
  exists k. split; [exact Hk|exact Ha].
Defined.

End FetchMoreFacts.

(** ** More on [load_items] and [run_crawl] *)

Section RunMoreFacts.
Import CrawlExtract.

Lemma distinct_complete items c :
  In c items -> exists it, In it (distinct items) /\ url it = url c.
Proof.
  induction items as [|x items IH]; cbn [distinct]; [intros []|].
  intros [->|Hin]; [exists c; split; [now left|reflexivity]|].
  destruct (IH Hin) as (it & Hit & E).
  destruct (String.eqb_spec (url it) (url x)) as [Ex|Ex].
  - exists x. split; [now left|congruence].
  - exists it. split; [|exact E]. right. apply filter_In. split; [exact Hit|].
    apply negb_true_iff. now apply String.eqb_neq.
Qed.

Lemma distinct_first pre c post :
  (forall x, In x pre -> url x <> url c) -> In c (distinct (pre ++ c :: post)).
Proof.
  induction pre as [|x pre IH]; intros H; cbn [app distinct]; [now left|].
  right. apply filter_In. split.
  - apply IH. intros y Hy. apply H. now right.
  - apply negb_true_iff, String.eqb_neq. intros E. apply (H x); [now left|congruence].
Qed.

(** X3.  [load_items] returns every URL of its files once: its items are
    candidates with a URL that is not empty, no two share a URL, every
    candidate's URL is there, and of the candidates with one URL it is the
    first that stays. *)
Theorem load_items_keeps_first_of_each_url :
  forall files : list (string * list (jsonl_line raw_record)),
    List.NoDup (map url (load_items files))
    /\ (forall it, In it (load_items files) ->
          In it (candidates files) /\ url it <> "")
    /\ (forall c, In c (candidates files) ->
          exists it, In it (load_items files) /\ url it = url c)
    /\ (forall pre c post, candidates files = pre ++ c :: post ->
          (forall x, In x pre -> url x <> url c) -> In c (load_items files)).
Proof.
  intros files. rewrite load_items_distinct. repeat split.
  - apply distinct_NoDup.
  - now apply distinct_incl.
  - apply distinct_incl, candidates_url_truthy in H. intros E. rewrite E in H.
    discriminate.
  - apply distinct_complete.
  - intros pre c post -> H. now apply distinct_first.
Qed.

(** The state of the writing loop after the results [l]: all full
    batches are in the file, the rest waits in [results_batch]. *)
Lemma flush_fold_exact (file : ledger) (l : list fetch_record) :
  fold_left flush_step l (file, [])
  = (file ++ map Parsed (firstn (batch_size * (length l / batch_size)) l),
     skipn (batch_size * (length l / batch_size)) l).
Proof.
  induction l as [|r l IH] using rev_ind.
  - cbn. now rewrite app_nil_r.
  - rewrite fold_left_app, IH. cbn [fold_left flush_step].
    unfold batch_size in *. rewrite length_app, length_skipn, length_app.
    cbn [length].
    pose proof (Nat.div_mod_eq (length l) 20) as Hd.
    pose proof (Nat.mod_upper_bound (length l) 20 ltac:(lia)) as Hm.
    pose proof (Nat.div_mod_eq (length l + 1) 20) as Hd'.
    pose proof (Nat.mod_upper_bound (length l + 1) 20 ltac:(lia)) as Hm'.
    destruct (Nat.leb_spec 20 (length l - 20 * (length l / 20) + 1)) as [Hfull|Hpart].
    + assert (E : (20 * ((length l + 1) / 20) = length l + 1)%nat) by nia.
      rewrite E. unfold write_jsonl. rewrite <- app_assoc, <- map_app.
      rewrite app_assoc, firstn_skipn.
      replace (length l + 1)%nat with (length (l ++ [r]))
        by (rewrite length_app; reflexivity).
      now rewrite firstn_all, skipn_all.
    + assert (E : ((length l + 1) / 20 = length l / 20)%nat) by nia.
      rewrite E.
      assert (Hle : (20 * (length l / 20) <= length l)%nat) by lia.
      rewrite firstn_app, skipn_app.
      replace (20 * (length l / 20) - length l)%nat with 0%nat by lia.
      cbn [firstn skipn]. now rewrite app_nil_r.
Qed.

(** X4.  The results reach the file in batches of 20, in the order they
    come in: a run that dies after [n] results has written the first
    [20 * (n / 20)] of them, so fewer than 20 are lost, and a run that
    completes has written them all. *)
Theorem results_are_written_in_batches :
  forall (file : ledger) (completed : list fetch_record) (n : nat),
    let m := Nat.min n (length completed) in
    flush_upto file completed n
      = file ++ map Parsed (firstn (batch_size * (m / batch_size)) completed)
    /\ (m - batch_size * (m / batch_size) < batch_size)%nat
    /\ flush_all file completed = file ++ map Parsed completed.
Proof.
  intros file completed n m. split; [|split].
  - unfold flush_upto. rewrite flush_fold_exact. cbn [fst].
    rewrite length_firstn. fold m. f_equal. f_equal.
    rewrite firstn_firstn. f_equal.
    pose proof (Nat.div_mod_eq m batch_size). unfold batch_size in *. lia.
  - pose proof (Nat.div_mod_eq m batch_size) as Hd.
    pose proof (Nat.mod_upper_bound m batch_size ltac:(unfold batch_size; lia)).
    lia.
  - apply flush_all_spec.
Qed.



Lemma completed_results w (completed : list (fetch_record * list event)) items :
  Permutation (map Some completed) (run_tasks w items) ->
  Permutation (map fst completed) (map (fun it => fst (task_result w it)) items).
Proof.
  intros HP. rewrite <- run_tasks_results in HP.
  apply (Permutation_map
           (fun o => match o with
                     | Some x => fst x
                     | None => MkRecord "" "" "" "" false None None 0
                     end)) in HP.
  rewrite !map_map in HP. exact HP.
Qed.








End RunMoreFacts.

(** ** The range of the four signals *)

Section SignalRangeFacts.
Import Curate.
Local Open Scope R_scope.

Lemma log1p_monotone (a b : nat) : (a <= b)%nat -> log1p (INR a) <= log1p (INR b).
Proof.
  intros H. unfold log1p. apply le_INR in H.
  assert (0 <= INR a) by apply pos_INR.
  destruct (Req_dec (INR a) (INR b)) as [->|Hne]; [lra|].
  left. apply ln_increasing; lra.
Qed.

Lemma keyword_formula_bounds (P N : nat) :
  0 <= keyword_formula P N <= log1p (INR P).
Proof.
  unfold keyword_formula. pose proof (log1p_nonneg N). split.
  - apply Rmax_l.
  - apply Rmax_lub; [apply log1p_nonneg|lra].
Qed.

Lemma keyword_formula_monotone (P P' N N' : nat) :
  (P <= P')%nat -> (N' <= N)%nat -> keyword_formula P N <= keyword_formula P' N'.
Proof.
  intros HP HN. unfold keyword_formula. apply Rle_max_compat_l.
  pose proof (log1p_monotone P P' HP). pose proof (log1p_monotone N' N HN). lra.
Qed.

(** X7.  Where [keyword_score] returns, the score is never negative and
    never above [log1p] of the include hits; more include patterns never
    lower it and more exclude patterns never raise it, and with more
    patterns on none of which the engine raises the scorer still returns.
    Where it raises, the text is not empty and the exception is that of
    the first pattern on which the engine raises something other than
    [re.error], include before exclude. *)
Theorem keyword_score_range_and_monotone :
  forall (w : world) (text : string) (include exclude more : list string),
    match keyword_score w text include exclude with
    | Ok v =>
        0 <= v
        /\ (text = "" -> v = 0)
        /\ (text <> "" ->
            exists P, count_hits w text (safe_lower (Some text)) include = Ok P
                      /\ v <= log1p (INR P))
        /\ (forall v', keyword_score w text (include ++ more) exclude = Ok v' ->
              v <= v')
        /\ (forall v', keyword_score w text include (exclude ++ more) = Ok v' ->
              v' <= v)
        /\ (first_raise w text more = None ->
            (exists v', keyword_score w text (include ++ more) exclude = Ok v')
            /\ (exists v', keyword_score w text include (exclude ++ more) = Ok v'))
    | Raise e =>
        text <> ""
        /\ (first_raise w text include = Some e
            \/ (first_raise w text include = None
                /\ first_raise w text exclude = Some e))
    end.
Proof.
  intros w text include exclude more.
  destruct (keyword_score w text include exclude) as [v|e] eqn:E;
    [|now apply keyword_score_raise_inv].
  destruct (keyword_score_ok_inv _ _ _ _ _ E) as [[-> ->]|(Ht & Hi & He & ->)].
  - split; [lra|]. split; [reflexivity|]. split; [congruence|].
    split; [intros v' H; inversion H; lra|].
    split; [intros v' H; inversion H; lra|].
    intros _. split; eexists; reflexivity.
  - split; [apply keyword_formula_bounds|]. split; [congruence|]. split.
    { intros _. exists (total_hits w text (nonempty include)). split.
      - change (safe_lower (Some text)) with (PyStr.lower text).
        now rewrite count_hits_total, Hi.
      - apply keyword_formula_bounds. }
    rewrite !keyword_score_nonempty_text by exact Ht.
    rewrite !first_raise_app, Hi, He, !total_hits_nonempty_app.
    split; [|split].
    + intros v' H. destruct (first_raise w text more); [discriminate|].
      inversion H. apply keyword_formula_monotone; lia.
    + intros v' H. destruct (first_raise w text more); [discriminate|].
      inversion H. apply keyword_formula_monotone; lia.
    + intros ->. split; eexists; reflexivity.
Qed.

Lemma list_sum_perm (l l' : list nat) : Permutation l l' -> list_sum l = list_sum l'.
Proof. induction 1; unfold list_sum in *; cbn [fold_right] in *; lia. Qed.

Lemma total_hits_perm w text ps qs :
  Permutation ps qs ->
  total_hits w text (nonempty ps) = total_hits w text (nonempty qs).
Proof.
  intros H. unfold total_hits, nonempty. apply list_sum_perm.
  apply Permutation_map. clear w text.
  induction H; cbn [List.filter].
  - constructor.
  - destruct (PyStr.truthy x); [constructor|]; assumption.
  - destruct (PyStr.truthy x), (PyStr.truthy y); try constructor;
      apply Permutation_refl.
  - eapply Permutation_trans; eassumption.
Qed.

Lemma keyword_score_perm_ok w text inc inc' exc exc' v :
  Permutation inc inc' -> Permutation exc exc' ->
  keyword_score w text inc exc = Ok v -> keyword_score w text inc' exc' = Ok v.
Proof.
  intros Hi He E.
  destruct (keyword_score_ok_inv _ _ _ _ _ E) as [[-> ->]|(Ht & Fi & Fe & ->)];
    [reflexivity|].
  rewrite keyword_score_nonempty_text by exact Ht.
  rewrite (first_raise_perm_none w text inc inc' Hi Fi).
  rewrite (first_raise_perm_none w text exc exc' He Fe).
  now rewrite (total_hits_perm w text inc inc' Hi), (total_hits_perm w text exc exc' He).
Qed.

(** X8.  The keyword score does not depend on the order of the patterns:
    the scorer returns a score for one order exactly when it returns
    that score for the other, and so raises for one exactly when it
    raises for the other (which exception it raises can depend on the
    order, it is that of the first pattern that raises). *)
Theorem keyword_score_ignores_order :
  forall (w : world) (text : string) (include include' exclude exclude' : list string),
    Permutation include include' -> Permutation exclude exclude' ->
    (forall v, keyword_score w text include exclude = Ok v
               <-> keyword_score w text include' exclude' = Ok v)
    /\ ((exists e, keyword_score w text include exclude = Raise e)
        <-> (exists e, keyword_score w text include' exclude' = Raise e)).
Proof.
  intros w text inc inc' exc exc' Hi He.
  assert (H : forall v, keyword_score w text inc exc = Ok v
                        <-> keyword_score w text inc' exc' = Ok v).
  { intros v. split; apply keyword_score_perm_ok;
      assumption || now apply Permutation_sym. }
  split; [exact H|].
  destruct (keyword_score w text inc exc) as [v|e] eqn:E1,
           (keyword_score w text inc' exc') as [v'|e'] eqn:E2.
  - split; intros [e Hx]; discriminate.
  - destruct (H v) as [H1 _]. specialize (H1 eq_refl). discriminate.
  - destruct (H v') as [_ H2]. specialize (H2 eq_refl). discriminate.
  - split; intros _; eexists; reflexivity.
Qed.

Lemma keyword_score_ignores_order_witness :
  exists v,
    keyword_score kw_world "Rust and more rust" ["rust"; "more"] ["and"] = Ok v
    /\ keyword_score kw_world "Rust and more rust" ["more"; "rust"] ["and"] = Ok v.
Proof.
  destruct (keyword_score_ignores_order kw_world "Rust and more rust"
              ["rust"; "more"] ["more"; "rust"] ["and"] ["and"]) as [H _].
  - apply perm_swap.
  - apply Permutation_refl.
  - eexists. split; [|apply H]; reflexivity.
Defined.

Lemma half_pow_le_1 x : 0 <= x -> half_pow x <= 1.
Proof.
  intros H. unfold half_pow. destruct (Rle_dec 1075 x); [lra|].
  unfold Rpower. rewrite <- exp_0.
  pose proof ln_half_neg.
  destruct (Req_dec (x * ln 0.5) 0) as [->|Hne]; [lra|].
  left. apply exp_increasing. nra.
Qed.

Lemma recency_of_days_range days half_life cutoff :
  (0 <= days)%Z -> 0 <= recency_of_days days half_life cutoff <= 1.
Proof.
  intros H. unfold recency_of_days.
  set (x := IZR days / IZR (Z.max 1 half_life)).
  assert (Hx : 0 <= x).
  { unfold x. apply Rle_mult_inv_pos; [now apply IZR_le|]. apply IZR_lt. lia. }
  pose proof (half_pow_nonneg x). pose proof (half_pow_le_1 x Hx).
  destruct (cutoff <? days)%Z; lra.
Qed.

Lemma recency_of_days_positive days half_life cutoff :
  (days < 1075 * Z.max 1 half_life)%Z -> 0 < recency_of_days days half_life cutoff.
Proof.
  intros H. unfold recency_of_days.
  rewrite half_pow_below
    by (apply (half_lives_lt days (Z.max 1 half_life) 1075); [lia|exact H]).
  pose proof (Rpower_half_pos (IZR days / IZR (Z.max 1 half_life))).
  destruct (cutoff <? days)%Z; lra.
Qed.

Lemma recency_of_days_zero days half_life cutoff :
  (1075 * Z.max 1 half_life <= days)%Z -> recency_of_days days half_life cutoff = 0.
Proof.
  intros H. unfold recency_of_days.
  rewrite half_pow_underflow
    by (apply (half_lives_ge days (Z.max 1 half_life) 1075); [lia|exact H]).
  destruct (cutoff <? days)%Z; lra.
Qed.

Lemma recency_score_ok_range w fetched_at_iso half_life cutoff s :
  recency_score w fetched_at_iso half_life cutoff = Ok s -> 0 <= s <= 1.
Proof.
  unfold recency_score.
  destruct fetched_at_iso as [t|]; [|intros E; inversion E; lra].
  destruct (negb (PyStr.truthy t)); [intros E; inversion E; lra|].
  destruct (fromisoformat w _) as [[us|us]|]; cbn [days_since rbind];
    intros E; inversion E; try lra.
  apply recency_of_days_range. lia.
Qed.

(** X9.  [recency_score] returns a score in [0, 1], whatever the
    timestamp, the half-life and the cutoff are, or raises [TypeError];
    it raises exactly for a timestamp that parses without an offset.
    For a timestamp with an offset the score is positive up to an age of
    1000 half-lives and is the float 0.0 from 1075 half-lives on (the
    half-life counting as 1 day when it is smaller); without a timestamp
    that parses the score is 0.2. *)
Theorem recency_score_range :
  forall (w : world) (fetched_at_iso : option string)
         (half_life_days hard_days_cutoff : Z),
    match recency_score w fetched_at_iso half_life_days hard_days_cutoff with
    | Ok s =>
        0 <= s <= 1
        /\ (forall t us, fetched_at_iso = Some t ->
              fromisoformat w (PyStr.replace "Z" "+00:00" t) = Some (Naive us) ->
              t = "")
        /\ (forall t us, fetched_at_iso = Some t -> t <> "" ->
              fromisoformat w (PyStr.replace "Z" "+00:00" t) = Some (Aware us) ->
              ((age_days w us <= 1000 * Z.max 1 half_life_days)%Z -> 0 < s)
              /\ ((1075 * Z.max 1 half_life_days <= age_days w us)%Z -> s = 0))
        /\ (forall t, fetched_at_iso = Some t ->
              t = "" \/ fromisoformat w (PyStr.replace "Z" "+00:00" t) = None ->
              s = 0.2)
        /\ (fetched_at_iso = None -> s = 0.2)
    | Raise e =>
        exn_type e = "TypeError"
        /\ exists t us, fetched_at_iso = Some t /\ t <> ""
             /\ fromisoformat w (PyStr.replace "Z" "+00:00" t) = Some (Naive us)
    end.
Proof.
  intros w f hl c. unfold recency_score.
  destruct f as [t|].
  2:{ split; [lra|]. split; [discriminate|]. split; [discriminate|].
      split; [discriminate|reflexivity]. }
  destruct t as [|ch t]; cbn [PyStr.truthy negb].
  { split; [lra|]. split; [intros t' us E _; now inversion E|].
    split; [intros t' us E Ht; inversion E; congruence|].
    split; [reflexivity|discriminate]. }
  destruct (fromisoformat w _) as [[us|us]|] eqn:Ep; cbn [days_since rbind].
  - split; [apply recency_of_days_range; lia|].
    split; [intros t' us' E; inversion E; subst; rewrite Ep; discriminate|].
    split; [|split; [|discriminate]].
    + intros t' us' E _ Hp. inversion E; subst t'. rewrite Ep in Hp.
      inversion Hp; subst us'. fold (age_days w us). split.
      * intros H. apply recency_of_days_positive. lia.
      * apply recency_of_days_zero.
    + intros t' E [->|Hn]; inversion E; subst. rewrite Ep in Hn. discriminate.
  - split; [reflexivity|]. exists (String ch t), us.
    repeat split; [discriminate|exact Ep].
  - split; [lra|].
    split; [intros t' us' E; inversion E; subst; rewrite Ep; discriminate|].
    split; [|split; [reflexivity|discriminate]].
    intros t' us' E _ Hp. inversion E; subst t'. rewrite Ep in Hp. discriminate.
Qed.

Local Open Scope Q_scope.

Lemma length_score_of_int_range n min_chars max_chars :
  0 <= length_score (Some n) min_chars max_chars <= 1.
Proof.
  unfold length_score.
  destruct (Z.leb_spec n 0); [split; discriminate|].
  destruct (Z.ltb_spec n min_chars).
  - rewrite Z.max_r by lia.
    pose proof (short_ratio n min_chars ltac:(lia)). lra.
  - destruct (Z.leb_spec n max_chars); [split; discriminate|].
    fold (overflow_score (n - max_chars)).
    pose proof (overflow_score_floor (n - max_chars)).
    pose proof (overflow_score_below_one (n - max_chars) ltac:(lia)). lra.
Qed.

Lemma domain_score_unit domain prefer avoid :
  0 <= domain_score domain prefer avoid <= 1.
Proof.
  unfold domain_score.
  destruct (negb (PyStr.truthy domain)); [split; discriminate|].
  destruct (existsb _ _); [split; discriminate|].
  destruct (existsb _ _); split; discriminate.
Qed.

(** X10.  [length_score] stays within [0, 1] for every length and every
    band, also for a band that is empty or negative, and is 0 exactly
    for a length that is missing or not positive. *)
Theorem length_score_range :
  forall (n_chars : option Z) (min_chars max_chars : Z),
    0 <= length_score n_chars min_chars max_chars <= 1
    /\ (length_score n_chars min_chars max_chars == 0
        <-> match n_chars with Some n => (n <= 0)%Z | None => True end).
Proof.
  intros [n|] min_chars max_chars.
  - split; [apply length_score_of_int_range|].
    unfold length_score. destruct (Z.leb_spec n 0); [split; [auto|reflexivity]|].
    split; [|lia]. intros E. exfalso.
    destruct (Z.ltb_spec n min_chars).
    + rewrite Z.max_r in E by lia.
      assert (Hn : 0 < inject_Z n)
        by (change 0 with (inject_Z 0); rewrite <- Zlt_Qlt; lia).
      assert (Hm : 0 < inject_Z min_chars)
        by (change 0 with (inject_Z 0); rewrite <- Zlt_Qlt; lia).
      assert (0 < inject_Z n / inject_Z min_chars).
      { apply Qlt_shift_div_l; [exact Hm|]. now rewrite Qmult_0_l. }
      lra.
    + destruct (Z.leb_spec n max_chars); [discriminate E|].
      pose proof (Q.le_max_l (4 # 10) (1 / (1 + inject_Z (n - max_chars) / 100000))).
      lra.
  - split; [split; discriminate|]. split; [auto|reflexivity].
Qed.

Local Close Scope Q_scope.

Lemma lower_char_idem c : PyStr.lower_char (PyStr.lower_char c) = PyStr.lower_char c.
Proof. destruct c as [[] [] [] [] [] [] [] []]; reflexivity. Qed.

Lemma lower_idem s : PyStr.lower (PyStr.lower s) = PyStr.lower s.
Proof. induction s as [|c s IH]; cbn; [|rewrite lower_char_idem, IH]; reflexivity. Qed.

Lemma map_lower_idem l : map PyStr.lower (map PyStr.lower l) = map PyStr.lower l.
Proof. rewrite map_map. apply map_ext. intros s. apply lower_idem. Qed.

Lemma existsb_eqb_In d l : existsb (String.eqb d) l = true <-> In d l.
Proof.
  rewrite existsb_exists. split.
  - intros (x & Hin & E). apply String.eqb_eq in E. now subst.
  - intros H. exists d. split; [exact H|apply String.eqb_refl].
Qed.

(** X11.  [domain_score] has four values; the preferred list wins over
    the avoided one, the empty domain is looked up in neither, and the
    lowering of the lists by [main] in front of the lowering by
    [domain_score] changes nothing. *)
Theorem domain_score_cases :
  forall (domain : string) (prefer avoid : list string),
    let lowered l := map PyStr.lower l in
    (domain_score domain prefer avoid = 1%Q
       <-> domain <> "" /\ In domain (lowered prefer))
    /\ (domain_score domain prefer avoid = 0%Q
       <-> domain <> "" /\ ~ In domain (lowered prefer) /\ In domain (lowered avoid))
    /\ (domain_score domain prefer avoid = (6 # 10)%Q
       <-> domain <> "" /\ ~ In domain (lowered prefer) /\ ~ In domain (lowered avoid))
    /\ (domain_score domain prefer avoid = (3 # 10)%Q <-> domain = "")
    /\ domain_score domain (lowered prefer) (lowered avoid)
       = domain_score domain prefer avoid.
Proof.
  intros domain prefer avoid lowered. unfold domain_score, lowered.
  rewrite !map_lower_idem.
  destruct domain as [|c d]; cbn [PyStr.truthy negb].
  { repeat split; try discriminate; try tauto; intros [H _]; congruence. }
  destruct (existsb (String.eqb (String c d)) (map PyStr.lower prefer)) eqn:Ep;
    [|destruct (existsb (String.eqb (String c d)) (map PyStr.lower avoid)) eqn:Ea].
  all: try apply existsb_eqb_In in Ep.
  all: try apply existsb_eqb_In in Ea.
  all: try (assert (~ In (String c d) (map PyStr.lower prefer))
              by (rewrite <- existsb_eqb_In, Ep; discriminate)).
  all: try (assert (~ In (String c d) (map PyStr.lower avoid))
              by (rewrite <- existsb_eqb_In, Ea; discriminate)).
  all: repeat split; try discriminate; try tauto; try (intros; discriminate).
Qed.

End SignalRangeFacts.

(** ** Literal patterns: case and [contains_any] *)

Section LiteralPatternFacts.
Import Curate CurateFilter.
Local Open Scope R_scope.

Lemma lower_truthy s : PyStr.truthy (PyStr.lower s) = PyStr.truthy s.
Proof. destruct s; reflexivity. Qed.

Lemma lower_eq_empty s : PyStr.lower s = "" -> s = "".
Proof. destruct s; [reflexivity|discriminate]. Qed.

Lemma prefix_slash_lower s :
  String.prefix "/" (PyStr.lower s) = String.prefix "/" s.
Proof.
  destruct s as [|c [|d s]]; [reflexivity| |];
    destruct c as [[] [] [] [] [] [] [] []]; reflexivity.
Qed.

Lemma rev_onto_lower s : forall acc,
  PyStr.rev_onto (PyStr.lower s) (PyStr.lower acc) = PyStr.lower (PyStr.rev_onto s acc).
Proof.
  induction s as [|c s IH]; intros acc; cbn [PyStr.lower PyStr.rev_onto]; [reflexivity|].
  apply (IH (String c acc)).
Qed.

Lemma is_regex_lower kw : is_regex (PyStr.lower kw) = is_regex kw.
Proof.
  unfold is_regex, PyStr.startswith, PyStr.endswith.
  rewrite prefix_slash_lower. f_equal.
  change (PyStr.rev_onto "/" "") with "/".
  change (PyStr.rev_onto (PyStr.lower kw) "")
    with (PyStr.rev_onto (PyStr.lower kw) (PyStr.lower "")).
  rewrite rev_onto_lower. apply prefix_slash_lower.
Qed.

(** On literal patterns the regular-expression engine is not asked, and
    text and patterns enter through their lowerings. *)
Lemma count_hits_literal w text text_l patterns :
  Forall literal patterns ->
  count_hits w text text_l patterns
  = Ok (literal_hits text_l (map PyStr.lower patterns)).
Proof.
  unfold count_hits, literal_hits. generalize 0%nat.
  induction patterns as [|kw rest IH]; intros acc H; cbn [fold_left map]; [reflexivity|].
  apply Forall_cons_iff in H as [Hkw Hrest].
  rewrite lower_truthy. unfold hit_step at 2. cbn [rbind]. rewrite Hkw.
  destruct (PyStr.truthy kw); cbn [negb]; apply (IH _ Hrest).
Qed.

Lemma literal_lower_eq kw kw' :
  literal kw -> PyStr.lower kw = PyStr.lower kw' -> literal kw'.
Proof.
  unfold literal. intros H E.
  now rewrite <- (is_regex_lower kw'), <- E, is_regex_lower.
Qed.

Lemma literal_map_lower_eq ps : forall ps',
  Forall literal ps -> map PyStr.lower ps = map PyStr.lower ps' -> Forall literal ps'.
Proof.
  induction ps as [|kw ps IH]; intros [|kw' ps'] H E; try discriminate; constructor.
  - apply Forall_cons_iff in H as [H _]. inversion E.
    eapply literal_lower_eq; eassumption.
  - apply Forall_cons_iff in H as [_ H]. inversion E. now apply IH.
Qed.

(** X12.  With literal patterns only, the keyword score ignores case and
    the regular-expression engine: texts with the same lowering and
    pattern lists with the same lowerings score the same. *)
Theorem keyword_score_ignores_case :
  forall (w w' : world) (text text' : string)
         (include include' exclude exclude' : list string),
    Forall literal include -> Forall literal exclude ->
    PyStr.lower text = PyStr.lower text' ->
    map PyStr.lower include = map PyStr.lower include' ->
    map PyStr.lower exclude = map PyStr.lower exclude' ->
    keyword_score w text include exclude = keyword_score w' text' include' exclude'.
Proof.
  intros w w' text text' inc inc' exc exc' Hi He Et Ei Ee.
  pose proof (literal_map_lower_eq inc inc' Hi Ei) as Hi'.
  pose proof (literal_map_lower_eq exc exc' He Ee) as He'.
  unfold keyword_score.
  rewrite <- (lower_truthy text), Et, lower_truthy.
  destruct (negb (PyStr.truthy text')); [reflexivity|].
  change (safe_lower (Some text)) with (PyStr.lower text).
  change (safe_lower (Some text')) with (PyStr.lower text').
  rewrite !count_hits_literal by assumption. cbn [rbind].
  now rewrite Et, Ei, Ee.
Qed.

Lemma keyword_score_ignores_case_witness :
  keyword_score kw_world "Rust and more rust" ["RUST"] ["More"]
  = keyword_score clock_world "RUST AND MORE RUST" ["rust"] ["mORE"].
Proof.
  apply keyword_score_ignores_case; try reflexivity; repeat constructor.
Defined.

(** [sub in s] holds exactly when [s.count(sub)] is not 0. *)
Lemma contains_iff_count sub s :
  PyStr.contains sub s = true <-> (0 < PyStr.count sub s)%nat.
Proof.
  unfold PyStr.contains, PyStr.find, PyStr.find_from, PyStr.count.
  cbn [Nat.leb PyStr.drop].
  generalize 0%nat at 1. induction s as [|c s IH]; intros i;
    cbn [PyStr.find_at PyStr.count_aux].
  - destruct (String.prefix sub ""); split; try discriminate; try lia; auto.
  - destruct (String.prefix sub (String c s)); [split; [lia|reflexivity]|].
    apply IH.
Qed.

Lemma literal_hits_pos text_l lowered :
  (0 < literal_hits text_l lowered)%nat <->
  exists k, In k lowered /\ k <> "" /\ PyStr.contains k text_l = true.
Proof.
  unfold literal_hits.
  assert (G : forall acc,
    (0 < fold_left (fun acc k => if PyStr.truthy k
                                 then (acc + PyStr.count k text_l)%nat else acc)
           lowered acc)%nat
    <-> (0 < acc)%nat
        \/ exists k, In k lowered /\ k <> "" /\ PyStr.contains k text_l = true).
  { induction lowered as [|k rest IH]; intros acc; cbn [fold_left].
    - split; [auto|]. intros [H|(k & [] & _)]. exact H.
    - rewrite IH. split.
      + intros [H|(k' & Hin & H)].
        * destruct k as [|c k]; cbn [PyStr.truthy] in H; [auto|].
          destruct (Nat.eq_dec acc 0%nat) as [->|]; [|left; lia].
          right. exists (String c k). split; [now left|]. split; [discriminate|].
          apply contains_iff_count. lia.
        * right. exists k'. split; [now right|exact H].
      + intros [H|(k' & [->|Hin] & Hne & Hc)].
        * left. destruct (PyStr.truthy k); lia.
        * left. destruct k' as [|c k']; [congruence|]. cbn [PyStr.truthy].
          apply contains_iff_count in Hc. lia.
        * right. eauto. }
  rewrite G. split; [intros [H|H]; [lia|exact H]|auto].
Qed.

Lemma contains_any_literal rs text text_l patterns :
  Forall literal patterns ->
  exists b,
    contains_any_loop rs text text_l patterns = Ok b
    /\ (b = true
        <-> exists kw, In kw patterns /\ PyStr.strip kw <> ""
              /\ PyStr.contains (PyStr.lower kw) text_l = true).
Proof.
  induction patterns as [|kw rest IH]; intros H; cbn [contains_any_loop].
  - exists false. split; [reflexivity|]. split; [discriminate|]. intros (kw & [] & _).
  - apply Forall_cons_iff in H as [Hkw Hrest]. rewrite Hkw.
    destruct (IH Hrest) as (b & Eb & Hb).
    destruct (PyStr.strip kw) as [|c k] eqn:Es; cbn [PyStr.truthy].
    + exists b. split; [exact Eb|]. rewrite Hb. split.
      * intros (kw' & Hin & H). exists kw'. split; [now right|exact H].
      * intros (kw' & [<-|Hin] & Hne & Hc); [congruence|eauto].
    + destruct (PyStr.contains (PyStr.lower kw) text_l) eqn:Ec.
      * exists true. split; [reflexivity|]. split; [|reflexivity].
        intros _. exists kw. rewrite Es.
        split; [now left|]. split; [discriminate|exact Ec].
      * exists b. split; [exact Eb|]. rewrite Hb. split.
        -- intros (kw' & Hin & H). exists kw'. split; [now right|exact H].
        -- intros (kw' & [<-|Hin] & Hne & Hc); [congruence|eauto].
Qed.

Lemma contains_in_empty k : PyStr.contains k "" = true -> k = "".
Proof. destruct k; [reflexivity|discriminate]. Qed.

Lemma keyword_score_literal_pos w text include :
  Forall literal include ->
  exists v,
    keyword_score w text include [] = Ok v
    /\ (0 < v
        <-> text <> ""
            /\ (0 < literal_hits (PyStr.lower text) (map PyStr.lower include))%nat).
Proof.
  intros Hlit. unfold keyword_score.
  destruct text as [|c text]; cbn [PyStr.truthy negb].
  { exists 0. split; [reflexivity|]. split; [lra|]. intros [H _]. congruence. }
  change (safe_lower (Some (String c text))) with (PyStr.lower (String c text)).
  rewrite (count_hits_literal w _ _ include Hlit). cbn [rbind].
  change (count_hits w (String c text) (PyStr.lower (String c text)) [])
    with (@Ok nat 0%nat).
  cbn [rbind].
  remember (literal_hits (PyStr.lower (String c text)) (map PyStr.lower include))
    as P eqn:EP.
  clear EP. eexists. split; [reflexivity|].
  destruct P as [|n]; cbn [Nat.ltb Nat.leb]; rewrite Rminus_0_r.
  - rewrite Rmax_left by lra. split; [lra|]. intros [_ H]. lia.
  - split; [intros _; split; [discriminate|lia]|].
    intros _. eapply Rlt_le_trans; [|apply Rmax_r]. apply log1p_pos. lia.
Qed.

(** X13.  On literal patterns both functions return, and [contains_any]
    is true only if the keyword score of the patterns as include list is
    positive; the converse holds when no pattern is blank (white space
    only), the patterns [contains_any] passes over and [keyword_score]
    counts. *)
Theorem contains_any_agrees_with_keyword_score :
  forall (w : world) (re_search : string -> string -> re_outcome bool)
         (text : string) (patterns : list string),
    Forall literal patterns ->
    exists (b : bool) (v : R),
      contains_any re_search text patterns = Ok b
      /\ keyword_score w text patterns [] = Ok v
      /\ (b = true -> 0 < v)
      /\ ((forall kw, In kw patterns -> ~ blank kw) -> 0 < v -> b = true).
Proof.
  intros w rs text patterns Hlit. unfold contains_any.
  destruct (contains_any_literal rs text (safe_lower (Some text)) patterns Hlit)
    as (b & Eb & Hb).
  destruct (keyword_score_literal_pos w text patterns Hlit) as (v & Ev & Hv).
  exists b, v. split; [exact Eb|]. split; [exact Ev|].
  rewrite Hb, Hv, literal_hits_pos.
  change (safe_lower (Some text)) with (PyStr.lower text).
  split.
  - intros (kw & Hin & Hs & Hc).
    assert (Hkw : kw <> "") by (intros ->; now apply Hs).
    split.
    + intros ->. apply contains_in_empty, lower_eq_empty in Hc. congruence.
    + exists (PyStr.lower kw). split; [now apply in_map|]. split; [|exact Hc].
      intros E. now apply lower_eq_empty in E.
  - intros Hnb [_ (k & Hin & Hk & Hc)].
    apply in_map_iff in Hin as (kw & <- & Hin).
    exists kw. split; [exact Hin|]. split; [|exact Hc].
    intros Hs. apply (Hnb kw Hin). split; [|exact Hs].
    intros ->. now apply Hk.
Qed.

Lemma contains_any_agrees_with_keyword_score_witness :
  contains_any (fun _ _ => ReError) "Rust and more rust" ["RUST"] = Ok true
  /\ exists v, keyword_score kw_world "Rust and more rust" ["RUST"] [] = Ok v
               /\ 0 < v.
Proof.
  destruct (contains_any_agrees_with_keyword_score kw_world (fun _ _ => ReError)
              "Rust and more rust" ["RUST"]) as (b & v & Hb & Hv & H1 & _).
  - repeat constructor.
  - split; [reflexivity|]. exists v. split; [exact Hv|].
    apply H1. change (Ok true = Ok b) in Hb. now inversion Hb.
Defined.

End LiteralPatternFacts.

(** ** Which rows are scored, and when [main] fails *)

Section ScoringLoopFacts.
Import Curate.
Local Open Scope R_scope.

Lemma recency_raises_iff_naive w p r :
  match recency_score w (if use_fetched_at p then row_fetched_at r else None)
          (or_default (cfg_half_life_days p) 14)
          (or_default (cfg_hard_days_cutoff p) 365) with
  | Ok _ => stamp_is_naive w p r = false
  | Raise e => stamp_is_naive w p r = true /\ exn_type e = "TypeError"
  end.
Proof.
  unfold stamp_is_naive, recency_score.
  destruct (use_fetched_at p); cbn [andb]; [|reflexivity].
  destruct (row_fetched_at r) as [t|]; [|reflexivity].
  destruct (PyStr.truthy t); cbn [negb andb]; [|reflexivity].
  destruct (fromisoformat w _) as [[us|us]|]; cbn; auto.
Qed.

(** The ways the body of the loop over the rows can go: the row is
    passed over; it is scored; the keyword scorer raises; or, after the
    keyword scorer has returned, the recency scorer raises [TypeError]. *)
Lemma score_row_cases w p r :
  match score_row w p r with
  | Ok None => scored_text w r = None
  | Ok (Some it) =>
      exists text,
        scored_text w r = Some text
        /\ (exists k, keyword_score w (row_title r +:+ UrlLib.LF +:+ text)
                        (include_keywords p) (exclude_keywords p) = Ok k)
        /\ stamp_is_naive w p r = false
        /\ url it = row_url r /\ title it = row_title r
  | Raise e =>
      exists text,
        scored_text w r = Some text
        /\ (keyword_score w (row_title r +:+ UrlLib.LF +:+ text)
              (include_keywords p) (exclude_keywords p) = Raise e
            \/ ((exists k, keyword_score w (row_title r +:+ UrlLib.LF +:+ text)
                             (include_keywords p) (exclude_keywords p) = Ok k)
                /\ stamp_is_naive w p r = true /\ exn_type e = "TypeError"))
  end.
Proof.
  unfold score_row, scored_text.
  destruct (row_ok r); cbn [negb]; [|reflexivity].
  destruct (row_markdown_path r) as [mp|]; [|reflexivity].
  destruct (PyStr.truthy mp); cbn [negb]; [|reflexivity].
  destruct (PyStr.truthy (read_text w _)); cbn [negb]; [|reflexivity].
  unfold signals_of. pose proof (recency_raises_iff_naive w p r) as H.
  destruct (keyword_score w _ _ _) as [k|e] eqn:Ek; cbn [rbind].
  - destruct (recency_score w _ _ _) as [x|e]; cbn [rbind].
    + eexists. split; [reflexivity|]. rewrite Ek.
      split; [now exists k|]. repeat split. exact H.
    + destruct H as [H1 H2]. eexists. split; [reflexivity|]. right.
      rewrite Ek. split; [now exists k|]. split; assumption.
  - eexists. split; [reflexivity|]. left. exact Ek.
Qed.

(** The scoring loop keeps exactly the rows that are ok, name a page and
    have a page that is not empty, in their order.  It raises what the
    body raises on the first row on which it raises. *)
Lemma score_rows_spec :
  forall (w : world) (p : profile) (rows : list row),
    match score_rows w p rows with
    | Ok scored =>
        map url scored = map row_url (List.filter (eligible w) rows)
        /\ map title scored = map row_title (List.filter (eligible w) rows)
        /\ (forall r, In r rows -> exists o, score_row w p r = Ok o)
    | Raise e =>
        exists pre r post,
          rows = pre ++ r :: post
          /\ (forall r', In r' pre -> exists o, score_row w p r' = Ok o)
          /\ score_row w p r = Raise e
    end.
Proof.
  intros w p rows. induction rows as [|r rows IH]; cbn [score_rows List.filter map].
  - split; [reflexivity|]. split; [reflexivity|]. intros r [].
  - pose proof (score_row_cases w p r) as Hr.
    destruct (score_row w p r) as [[it|]|e] eqn:Er; cbn [rbind].
    + destruct Hr as (text & Hst & _ & _ & Hu & Ht).
      assert (He : eligible w r = true) by (unfold eligible; now rewrite Hst).
      rewrite He.
      destruct (score_rows w p rows) as [scored|e]; cbn [rbind map].
      * destruct IH as (IH1 & IH2 & IH3). rewrite IH1, IH2, Hu, Ht.
        split; [reflexivity|]. split; [reflexivity|].
        intros r' [<-|Hin]; [eauto|auto].
      * destruct IH as (pre & r' & post & -> & Hpre & H).
        exists (r :: pre), r', post. split; [reflexivity|]. split; [|exact H].
        intros x [<-|Hin]; [eauto|auto].
    + assert (He : eligible w r = false) by (unfold eligible; now rewrite Hr).
      rewrite He.
      destruct (score_rows w p rows) as [scored|e]; cbn [rbind map].
      * destruct IH as (IH1 & IH2 & IH3).
        split; [exact IH1|]. split; [exact IH2|].
        intros r' [<-|Hin]; [eauto|auto].
      * destruct IH as (pre & r' & post & -> & Hpre & H).
        exists (r :: pre), r', post. split; [reflexivity|]. split; [|exact H].
        intros x [<-|Hin]; [eauto|auto].
    + exists [], r, rows. split; [reflexivity|]. split; [intros x []|exact Er].
Qed.

(** Whatever the body raises on a row ends the loop. *)
Lemma score_rows_raise w p rows r e :
  In r rows -> score_row w p r = Raise e -> exists e', score_rows w p rows = Raise e'.
Proof.
  intros Hin Hr. pose proof (score_rows_spec w p rows) as H.
  destruct (score_rows w p rows) as [scored|e']; [|eauto].
  destruct H as (_ & _ & H). destruct (H r Hin) as [o Ho]. congruence.
Qed.

End ScoringLoopFacts.

(** ** The output of [rank], whatever the settings *)

Section RankOutputFacts.
Import Curate.
Local Open Scope R_scope.

Lemma slice_to_prefix {A} (k : Z) (l : list A) : exists m, slice_to k l = firstn m l.
Proof. unfold slice_to. destruct (0 <=? k)%Z; eauto. Qed.

Lemma slice_to_from {A} (k : Z) (l : list A) : slice_to k l ++ slice_from k l = l.
Proof. unfold slice_to, slice_from. destruct (0 <=? k)%Z; apply firstn_skipn. Qed.

Lemma slice_to_map {A B} (f : A -> B) (k : Z) (l : list A) :
  slice_to k (map f l) = map f (slice_to k l).
Proof.
  unfold slice_to. rewrite length_map.
  destruct (0 <=? k)%Z; apply firstn_map.
Qed.

Lemma descending_firstn {A} (key : A -> R) (l : list A) : forall m,
  descending key l -> descending key (firstn m l).
Proof.
  unfold descending. induction l as [|x l IH]; intros [|m] H; cbn [firstn];
    try constructor.
  - apply IH. now apply StronglySorted_inv in H.
  - apply StronglySorted_inv in H as [_ H]. rewrite List.Forall_forall in *.
    intros y Hy. apply H. eapply firstn_In. exact Hy.
Qed.

Lemma insert_desc_map {A B} (k1 : A -> R) (k2 : B -> R) (f : A -> B) x l :
  (forall a, k2 (f a) = k1 a) ->
  insert_desc k2 (f x) (map f l) = map f (insert_desc k1 x l).
Proof.
  intros H. induction l as [|y l IH]; cbn [insert_desc map]; [reflexivity|].
  rewrite !H. destruct (Rltb (k1 x) (k1 y)); cbn [map]; [|reflexivity].
  now rewrite IH.
Qed.

(** Sorting commutes with a map that carries the key along. *)
Lemma sort_desc_map {A B} (k1 : A -> R) (k2 : B -> R) (f : A -> B) l :
  (forall a, k2 (f a) = k1 a) ->
  sort_desc k2 (map f l) = map f (sort_desc k1 l).
Proof.
  intros H. induction l as [|x l IH]; cbn [sort_desc map]; [reflexivity|].
  rewrite IH. now apply insert_desc_map.
Qed.

Lemma rescored_scores s it :
  rescored s it ->
  url it = url s /\ title it = title s /\ score_raw it = score_raw s
  /\ score it = score_raw it + score_llm it
  /\ 0 <= score_llm it <= 0.1.
Proof.
  intros [->| ->]; cbn.
  - pose proof (llm_bonus_bounds s). repeat split; lra.
  - repeat split; lra.
Qed.

Lemma second_stage_members cfg scored :
  length (second_stage cfg scored) = length scored
  /\ Forall (fun it => exists s, In s scored /\ rescored s it) (second_stage cfg scored).
Proof.
  unfold second_stage. destruct (llm_enabled cfg).
  - set (k := top_k_of cfg (length scored)).
    set (ranked := sort_desc score_raw scored).
    assert (Hperm : Permutation ranked scored) by apply sort_desc_perm.
    split.
    + rewrite length_app, !length_map, <- length_app, slice_to_from.
      now apply Permutation_length.
    + apply Forall_app. split; apply List.Forall_forall; intros it Hin;
        apply in_map_iff in Hin as (s & <- & Hs); exists s.
      * split; [|now left]. eapply Permutation_in; [exact Hperm|].
        rewrite <- (slice_to_from k ranked). apply in_or_app. now left.
      * split; [|now right]. eapply Permutation_in; [exact Hperm|].
        rewrite <- (slice_to_from k ranked). apply in_or_app. now right.
  - split; [apply length_map|]. apply List.Forall_forall. intros it Hin.
    apply in_map_iff in Hin as (s & <- & Hs). exists s. split; [exact Hs|now right].
Qed.

Lemma rank_members p cfg scored :
  (length (rank p cfg scored) <= length scored)%nat
  /\ Forall (fun it => exists s, In s scored /\ rescored s it) (rank p cfg scored).
Proof.
  unfold rank, final_cut.
  destruct (second_stage_members cfg scored) as [Hlen Hmem].
  destruct (slice_to_prefix (or_default (cfg_final_n p) 40)
              (sort_desc score (second_stage cfg scored))) as [m ->].
  pose proof (sort_desc_perm score (second_stage cfg scored)) as Hperm.
  split.
  - rewrite length_firstn, (Permutation_length Hperm), Hlen. lia.
  - apply List.Forall_forall. intros it Hin. apply firstn_In in Hin.
    eapply Permutation_in in Hin; [|exact Hperm].
    rewrite List.Forall_forall in Hmem. exact (Hmem it Hin).
Qed.

(** X14.  For all settings, also a cutoff or an output size that is
    negative: the output of [rank] is sorted by the final score,
    descending; it is not longer than its input; each of its items is an
    item of the input with its URL, title and raw score, a bonus in
    [0, 0.1] and the sum of both as final score; and with the second stage
    off it is the front of the input sorted by raw score. *)
Theorem rank_output_is_sorted_and_sourced :
  forall (p : profile) (cfg : llm_config) (scored : list scored_item),
    let top := rank p cfg scored in
    descending score top
    /\ (length top <= length scored)%nat
    /\ Forall (fun it =>
         exists s, In s scored /\ rescored s it
           /\ url it = url s /\ title it = title s /\ score_raw it = score_raw s
           /\ score it = score_raw it + score_llm it
           /\ 0 <= score_llm it <= 0.1) top
    /\ (llm_enabled cfg = false ->
        top = map rescore_tail
                (slice_to (or_default (cfg_final_n p) 40) (sort_desc score_raw scored))).
Proof.
  intros p cfg scored top.
  destruct (rank_members p cfg scored) as [Hlen Hmem]. fold top in Hlen, Hmem.
  split; [|split; [exact Hlen|split]].
  - unfold top, rank, final_cut.
    destruct (slice_to_prefix (or_default (cfg_final_n p) 40)
                (sort_desc score (second_stage cfg scored))) as [m ->].
    apply descending_firstn, sort_desc_descending.
  - eapply List.Forall_impl; [|exact Hmem]. intros it (s & Hs & Hr).
    exists s. split; [exact Hs|]. split; [exact Hr|]. now apply rescored_scores.
  - intros Hoff. unfold top, rank, final_cut, second_stage. rewrite Hoff.
    rewrite (sort_desc_map score_raw score rescore_tail) by reflexivity.
    apply slice_to_map.
Qed.

(** X15.  [main] raises exactly what its scoring loop raises, and the
    loop raises on the first row on which its body raises: a row that is
    ok and has a page that is not empty, on which the keyword scorer
    raises (an exception of the regular-expression engine other than
    [re.error]) or, after the keyword scorer has returned, a timestamp
    that is used parses without an offset ([TypeError]).  So one such
    row stops the whole run and nothing is written.  Otherwise [main]
    returns at most one item per row that is ok and has a page that is
    not empty, each with the URL of such a row. *)
Theorem main_fails_on_one_naive_timestamp :
  forall (w : world) (p : profile) (cfg : llm_config) (rows : list row),
    let ks r text := keyword_score w (row_title r +:+ UrlLib.LF +:+ text)
                       (include_keywords p) (exclude_keywords p) in
    match main w p cfg rows with
    | Ok top =>
        (exists scored, score_rows w p rows = Ok scored)
        /\ (forall r text, In r rows -> scored_text w r = Some text ->
              (exists k, ks r text = Ok k) /\ stamp_is_naive w p r = false)
        /\ (length top <= length (List.filter (eligible w) rows))%nat
        /\ (forall it, In it top ->
              In (url it) (map row_url (List.filter (eligible w) rows)))
    | Raise e =>
        score_rows w p rows = Raise e
        /\ exists pre r post text,
             rows = pre ++ r :: post
             /\ (forall r', In r' pre -> exists o, score_row w p r' = Ok o)
             /\ scored_text w r = Some text
             /\ (ks r text = Raise e
                 \/ ((exists k, ks r text = Ok k)
                     /\ stamp_is_naive w p r = true /\ exn_type e = "TypeError"))
    end
    /\ (forall r text, In r rows -> scored_text w r = Some text ->
          ((exists e, ks r text = Raise e) \/ stamp_is_naive w p r = true) ->
          exists e, main w p cfg rows = Raise e).
Proof.
  intros w p cfg rows ks.
  assert (Hok : forall r text, In r rows -> scored_text w r = Some text ->
                  (exists o, score_row w p r = Ok o) ->
                  (exists k, ks r text = Ok k) /\ stamp_is_naive w p r = false).
  { intros r text Hin Ht [o Ho]. pose proof (score_row_cases w p r) as Hc.
    rewrite Ho in Hc. destruct o as [it|]; [|congruence].
    destruct Hc as (text' & Ht' & Hk & Hn & _).
    rewrite Ht in Ht'. inversion Ht'; subst text'. split; assumption. }
  assert (Hmain : match main w p cfg rows with
                  | Ok _ => exists scored, score_rows w p rows = Ok scored
                  | Raise e => score_rows w p rows = Raise e
                  end).
  { unfold main. destruct rows as [|r0 rows]; [exists []; reflexivity|].
    destruct (score_rows w p (r0 :: rows)) as [[|s0 scored]|e]; cbn [rbind];
      [eexists; reflexivity|eexists; reflexivity|reflexivity]. }
  pose proof (score_rows_spec w p rows) as H.
  split.
  - destruct (main w p cfg rows) as [top|e] eqn:Em.
    + destruct Hmain as [scored Es]. rewrite Es in H. destruct H as (Hu & _ & Hn).
      split; [now exists scored|]. split; [intros r text Hin Ht; eauto|].
      unfold main in Em. rewrite Es in Em.
      destruct rows as [|r0 rows].
      { inversion Em. split; [cbn; lia|intros it []]. }
      cbn [rbind] in Em.
      destruct scored as [|s0 scored].
      { inversion Em. split; [cbn; lia|intros it []]. }
      inversion Em as [Et].
      destruct (rank_members p cfg (s0 :: scored)) as [Hlen Hsrc]. split.
      * rewrite <- (length_map row_url), <- Hu, length_map. exact Hlen.
      * intros it Hin. rewrite List.Forall_forall in Hsrc.
        destruct (Hsrc it Hin) as (s & Hs & Hr).
        apply rescored_scores in Hr as (E & _).
        rewrite <- Hu, E. now apply in_map.
    + rewrite Hmain in H. split; [exact Hmain|].
      destruct H as (pre & r & post & -> & Hpre & Hr).
      pose proof (score_row_cases w p r) as Hc. rewrite Hr in Hc.
      destruct Hc as (text & Ht & Hc).
      exists pre, r, post, text. repeat split; assumption.
  - intros r text Hin Ht Hbad.
    destruct (main w p cfg rows) as [top|e]; [|eauto].
    destruct Hmain as [scored Es]. rewrite Es in H. destruct H as (_ & _ & Hn).
    destruct (Hok r text Hin Ht (Hn r Hin)) as [[k Hk] Hs].
    destruct Hbad as [[e He]|Hb]; congruence.
Qed.

Lemma Q2R_unit q : (0 <= q <= 1)%Q -> 0 <= Q2R q <= 1.
Proof.
  intros [H0 H1]. apply Qle_Rle in H0, H1.
  rewrite RMicromega.Q2R_0 in H0. rewrite RMicromega.Q2R_1 in H1. lra.
Qed.

Lemma keyword_score_nonneg w text include exclude k :
  keyword_score w text include exclude = Ok k -> 0 <= k.
Proof.
  intros H.
  destruct (keyword_score_ok_inv _ _ _ _ _ H) as [[_ ->]|(_ & _ & _ & ->)];
    [lra|apply Rmax_l].
Qed.

(** X16.  With weights that are not negative, the raw score of a scored
    row is not negative either; it lies between the keyword part alone and
    the keyword part plus the three other weights, since the domain, the
    recency and the length signal stay within [0, 1]. *)
Theorem raw_score_is_bounded_by_the_weights :
  forall (w : world) (p : profile) (r : row) (it : scored_item),
    score_row w p r = Ok (Some it) ->
    0 <= w_keyword (weights_of p) -> 0 <= w_domain (weights_of p) ->
    0 <= w_recency (weights_of p) -> 0 <= w_length (weights_of p) ->
    exists text k,
      scored_text w r = Some text
      /\ keyword_score w (row_title r +:+ UrlLib.LF +:+ text)
           (include_keywords p) (exclude_keywords p) = Ok k
      /\ 0 <= k
      /\ 0 <= w_keyword (weights_of p) * k <= score_raw it
      /\ score_raw it
         <= w_keyword (weights_of p) * k + w_domain (weights_of p)
            + w_recency (weights_of p) + w_length (weights_of p).
Proof.
  intros w p r it H Hk Hd Hr Hl.
  destruct (score_row_inv w p r it H) as (text & sg & Ht & Hs & Hf & _).
  destruct (signals_of_inv w p r text sg Hs) as (Ek & Ed & Er & El).
  exists text, (ks sg). split; [exact Ht|]. split; [exact Ek|].
  assert (H1 : 0 <= ks sg) by (eapply keyword_score_nonneg; exact Ek).
  assert (H2 : 0 <= Q2R (ds sg) <= 1)
    by (rewrite Ed; apply Q2R_unit, domain_score_unit).
  assert (H3 : 0 <= rs sg <= 1) by (eapply recency_score_ok_range; exact Er).
  assert (H4 : 0 <= Q2R (ls sg) <= 1)
    by (rewrite El; apply Q2R_unit, length_score_of_int_range).
  rewrite Hf. unfold fuse.
  split; [exact H1|]. split; [split|]; nra.
Qed.

Lemma raw_score_is_bounded_by_the_weights_witness :
  exists it text,
    score_row page_world heavy_profile ex_row = Ok (Some it)
    /\ scored_text page_world ex_row = Some text
    /\ 0 <= score_raw it.
Proof.
  destruct ex_row_is_scored as (it & H).
  destruct (raw_score_is_bounded_by_the_weights page_world heavy_profile ex_row it H)
    as (text & k & Ht & _ & Hk & Hlow & _); try (cbn; lra).
  exists it, text. split; [exact H|]. split; [exact Ht|]. lra.
Defined.

End RankOutputFacts.

(** ** From the stored page back to the scored text *)

Section PageRoundTripFacts.
Import CrawlExtract.

Lemma append_assoc_r a b c : (a +:+ b) +:+ c = a +:+ (b +:+ c).
Proof.
  induction a as [|x a IH]; rewrite ?append_cons, ?append_nil; [reflexivity|].
  now rewrite IH.
Qed.

Lemma after_first_other c s :
  c <> "-"%char -> after_first "-->" (String c s) = after_first "-->" s.
Proof.
  intros Hc. cbn [after_first String.prefix].
  destruct (ascii_dec "-" c); [congruence|reflexivity].
Qed.

Lemma after_first_dash c s :
  c <> "-"%char ->
  after_first "-->" (String "-" (String c s)) = after_first "-->" (String c s).
Proof.
  intros Hc.
  change (after_first "-->" (String "-" (String c s)))
    with (if String.prefix "-->" (String "-" (String c s))
          then Some (PyStr.drop 3 (String "-" (String c s)))
          else after_first "-->" (String c s)).
  cbn [String.prefix]. destruct (ascii_dec "-" "-"); [|reflexivity].
  destruct (ascii_dec "-" c); [congruence|reflexivity].
Qed.

Lemma after_first_dash_dash c s :
  c <> ">"%char ->
  after_first "-->" (String "-" (String "-" (String c s)))
  = after_first "-->" (String "-" (String c s)).
Proof.
  intros Hc.
  change (after_first "-->" (String "-" (String "-" (String c s))))
    with (if String.prefix "-->" (String "-" (String "-" (String c s)))
          then Some (PyStr.drop 3 (String "-" (String "-" (String c s))))
          else after_first "-->" (String "-" (String c s))).
  cbn [String.prefix]. destruct (ascii_dec "-" "-"); [|reflexivity].
  destruct (ascii_dec ">" c); [congruence|reflexivity].
Qed.

Lemma after_first_here s : after_first "-->" ("-->" +:+ s) = Some s.
Proof.
  rewrite !append_cons, append_nil.
  change (after_first "-->" (String "-" (String "-" (String ">" s))))
    with (if String.prefix "-->" (String "-" (String "-" (String ">" s)))
          then Some s else after_first "-->" (String "-" (String ">" s))).
  cbn [String.prefix]. destruct (ascii_dec "-" "-"); [|congruence].
  destruct (ascii_dec ">" ">"); [|congruence]. now destruct s.
Qed.

(** The header is its own [strip]: it starts with [<] and ends with [>]. *)
Lemma strip_page_header t u f : PyStr.strip (page_header t u f) = page_header t u f.
Proof.
  unfold PyStr.strip, page_header.
  replace (PyStr.lstrip_by PyStr.is_space ("<!-- title: " +:+ t +:+ LF +:+ "url: "
             +:+ u +:+ LF +:+ "fetched_at: " +:+ f +:+ LF +:+ "-->"))
    with ("<!-- title: " +:+ t +:+ LF +:+ "url: " +:+ u +:+ LF +:+ "fetched_at: "
            +:+ f +:+ LF +:+ "-->") by reflexivity.
  repeat (apply rstrip_by_append; [repeat apply append_nonempty; discriminate|]).
  reflexivity.
Qed.

(** In a page whose title, URL and timestamp hold no [-->], the first
    [-->] is the end of the header. *)
Lemma after_first_page_text t u f md :
  after_first "-->" t = None -> after_first "-->" u = None ->
  after_first "-->" f = None ->
  after_first "-->" (page_text t u f md) = Some (LF +:+ LF +:+ md).
Proof.
  intros Ht Hu Hf. unfold page_text. rewrite strip_page_header.
  unfold page_header. rewrite !append_assoc_r.
  unfold LF, UrlLib.LF. rewrite !append_cons, !append_nil.
  rewrite after_first_other by discriminate.
  rewrite after_first_other by discriminate.
  rewrite after_first_dash_dash by discriminate.
  rewrite after_first_dash by discriminate.
  rewrite !after_first_other by discriminate.
  rewrite (after_first_arrow_skip t) by (try assumption; discriminate).
  rewrite !after_first_other by discriminate.
  rewrite (after_first_arrow_skip u) by (try assumption; discriminate).
  rewrite !after_first_other by discriminate.
  rewrite (after_first_arrow_skip f) by (try assumption; discriminate).
  rewrite after_first_other by discriminate.
  change (String "-" (String "-" (String ">" ?s))) with ("-->" +:+ s).
  apply (after_first_here (String "010" (String "010" md))).
Qed.

Lemma content_for_score_page_text t u f md :
  PyStr.contains "-->" t = false -> PyStr.contains "-->" u = false ->
  PyStr.contains "-->" f = false ->
  Curate.content_for_score (page_text t u f md) = PyStr.strip md.
Proof.
  intros Ht Hu Hf. apply contains_false_iff in Ht, Hu, Hf.
  pose proof (after_first_page_text t u f md Ht Hu Hf) as Ha.
  rewrite <- find_after in Ha.
  unfold Curate.content_for_score.
  assert (Hs : PyStr.startswith "<!--" (page_text t u f md) = true).
  { unfold page_text. rewrite strip_page_header. unfold page_header.
    rewrite !append_assoc_r, !append_cons. reflexivity. }
  rewrite Hs.
  destruct (PyStr.find "-->" (page_text t u f md)) as [e|]; [|discriminate].
  inversion Ha as [Hd]. change (String.length "-->") with 3%nat in Hd.
  rewrite Hd. reflexivity.
Qed.

Lemma no_cr_cons c s :
  PyStr.contains CR (String c s) = false ->
  c <> PyStr.CR /\ PyStr.contains CR s = false.
Proof.
  rewrite !contains_false_iff. unfold CR. cbn [after_first String.prefix].
  destruct (ascii_dec PyStr.CR c) as [<-|Hne].
  - destruct s; discriminate.
  - intros H. split; [congruence|exact H].
Qed.

(** Reading in text mode changes nothing in a text without [\r]. *)
Lemma universal_newlines_no_cr s :
  PyStr.contains CR s = false -> PyStr.universal_newlines s = s.
Proof.
  induction s as [|c s IH]; [reflexivity|]. intros H.
  apply no_cr_cons in H as [Hc Hs]. cbn [PyStr.universal_newlines].
  destruct (Ascii.eqb_spec c PyStr.CR); [congruence|]. now rewrite IH.
Qed.

Lemma page_path_relative w u :
  PyStr.truthy (page_path w u) = true
  /\ PyStr.startswith "/" (page_path w u) = false.
Proof. unfold page_path, OUT_MD_DIR. rewrite !append_cons. split; reflexivity. Qed.

(** With a carriage return in the markdown the two lengths differ: the
    record counts 4 characters, the text read back has 3. *)
Lemma page_read_back_with_carriage_return :
  String.length md_crlf = 4%nat
  /\ String.length
       (Curate.content_for_score
          (PyStr.universal_newlines
             (page_text "B" "http://b/" "2024-05-01T10:00:00Z" md_crlf))) = 3%nat.
Proof. split; reflexivity. Qed.

(** X17.  What [main] of the curation step scores is what [fetch_one]
    measured.  Take a record with [ok = true] whose title, URL and
    timestamp hold no [-->], a page that was written without a carriage
    return in it, and a curation step that reads, in text mode, what the
    crawl wrote.  Then the page was written to the path of the record,
    [read_text] of that path returns the page as written, the row of the
    record gets as far as the scorers, and the text they get, what
    [read_text] returned without its header, is not empty, is its own
    [strip], and has the length that the record gives as
    [markdown_chars]. *)
Theorem curate_reads_back_the_stored_page :
  forall (w : env) (cw : Curate.world) (retries : nat) (it : item)
         (r : fetch_record) (tr : list event),
    fetch_one w retries it = Some (r, tr) ->
    f_ok r = true ->
    PyStr.contains "-->" (title it) = false ->
    PyStr.contains "-->" (url it) = false ->
    PyStr.contains "-->" (f_fetched_at r) = false ->
    (forall path content, In (EvWrite path content) tr ->
       PyStr.contains CR content = false) ->
    (forall path content, In (EvWrite path content) tr ->
       Curate.read_text cw ("./" +:+ path) = PyStr.universal_newlines content) ->
    exists path content text,
      f_markdown_path r = Some path
      /\ In (EvWrite path content) tr
      /\ Curate.read_text cw ("./" +:+ path) = content
      /\ PyStr.startswith "<!--" content = true
      /\ scored_text cw (row_of_record r) = Some text
      /\ text = Curate.content_for_score (Curate.read_text cw ("./" +:+ path))
      /\ text <> ""
      /\ PyStr.strip text = text
      /\ String.length text = f_markdown_chars r.
Proof.
  intros w cw retries it r tr H Hok Ht Hu Hf Hcr Hread. unfold fetch_one in H.
  apply fetch_loop_record in H; try reflexivity.
  destruct H as (_ & _ & _ & Hfa & Hyes & _). cbn in Hfa. rewrite Hfa in Hf.
  destruct (Hyes Hok) as (_ & Hp & Hpos & md & Hst & Hlen & Hin). cbn in Hp, Hin.
  set (path := page_path w (url it)) in *.
  set (content := page_text (title it) (url it) (utcnow_iso w +:+ "Z") md) in *.
  pose proof (content_for_score_page_text _ _ _ md Ht Hu Hf) as Hc.
  fold content in Hc. rewrite Hst in Hc.
  assert (Hrd : Curate.read_text cw ("./" +:+ path) = content).
  { rewrite (Hread path content Hin).
    apply universal_newlines_no_cr. exact (Hcr path content Hin). }
  assert (Hsw : PyStr.startswith "<!--" content = true).
  { unfold content, page_text. rewrite strip_page_header. unfold page_header.
    rewrite !append_assoc_r, !append_cons. reflexivity. }
  exists path, content, md.
  split; [exact Hp|]. split; [exact Hin|]. split; [exact Hrd|].
  split; [exact Hsw|]. split.
  - unfold scored_text, row_of_record.
    cbn [Curate.row_ok Curate.row_markdown_path]. rewrite Hok, Hp.
    destruct (page_path_relative w (url it)) as [H1 H2]. fold path in H1, H2.
    rewrite H1, H2, Hrd, Hc.
    destruct content; [discriminate|reflexivity].
  - rewrite Hrd, Hc. split; [reflexivity|].
    split; [|split; [exact Hst|exact Hlen]].
    intros E. rewrite E in Hlen. cbn in Hlen. lia.
Qed.

Lemma curate_reads_back_the_stored_page_witness :
  exists text,
    scored_text ex_read_world
      (row_of_record
         (MkRecord "http://b/" "B" "rss_data.jsonl" "2024-05-01T10:00:00Z" true
            None (Some "app/crawl_result/pages/sha1-of-http://b/.md") 4))
    = Some text
    /\ String.length text = 4%nat.
Proof.
  assert (H : fetch_one ex_world default_retries ex_item_b =
    Some (MkRecord "http://b/" "B" "rss_data.jsonl" "2024-05-01T10:00:00Z" true
            None (Some "app/crawl_result/pages/sha1-of-http://b/.md") 4,
          [EvArun "http://b/" 0;
           EvWrite "app/crawl_result/pages/sha1-of-http://b/.md"
             (page_text "B" "http://b/" "2024-05-01T10:00:00Z" "body")]))
    by (vm_compute; reflexivity).
  destruct (curate_reads_back_the_stored_page ex_world ex_read_world
              default_retries ex_item_b _ _ H)
    as (path & content & text & _ & _ & _ & _ & Hs & _ & _ & _ & Hlen);
    try reflexivity.
  - intros path content [E|[E|[]]]; [discriminate|]. inversion E. reflexivity.
  - intros path content [E|[E|[]]]; [discriminate|]. inversion E. reflexivity.
  - exists text. split; [exact Hs|exact Hlen].
Defined.

End PageRoundTripFacts.

(** ** [unique_by_url] *)

Section UniqueByUrlFacts.
Import CrawlAndRank.

Lemma seen_has_iff seen cu : seen_has seen cu = true <-> In cu (map fst seen).
Proof.
  unfold seen_has. rewrite existsb_exists, in_map_iff. split.
  - intros (kv & Hin & E). apply String.eqb_eq in E. eauto.
  - intros (kv & E & Hin). exists kv. split; [exact Hin|]. now apply String.eqb_eq.
Qed.

Lemma NoDup_map_Some {A} (l : list A) : List.NoDup l -> List.NoDup (map Some l).
Proof.
  induction 1 as [|a l Hn Hd IH]; cbn; constructor; [|exact IH].
  intros Hin. apply in_map_iff in Hin as (b & E & Hin). inversion E. now subst.
Qed.

Lemma unique_step_raise lib e it : unique_step lib (Raise e) it = Raise e.
Proof. reflexivity. Qed.

(** The dictionary [seen] after the items [l], or the exception that
    ended the loop. *)
Lemma unique_loop_spec lib (l : list entry) :
  match fold_left (unique_step lib) l (Ok []) with
  | Ok seen =>
      List.NoDup (map fst seen)
      /\ (forall cu o, In (cu, o) seen ->
            exists it u, In it l /\ e_url it = Some u /\ e_title it <> None
              /\ canon lib u = Ok cu /\ o = with_url it cu)
      /\ (forall it u, In it l -> e_url it = Some u -> e_title it <> None ->
            exists cu o, canon lib u = Ok cu /\ In (cu, o) seen)
  | Raise e =>
      exists it u, In it l /\ e_url it = Some u /\ e_title it <> None
        /\ canon lib u = Raise e
  end.
Proof.
  induction l as [|x l IH] using rev_ind.
  - cbn. split; [constructor|]. split; [intros cu o []|intros it u []].
  - rewrite fold_left_app. cbn [fold_left].
    destruct (fold_left (unique_step lib) l (Ok [])) as [seen|e].
    2:{ rewrite unique_step_raise. destruct IH as (it & u & Hin & H).
        exists it, u. split; [apply in_or_app; now left|exact H]. }
    destruct IH as (Hnd & Hfrom & Hall).
    assert (Hkeep : forall cu o, In (cu, o) seen ->
              exists it u, In it (l ++ [x]) /\ e_url it = Some u /\ e_title it <> None
                /\ canon lib u = Ok cu /\ o = with_url it cu).
    { intros cu o Hin. destruct (Hfrom cu o Hin) as (it & u & Hit & H).
      exists it, u. split; [apply in_or_app; now left|exact H]. }
    unfold unique_step. cbn [rbind].
    destruct (e_url x) as [u|] eqn:Eu.
    2:{ split; [exact Hnd|]. split; [exact Hkeep|].
        intros it u' Hin E1 E2. apply in_app_or in Hin as [Hin|[<-|[]]]; [eauto|].
        congruence. }
    destruct (e_title x) as [t|] eqn:Et.
    2:{ split; [exact Hnd|]. split; [exact Hkeep|].
        intros it u' Hin E1 E2. apply in_app_or in Hin as [Hin|[<-|[]]]; [eauto|].
        congruence. }
    destruct (canon lib u) as [cu|e] eqn:Ec; cbn [rbind].
    2:{ exists x, u. split; [apply in_or_app; right; now left|].
        rewrite Et. repeat split; try assumption. discriminate. }
    destruct (seen_has seen cu) eqn:Es.
    + split; [exact Hnd|]. split; [exact Hkeep|].
      intros it u' Hin E1 E2. apply in_app_or in Hin as [Hin|[<-|[]]]; [eauto|].
      assert (u' = u) by congruence. subst u'.
      apply seen_has_iff, in_map_iff in Es as ([cu' o] & E & Hin). cbn in E. subst cu'.
      eauto.
    + assert (Hnew : ~ In cu (map fst seen)).
      { intros Hin. apply seen_has_iff in Hin. congruence. }
      split; [|split].
      * rewrite map_app. cbn [map fst]. apply NoDup_append; [exact Hnd| |].
        -- constructor; [intros []|constructor].
        -- intros y [<-|[]]. exact Hnew.
      * intros cu' o Hin. apply in_app_or in Hin as [Hin|[E|[]]]; [eauto|].
        inversion E; subst. exists x, u.
        split; [apply in_or_app; right; now left|].
        rewrite Et. repeat split; try assumption. discriminate.
      * intros it u' Hin E1 E2. apply in_app_or in Hin as [Hin|[<-|[]]].
        -- destruct (Hall it u' Hin E1 E2) as (cu' & o & H1 & H2).
           exists cu', o. split; [exact H1|]. apply in_or_app. now left.
        -- assert (u' = u) by congruence. subst u'.
           exists cu, (with_url x cu). split; [exact Ec|].
           apply in_or_app. right. now left.
Qed.

(** X18.  [unique_by_url] keeps the items that have a URL and a title,
    one for each canonical URL: the URLs of the result are canonical and
    differ from each other, each result is an item of the input with its
    URL replaced by the canonical one, and every item of the input with
    URL and title is represented; it raises exactly what [canon] raises on
    such an item. *)
Theorem unique_by_url_keeps_one_per_canonical_url :
  forall (lib : UrlLib.internals) (items : list entry),
    match unique_by_url lib items with
    | Ok out =>
        List.NoDup (map e_url out)
        /\ (forall o, In o out ->
              exists it u cu, In it items /\ e_url it = Some u /\ e_title it <> None
                /\ canon lib u = Ok cu /\ o = with_url it cu)
        /\ (forall it u, In it items -> e_url it = Some u -> e_title it <> None ->
              exists cu o, canon lib u = Ok cu /\ In o out /\ e_url o = Some cu)
    | Raise e =>
        exists it u, In it items /\ e_url it = Some u /\ e_title it <> None
          /\ canon lib u = Raise e
    end.
Proof.
  intros lib items. unfold unique_by_url.
  pose proof (unique_loop_spec lib items) as H.
  destruct (fold_left (unique_step lib) items (Ok [])) as [seen|e]; cbn [rbind];
    [|exact H].
  destruct H as (Hnd & Hfrom & Hall).
  assert (Hkey : forall kv, In kv seen -> e_url (snd kv) = Some (fst kv)).
  { intros [cu o] Hin. destruct (Hfrom cu o Hin) as (it & u & _ & _ & _ & _ & ->).
    reflexivity. }
  split; [|split].
  - rewrite map_map.
    rewrite (map_ext_in _ (fun kv => Some (fst kv))) by exact Hkey.
    rewrite <- (map_map fst Some).
    now apply NoDup_map_Some.
  - intros o Hin. apply in_map_iff in Hin as ([cu o'] & <- & Hin).
    destruct (Hfrom cu o' Hin) as (it & u & H). exists it, u, cu. exact H.
  - intros it u Hin E1 E2. destruct (Hall it u Hin E1 E2) as (cu & o & H1 & H2).
    exists cu, o. split; [exact H1|]. split.
    + apply in_map_iff. exists (cu, o). split; [reflexivity|exact H2].
    + exact (Hkey (cu, o) H2).
Qed.

End UniqueByUrlFacts.

(** ** [recency_boost] *)

Section RecencyBoostFacts.
Import Curate RankRules.
Local Open Scope R_scope.


Lemma ln_2_pos : 0 < ln 2.
Proof. rewrite <- ln_1. apply ln_increasing; lra. Qed.


Lemma Rdiv_le_of_le_mult d h k : 0 < h -> d <= k * h -> d / h <= k.
Proof.
  intros Hh H. apply Rmult_le_reg_r with h; [assumption|].
  unfold Rdiv. rewrite Rmult_assoc, Rinv_l, Rmult_1_r by lra. exact H.
Qed.

Lemma Rdiv_ge_of_ge_mult d h k : 0 < h -> k * h <= d -> k <= d / h.
Proof.
  intros Hh H. apply Rmult_le_reg_r with h; [assumption|].
  unfold Rdiv. rewrite Rmult_assoc, Rinv_l, Rmult_1_r by lra. exact H.
Qed.

(** The exponent of [recency_boost] in half-lives. *)
Lemma boost_exponent days hl (k : Z) :
  (0 < hl)%Z ->
  ((days <= - k * hl)%Z -> IZR k * ln 2 <= - ln 2 * IZR days / IZR hl)
  /\ ((k * hl <= days)%Z -> - ln 2 * IZR days / IZR hl <= - (IZR k * ln 2)).
Proof.
  intros Hh. assert (Hh' : 0 < IZR hl) by now apply IZR_lt.
  pose proof ln_2_pos as Hl.
  assert (E : - ln 2 * IZR days / IZR hl = - ln 2 * (IZR days / IZR hl))
    by (field; lra).
  rewrite E. split; intros H; apply IZR_le in H; rewrite ?mult_IZR, ?opp_IZR in H.
  - assert (IZR days / IZR hl <= - IZR k)
      by (apply Rdiv_le_of_le_mult; [assumption|lra]).
    nra.
  - assert (IZR k <= IZR days / IZR hl)
      by (apply Rdiv_ge_of_ge_mult; assumption).
    nra.
Qed.


Lemma float_div_int_ok x n :
  n <> 0%Z -> (Z.abs n < FLOAT_INT_LIMIT)%Z -> float_div_int x n = Ok (x / IZR n).
Proof.
  intros Hn Hl. unfold float_div_int.
  destruct (Z.leb_spec FLOAT_INT_LIMIT (Z.abs n)); [lia|].
  destruct (Z.eqb_spec n 0); [contradiction|reflexivity].
Qed.

Lemma math_exp_overflow x :
  1024 * ln 2 <= x -> math_exp x = Raise (OverflowError "math range error").
Proof. intros H. unfold math_exp. destruct (Rle_dec (1024 * ln 2) x); [reflexivity|lra]. Qed.





(** A date 40000 days ahead with the half-life of 30 days: the exponent
    is beyond the range of [math.exp]. *)
Lemma recency_boost_far_future :
  recency_boost early_world (Some "2079-07-08T00:00:00") 30
  = Raise (OverflowError "math range error").
Proof.
  unfold recency_boost. cbn [PyStr.truthy negb].
  change (fromisoformat early_world (PyStr.replace "Z" "+00:00" "2079-07-08T00:00:00"))
    with (Some (Naive (40000 * US_PER_DAY))).
  cbn [days_before_utcnow rbind].
  change ((now_utc early_world - 40000 * US_PER_DAY) / US_PER_DAY)%Z with (-40000)%Z.
  rewrite float_div_int_ok by (try discriminate; reflexivity).
  cbn [rbind]. apply math_exp_overflow.
  destruct (boost_exponent (-40000) 30 1025 ltac:(lia)) as [H _].
  apply Rle_trans with (IZR 1025 * ln 2); [pose proof ln_2_pos; lra|].
  apply H. lia.
Qed.

End RecencyBoostFacts.

(** ** [chunks] *)

Section ChunksFacts.
Import FetchYoutube.

Lemma firstn_plus {A} (l : list A) : forall a b,
  firstn (a + b) l = firstn a l ++ firstn b (skipn a l).
Proof.
  induction l as [|x l IH]; intros [|a] b; cbn [Nat.add firstn skipn app];
    try reflexivity.
  - now rewrite firstn_nil.
  - now rewrite IH.
Qed.

Lemma skipn_plus {A} (l : list A) : forall a b, skipn (a + b) l = skipn b (skipn a l).
Proof.
  induction l as [|x l IH]; intros [|a] b; cbn [Nat.add skipn]; try reflexivity.
  - now rewrite skipn_nil.
  - apply IH.
Qed.

(** The pieces [lst[j*k : j*k + k]] for [j = s, ..., s + c - 1], put
    together again. *)
Lemma concat_pieces {A} (lst : list A) (k : nat) : forall c s,
  concat (map (fun j => firstn k (skipn (j * k) lst)) (seq s c))
  = firstn (c * k) (skipn (s * k) lst).
Proof.
  induction c as [|c IH]; intros s; cbn [seq map concat]; [reflexivity|].
  rewrite IH. cbn [Nat.mul]. rewrite firstn_plus, <- skipn_plus.
  replace (k + s * k)%nat with (s * k + k)%nat by lia. reflexivity.
Qed.

Lemma chunks_positive {A} (lst : list A) (n : Z) :
  (0 < n)%Z ->
  chunks lst n
  = Ok (map (fun j => firstn (Z.to_nat n) (skipn (j * Z.to_nat n) lst))
          (seq 0 (Z.to_nat ((Z.of_nat (length lst) + n - 1) / n)))).
Proof.
  intros Hn. unfold chunks, range_from_0.
  destruct (Z.eqb_spec n 0); [lia|]. destruct (Z.ltb_spec 0 n); [|lia].
  cbn [rbind]. f_equal. rewrite map_map. apply map_ext. intros j.
  unfold Curate.slice_to, Curate.slice_from.
  destruct (Z.leb_spec 0 n); [|lia].
  destruct (Z.leb_spec 0 (Z.of_nat j * n)); [|nia].
  f_equal. f_equal. rewrite Z2Nat.inj_mul by lia. now rewrite Nat2Z.id.
Qed.

(** X20.  For a positive [n], [chunks(lst, n)] cuts [lst] into
    [ceil(len / n)] pieces that, put together in order, are [lst] again;
    piece [j] has [min(n, len - j*n)] items, so none is empty and all but
    the last have [n]; for [n = 0] it raises [ValueError], and for a
    negative [n] it yields nothing, whatever the list holds. *)
Theorem chunks_cut_the_list :
  forall (A : Type) (lst : list A) (n : Z),
    (n = 0%Z -> exists e, chunks lst n = Raise e /\ exn_type e = "ValueError")
    /\ ((n < 0)%Z -> chunks lst n = Ok [])
    /\ ((0 < n)%Z ->
        exists cs,
          chunks lst n = Ok cs
          /\ concat cs = lst
          /\ Z.of_nat (length cs) = ((Z.of_nat (length lst) + n - 1) / n)%Z
          /\ (forall j c, nth_error cs j = Some c ->
                length c = Nat.min (Z.to_nat n) (length lst - j * Z.to_nat n)
                /\ (0 < length c)%nat)).
Proof.
  intros A lst n. split; [|split].
  - intros ->. eexists. split; reflexivity.
  - intros Hn. unfold chunks, range_from_0.
    destruct (Z.eqb_spec n 0); [lia|]. destruct (Z.ltb_spec 0 n); [lia|reflexivity].
  - intros Hn. rewrite (chunks_positive lst n Hn). eexists. split; [reflexivity|].
    set (k := Z.to_nat n). set (q := ((Z.of_nat (length lst) + n - 1) / n)%Z).
    assert (Hq0 : (0 <= q)%Z) by (apply Z.div_pos; lia).
    pose proof (Z.mul_div_le (Z.of_nat (length lst) + n - 1) n Hn) as Hq1.
    pose proof (Z.mul_succ_div_gt (Z.of_nat (length lst) + n - 1) n Hn) as Hq2.
    fold q in Hq1, Hq2.
    assert (Hck : Z.of_nat (Z.to_nat q * k) = (n * q)%Z).
    { unfold k. rewrite Nat2Z.inj_mul, !Z2Nat.id by lia. lia. }
    split; [|split].
    + rewrite concat_pieces. cbn [Nat.mul skipn].
      apply firstn_all2. lia.
    + rewrite length_map, length_seq. lia.
    + intros j c Hj.
      assert (Hlt : (j < Z.to_nat q)%nat).
      { assert (Hl : (j < length (map (fun j => firstn k (skipn (j * k) lst))
                                   (seq 0 (Z.to_nat q))))%nat)
          by (apply List.nth_error_Some; congruence).
        now rewrite length_map, length_seq in Hl. }
      rewrite nth_error_map, nth_error_seq in Hj.
      destruct (Nat.ltb_spec j (Z.to_nat q)); [|lia]. cbn in Hj. inversion Hj.
      rewrite length_firstn, length_skipn. fold k. split; [reflexivity|].
      assert (Hjk : Z.of_nat (j * k) = (Z.of_nat j * n)%Z).
      { unfold k. rewrite Nat2Z.inj_mul, Z2Nat.id by lia. reflexivity. }
      assert ((Z.of_nat j + 1) * n <= n * q)%Z by nia.
      assert (0 < k)%nat by (unfold k; lia). lia.
Qed.

End ChunksFacts.

(** ** [yt_get] *)

Section YtGetFacts.
Import FetchYoutube.
Context {J : Type} (get : nat -> get_outcome J).

(** One turn of the loop: the attempt is retried, or the loop ends with
    it. *)
Lemma yt_loop_turn (a : nat) (rest : list nat) :
  (retried a (get a)
   /\ yt_loop get (a :: rest)
      = (fst (yt_loop get rest),
         YtGet a :: YtSleep (sleep_backoff a) :: snd (yt_loop get rest)))
  \/ (exists r,
        yt_loop get (a :: rest) = (r, [YtGet a])
        /\ match r with
           | YtJson j => answers (get a) j
           | YtRaises e =>
               other_error (get a) e \/ (a = 4%nat /\ http_error (get a) e)
           | _ => False
           end).
Proof.
  cbn [yt_loop]. destruct (yt_loop get rest) as [r0 tr0]. cbn [fst snd].
  destruct (get a) as [e|e|status err json] eqn:Eg.
  - destruct (Nat.eqb_spec a 4) as [E4|E4].
    + right. exists (YtRaises e). split; [reflexivity|]. right.
      split; [exact E4|now left].
    + left. split; [|reflexivity]. right. split; [exact E4|]. exists e. now left.
  - right. exists (YtRaises e). split; [reflexivity|]. left. now left.
  - destruct (((status =? 429) || (500 <=? status))%Z) eqn:Et.
    + left. split; [|reflexivity]. left. exists status, err, json. auto.
    + destruct err as [e|].
      * destruct (Nat.eqb_spec a 4) as [E4|E4].
        -- right. exists (YtRaises e). split; [reflexivity|]. right.
           split; [exact E4|]. right. exists status, json. auto.
        -- left. split; [|reflexivity]. right. split; [exact E4|].
           exists e. right. exists status, json. auto.
      * destruct json as [j|e].
        -- right. exists (YtJson j). split; [reflexivity|]. exists status. auto.
        -- right. exists (YtRaises e). split; [reflexivity|]. left. right.
           exists status. auto.
Qed.

(** The fifth attempt is retried only when it is throttled. *)
Lemma retried_fifth (o : get_outcome J) : retried 4 o -> is_throttled o.
Proof. intros [H|[H _]]; [exact H|congruence]. Qed.

(** The loop from attempt [a] on, [n] attempts being left. *)
Lemma yt_loop_spec : forall n a, (a + n = 5)%nat ->
  exists r tr k,
    yt_loop get (seq a n) = (r, tr) /\ (k <= n)%nat /\ yt_loop_ends get a n r tr k.
Proof.
  induction n as [|n IH]; intros a Ha.
  { exists YtRequestFailed, [], 0%nat. cbn. repeat split; auto. intros i Hi. lia. }
  destruct (IH (S a) ltac:(lia)) as (r & tr & k & E & Hk & Hr).
  cbn [seq]. destruct (yt_loop_turn a (seq (S a) n)) as [[Hre ->]|(r' & -> & Hr')].
  - rewrite E. cbn [fst snd].
    exists r, (YtGet a :: YtSleep (sleep_backoff a) :: tr).
    destruct r as [j| | |e]; cbn [yt_loop_ends] in Hr |- *; [|contradiction| |].
    + exists (S k). destruct Hr as (H1 & H2 & H3 & H4).
      split; [reflexivity|]. split; [lia|]. split; [lia|].
      replace (S k - 1)%nat with (S (k - 1)) by lia.
      replace (a + S k - 1)%nat with (S a + k - 1)%nat by lia.
      split; [rewrite H2; reflexivity|]. split; [|exact H4].
      intros i Hi. destruct (Nat.eq_dec i a) as [->|Hne]; [exact Hre|].
      apply H3. lia.
    + exists (S n). destruct Hr as (H1 & H2 & H3).
      split; [reflexivity|]. split; [lia|]. split; [reflexivity|].
      split; [rewrite H2; reflexivity|].
      intros i Hi. destruct (Nat.eq_dec i a) as [->|Hne]; [exact Hre|].
      apply H3. lia.
    + exists (S k). destruct Hr as (H1 & H2 & H3 & H4).
      split; [reflexivity|]. split; [lia|]. split; [lia|].
      replace (S k - 1)%nat with (S (k - 1)) by lia.
      replace (a + S k - 1)%nat with (S a + k - 1)%nat by lia.
      replace (a + S k)%nat with (S a + k)%nat by lia.
      split; [rewrite H2; reflexivity|]. split; [|exact H4].
      intros i Hi. destruct (Nat.eq_dec i a) as [->|Hne]; [exact Hre|].
      apply H3. lia.
  - exists r', [YtGet a], 1%nat. split; [reflexivity|]. split; [lia|].
    destruct r' as [j| | |e]; cbn [yt_loop_ends]; try contradiction;
      replace (a + 1 - 1)%nat with a by lia.
    + split; [lia|]. split; [reflexivity|]. split; [intros i Hi; lia|exact Hr'].
    + split; [lia|]. split; [reflexivity|]. split; [intros i Hi; lia|].
      destruct Hr' as [H|[-> H]]; [now left|right]. split; [reflexivity|exact H].
Qed.

Lemma yt_gets_retry_events a k : yt_gets (yt_retry_events a k) = seq a k.
Proof.
  revert a. induction k as [|k IH]; intros a; [reflexivity|].
  unfold yt_retry_events, yt_gets in *. cbn [seq flat_map app]. now rewrite IH.
Qed.

Lemma yt_sleeps_retry_events a k :
  yt_sleeps (yt_retry_events a k) = map sleep_backoff (seq a k).
Proof.
  revert a. induction k as [|k IH]; intros a; [reflexivity|].
  unfold yt_retry_events, yt_sleeps in *. cbn [seq flat_map app map]. now rewrite IH.
Qed.

Lemma yt_trace_ended a k :
  (1 <= k)%nat ->
  yt_gets (yt_retry_events a (k - 1) ++ [YtGet (a + k - 1)]) = seq a k
  /\ yt_sleeps (yt_retry_events a (k - 1) ++ [YtGet (a + k - 1)])
     = map sleep_backoff (seq a (k - 1)).
Proof.
  intros Hk. unfold yt_gets, yt_sleeps. rewrite !flat_map_app.
  fold (yt_gets (yt_retry_events a (k - 1))).
  fold (yt_sleeps (yt_retry_events a (k - 1))).
  rewrite yt_gets_retry_events, yt_sleeps_retry_events. cbn [flat_map app].
  rewrite app_nil_r. split; [|reflexivity].
  replace k with (S (k - 1)) at 3 by lia. rewrite seq_S.
  replace (a + (k - 1))%nat with (a + k - 1)%nat by lia. reflexivity.
Qed.

(** X21.  [yt_get] makes no request without an API key and raises its
    own error at once; with a key it makes at most five requests, for the
    attempts 0, 1, ... in order.  After an attempt that is throttled
    (status 429 or 500 and above), or that ends with an [HTTPError] and
    is not the fifth, it sleeps [min(2^i, 10)] seconds and goes on, and
    it goes on for no other reason.  It returns the JSON of the first
    attempt that is answered with another status, without a status
    error; the [HTTPError] of the fifth attempt is raised as it is, any
    other exception at the attempt it happens; and after a fifth
    throttled answer it sleeps ten more seconds before it raises its own
    error. *)
Theorem yt_get_makes_at_most_five_requests :
  forall (api_key : option string),
  exists r tr k,
    yt_get api_key get = (r, tr)
    /\ (k <= 5)%nat /\ yt_gets tr = seq 0 k
    /\ (default "" api_key = "" -> r = YtNoApiKey /\ tr = [])
    /\ match r with
       | YtNoApiKey => k = 0%nat /\ tr = [] /\ default "" api_key = ""
       | YtJson j =>
           (1 <= k)%nat /\ yt_sleeps tr = map sleep_backoff (seq 0 (k - 1))
           /\ tr = flat_map (fun i => [YtGet i; YtSleep (sleep_backoff i)])
                      (seq 0 (k - 1)) ++ [YtGet (k - 1)]
           /\ (forall i, (i < k - 1)%nat ->
                 is_throttled (get i) \/ exists e, http_error (get i) e)
           /\ answers (get (k - 1)) j
       | YtRaises e =>
           (1 <= k)%nat /\ yt_sleeps tr = map sleep_backoff (seq 0 (k - 1))
           /\ tr = flat_map (fun i => [YtGet i; YtSleep (sleep_backoff i)])
                      (seq 0 (k - 1)) ++ [YtGet (k - 1)]
           /\ (forall i, (i < k - 1)%nat ->
                 is_throttled (get i) \/ exists e, http_error (get i) e)
           /\ (other_error (get (k - 1)) e \/ (k = 5%nat /\ http_error (get 4) e))
       | YtRequestFailed =>
           k = 5%nat /\ yt_sleeps tr = [1; 2; 4; 8; 10]%nat
           /\ tr = flat_map (fun i => [YtGet i; YtSleep (sleep_backoff i)]) (seq 0 5)
           /\ (forall i, (i < 4)%nat ->
                 is_throttled (get i) \/ exists e, http_error (get i) e)
           /\ is_throttled (get 4)
       end.
Proof.
  intros api_key. unfold yt_get.
  destruct (default "" api_key) as [|c key] eqn:Ek; cbn [PyStr.truthy negb].
  { exists YtNoApiKey, [], 0%nat. repeat split; auto. lia. }
  destruct (yt_loop_spec 5 0 eq_refl) as (r & tr & k & E & Hk & Hr).
  exists r, tr, k. split; [exact E|]. split; [exact Hk|].
  assert (Hweak : forall i (o : get_outcome J),
            retried i o -> is_throttled o \/ exists e, http_error o e).
  { intros i o [H|[_ H]]; [now left|now right]. }
  destruct r as [j| | |e]; cbn [yt_loop_ends Nat.add] in Hr.
  - destruct Hr as (H1 & H2 & H3 & H4).
    destruct (yt_trace_ended 0 k H1) as [G S]. cbn [Nat.add] in G, S.
    rewrite <- H2 in G, S.
    split; [exact G|]. split; [discriminate|].
    split; [exact H1|]. split; [exact S|]. split; [exact H2|].
    split; [|exact H4]. intros i Hi. apply (Hweak i), H3. lia.
  - contradiction.
  - destruct Hr as (-> & H2 & H3).
    split; [rewrite H2; apply yt_gets_retry_events|]. split; [discriminate|].
    split; [reflexivity|].
    split; [rewrite H2; apply yt_sleeps_retry_events|]. split; [exact H2|].
    split.
    + intros i Hi. apply (Hweak i), H3. lia.
    + apply retried_fifth, H3. lia.
  - destruct Hr as (H1 & H2 & H3 & H4).
    destruct (yt_trace_ended 0 k H1) as [G S]. cbn [Nat.add] in G, S.
    rewrite <- H2 in G, S.
    split; [exact G|]. split; [discriminate|].
    split; [exact H1|]. split; [exact S|]. split; [exact H2|].
    split; [|exact H4]. intros i Hi. apply (Hweak i), H3. lia.
Qed.

End YtGetFacts.

(** ** The paging loop of fetch_google.py *)

Section GooglePagingFacts.
Import FetchGoogle.
Context {I : Type} (get : Z -> page_outcome I).

Lemma paging_turn (fuel : nat) (start : Z) (acc : list I) :
  paging get (S fuel) start acc
  = if (start <=? 31)%Z then
      match get start with
      | PageRaises e => Some (Raise e, [start])
      | PageItems [] => Some (Ok acc, [start])
      | PageItems items =>
          match paging get fuel (start + 10)%Z (acc ++ items) with
          | Some (r, starts) => Some (r, start :: starts)
          | None => None
          end
      end
    else Some (Ok acc, []).
Proof. reflexivity. Qed.

(** The loop from the page with number [j] on (start [1 + 10 * j]). *)
Lemma paging_spec : forall (n j : nat) (acc : list I),
  (j + n = 4)%nat ->
  exists r k,
    paging get (S n) (1 + 10 * Z.of_nat j)%Z acc
      = Some (r, map (fun i => (1 + 10 * Z.of_nat i)%Z) (seq j k))
    /\ (k <= n)%nat
    /\ ((1 <= n)%nat -> (1 <= k)%nat)
    /\ (forall i, (j <= i < j + k - 1)%nat ->
          exists l, get (1 + 10 * Z.of_nat i)%Z = PageItems l /\ l <> [])
    /\ match r with
       | Ok items =>
           items = acc ++ concat (map (fun i => page_items get (1 + 10 * Z.of_nat i)%Z)
                                    (seq j k))
           /\ ((1 <= k)%nat ->
               exists l, get (1 + 10 * Z.of_nat (j + k - 1))%Z = PageItems l
                         /\ ((k < n)%nat -> l = []))
       | Raise e =>
           (1 <= k)%nat /\ get (1 + 10 * Z.of_nat (j + k - 1))%Z = PageRaises e
       end.
Proof.
  induction n as [|n IH]; intros j acc Hj.
  - assert (j = 4%nat) by lia. subst j. exists (Ok acc), 0%nat.
    rewrite paging_turn. cbn [seq map concat].
    destruct (Z.leb_spec (1 + 10 * Z.of_nat 4) 31) as [Hle|_]; [lia|].
    rewrite app_nil_r.
    split; [reflexivity|]. split; [lia|]. split; [lia|].
    split; [intros i Hi; lia|]. split; [reflexivity|lia].
  - rewrite paging_turn.
    destruct (Z.leb_spec (1 + 10 * Z.of_nat j) 31) as [_|Hgt]; [|lia].
    destruct (get (1 + 10 * Z.of_nat j)%Z) as [e|[|x items]] eqn:Eg.
    + exists (Raise e), 1%nat. cbn [seq map].
      replace (j + 1 - 1)%nat with j by lia.
      split; [reflexivity|]. split; [lia|]. split; [lia|].
      split; [intros i Hi; lia|]. split; [lia|exact Eg].
    + exists (Ok acc), 1%nat. cbn [seq map concat]. unfold page_items at 1.
      rewrite Eg. cbn [app]. rewrite app_nil_r.
      replace (j + 1 - 1)%nat with j by lia.
      split; [reflexivity|]. split; [lia|]. split; [lia|].
      split; [intros i Hi; lia|]. split; [reflexivity|].
      intros _. exists []. split; [exact Eg|reflexivity].
    + replace (1 + 10 * Z.of_nat j + 10)%Z with (1 + 10 * Z.of_nat (S j))%Z by lia.
      destruct (IH (S j) (acc ++ x :: items) ltac:(lia))
        as (r & k & E & Hk & Hone & Hmid & Hr).
      rewrite E. exists r, (S k). cbn [seq map].
      split; [reflexivity|]. split; [lia|]. split; [lia|]. split.
      * intros i Hi. destruct (Nat.eq_dec i j) as [->|Hne].
        -- exists (x :: items). split; [exact Eg|discriminate].
        -- apply Hmid. lia.
      * destruct r as [its|e].
        -- destruct Hr as (H1 & H2). split.
           ++ rewrite H1. cbn [concat]. unfold page_items at 2. rewrite Eg.
              now rewrite <- app_assoc.
           ++ intros _. destruct k as [|k].
              ** exists (x :: items). replace (j + 1 - 1)%nat with j by lia.
                 split; [exact Eg|]. intros Hlt. lia.
              ** destruct H2 as (l & Hl & Hempty); [lia|]. exists l.
                 replace (j + S (S k) - 1)%nat with (S j + S k - 1)%nat by lia.
                 split; [exact Hl|]. intros Hlt. apply Hempty. lia.
        -- destruct Hr as [H1 H2]. split; [lia|].
           replace (j + S k - 1)%nat with (S j + k - 1)%nat by lia. exact H2.
Qed.

(** X22.  The paging loop always ends, after one to four requests, with
    [start] 1, 11, 21 and 31 in this order.  Every page before the last
    one asked for had items; the loop stops at the first page without
    items, at the first request that raises, which ends the script with
    that exception, and after the fourth page.  What it collects is the
    items of the pages it asked for, in order. *)
Theorem google_paging_asks_for_at_most_four_pages :
  exists r k,
    all_items get = Some (r, firstn k [1; 11; 21; 31]%Z)
    /\ (1 <= k <= 4)%nat
    /\ (forall i, (i < k - 1)%nat ->
          exists l, get (1 + 10 * Z.of_nat i)%Z = PageItems l /\ l <> [])
    /\ match r with
       | Ok items =>
           items = concat (map (page_items get) (firstn k [1; 11; 21; 31]%Z))
           /\ (exists l, get (1 + 10 * Z.of_nat (k - 1))%Z = PageItems l
                         /\ ((k < 4)%nat -> l = []))
           /\ ((k < 4)%nat ->
               (1 <= k)%nat /\ get (1 + 10 * Z.of_nat (k - 1))%Z = PageItems [])
       | Raise e =>
           (1 <= k)%nat /\ get (1 + 10 * Z.of_nat (k - 1))%Z = PageRaises e
       end.
Proof.
  destruct (paging_spec 4 0 [] eq_refl) as (r & k & E & Hk & Hone & Hmid & Hr).
  exists r, k. unfold all_items.
  assert (Hstarts : map (fun i => (1 + 10 * Z.of_nat i)%Z) (seq 0 k)
                    = firstn k [1; 11; 21; 31]%Z).
  { do 5 (destruct k as [|k]; [reflexivity|]). lia. }
  assert (Hpages : map (fun i => page_items get (1 + 10 * Z.of_nat i)%Z) (seq 0 k)
                   = map (page_items get) (firstn k [1; 11; 21; 31]%Z)).
  { rewrite <- Hstarts, map_map. reflexivity. }
  rewrite Hstarts in E. split; [exact E|].
  assert (H1k : (1 <= k)%nat) by (apply Hone; lia).
  split; [lia|]. split; [intros i Hi; apply Hmid; lia|].
  destruct r as [items|e]; cbn [Nat.add app] in Hr.
  - destruct Hr as (H1 & H2). rewrite Hpages in H1. split; [exact H1|].
    destruct (H2 H1k) as (l & Hl & Hempty).
    split; [exists l; split; assumption|].
    intros Hlt. split; [exact H1k|]. rewrite Hl, (Hempty Hlt). reflexivity.
  - exact Hr.
Qed.

End GooglePagingFacts.

(** ** [save_jsonl] and the script of fetch_rss.py *)

Section RssFacts.
Import SaveData FetchRss.
Local Open Scope R_scope.

Lemma save_loop_no_limit {A} (items : list A) : forall n, save_loop None n items = items.
Proof. induction items as [|x l IH]; intros n; cbn; [|rewrite IH]; reflexivity. Qed.

Lemma save_loop_limit {A} (items : list A) (l : Z) : forall n,
  save_loop (Some l) n items = firstn (Z.to_nat (l - n)) items.
Proof.
  induction items as [|x rest IH]; intros n; cbn [save_loop].
  - now rewrite firstn_nil.
  - destruct (Z.leb_spec l n).
    + replace (Z.to_nat (l - n)) with 0%nat by lia. reflexivity.
    + rewrite IH. replace (Z.to_nat (l - n)) with (S (Z.to_nat (l - (n + 1)))) by lia.
      reflexivity.
Qed.

(** X25.  [save_jsonl] writes all items without a limit, and with a limit
    [l] the first [max(l, 0)] of them, in order: nothing for a limit that
    is 0 or negative, where the slice [items[:l]] would keep all but the
    last [-l] items. *)
Theorem save_jsonl_writes_the_first_items :
  forall (A : Type) (items : list A) (l : Z),
    save_jsonl items None = items
    /\ save_jsonl items (Some l) = firstn (Z.to_nat l) items
    /\ ((l <= 0)%Z -> save_jsonl items (Some l) = [])
    /\ ((l < 0)%Z ->
        Curate.slice_to l items = firstn (length items - Z.to_nat (- l)) items).
Proof.
  intros A items l. unfold save_jsonl.
  rewrite save_loop_no_limit, save_loop_limit, Z.sub_0_r.
  repeat split.
  - intros H. replace (Z.to_nat l) with 0%nat by lia. reflexivity.
  - intros H. unfold Curate.slice_to. destruct (Z.leb_spec 0 l); [lia|reflexivity].
Qed.

Lemma dedup_loop_spec items : forall seen,
  List.NoDup (map rss_hash (dedup_loop seen items))
  /\ (forall x, In x (dedup_loop seen items) -> In x items /\ rss_hash x ∉ seen)
  /\ (forall x, In x items -> rss_hash x ∉ seen ->
        exists y, In y (dedup_loop seen items) /\ rss_hash y = rss_hash x).
Proof.
  induction items as [|it rest IH]; intros seen; cbn [dedup_loop map].
  - split; [constructor|]. split; [intros x []|intros x []].
  - destruct (decide (rss_hash it ∈ seen)) as [Hin|Hnin].
    + destruct (IH seen) as (H1 & H2 & H3). split; [exact H1|]. split.
      * intros x Hx. destruct (H2 x Hx). split; [now right|assumption].
      * intros x [<-|Hx] Hs; [contradiction|auto].
    + destruct (IH ({[rss_hash it]} ∪ seen)) as (H1 & H2 & H3). split; [|split].
      * cbn [map]. constructor; [|exact H1]. intros Hin.
        apply in_map_iff in Hin as (y & Ey & Hy). destruct (H2 y Hy) as [_ Hns].
        apply Hns. apply elem_of_union. left. apply elem_of_singleton. exact Ey.
      * intros x [E|Hx]; [subst x; split; [now left|exact Hnin]|].
        destruct (H2 x Hx) as [Hx1 Hx2].
        split; [now right|]. intros Hs. apply Hx2. apply elem_of_union. now right.
      * intros x [E|Hx] Hs; [subst x; exists it; split; [now left|reflexivity]|].
        destruct (decide (rss_hash x = rss_hash it)) as [E|Hne].
        -- exists it. split; [now left|now symmetry].
        -- destruct (H3 x Hx) as (y & Hy & Ey).
           ++ intros Hu. apply elem_of_union in Hu as [Hu|Hu]; [|contradiction].
              apply elem_of_singleton in Hu. contradiction.
           ++ exists y. split; [now right|exact Ey].
Qed.

(** The keys are the parsed dates, item by item. *)
Lemma date_keys_spec parse items :
  match date_keys parse items with
  | Ok keyed =>
      map snd keyed = items
      /\ Forall (fun kv => parse (rss_published_at (snd kv)) = Ok (fst kv)) keyed
  | Raise e =>
      exists pre it post,
        items = pre ++ it :: post
        /\ (forall x, In x pre -> exists z, parse (rss_published_at x) = Ok z)
        /\ parse (rss_published_at it) = Raise e
  end.
Proof.
  induction items as [|it rest IH]; cbn [date_keys]; [split; [reflexivity|constructor]|].
  destruct (parse (rss_published_at it)) as [k|e] eqn:Ek; cbn [rbind].
  - destruct (date_keys parse rest) as [keyed|e]; cbn [rbind].
    + destruct IH as [H1 H2]. split; [cbn; now rewrite H1|].
      constructor; [exact Ek|exact H2].
    + destruct IH as (pre & x & post & -> & Hpre & E).
      exists (it :: pre), x, post. split; [reflexivity|]. split; [|exact E].
      intros y [<-|Hy]; [eauto|auto].
  - exists [], it, rest. split; [reflexivity|]. split; [intros x []|exact Ek].
Qed.

Lemma descending_map {A B} (k1 : A -> R) (k2 : B -> R) (f : A -> B) (l : list A) :
  (forall a, In a l -> k2 (f a) = k1 a) ->
  descending k1 l -> descending k2 (map f l).
Proof.
  unfold descending. induction l as [|x l IH]; intros Hk H; cbn [map]; constructor.
  - apply IH; [intros a Ha; apply Hk; now right|]. now apply StronglySorted_inv in H.
  - apply StronglySorted_inv in H as [_ H]. rewrite List.Forall_forall in *.
    intros y Hy. apply in_map_iff in Hy as (a & <- & Ha).
    rewrite !Hk; [now apply H|now left|now right].
Qed.

Lemma skipn_In {A} (l : list A) : forall m x, In x (skipn m l) -> In x l.
Proof.
  induction l as [|a l IH]; intros [|m] x; cbn; try tauto.
  intros H. right. eapply IH. exact H.
Qed.

(** X24.  What the script of fetch_rss.py saves, for items with dates
    as [norm_item] writes them: the 50 newest items that are left after
    the duplicates are gone, or all of them if they are fewer, the newest
    first, no two with the same hash; [dedup] leaves one item for every
    hash of the feeds and no two with the same hash; no item that is left
    out is newer than one that is saved.  The script fails exactly when
    the date of an item that is left after the duplicates are gone does
    not parse, with the exception of the first such item. *)
Theorem rss_rows_are_the_newest_fifty :
  forall (parse : string -> result Z) (items : list rss_item),
    List.NoDup (map rss_hash (dedup items))
    /\ (forall x, In x items ->
          exists y, In y (dedup items) /\ rss_hash y = rss_hash x)
    /\ (forall y, In y (dedup items) -> In y items)
    /\ match rss_rows parse items with
       | Ok rows =>
           length rows = Nat.min 50 (length (dedup items))
           /\ (length rows <= 50)%nat
           /\ List.NoDup (map rss_hash rows)
           /\ (forall r, In r rows -> In r (dedup items) /\ In r items)
           /\ (forall it, In it (dedup items) ->
                 exists z, parse (rss_published_at it) = Ok z)
           /\ descending (date_of parse) rows
           /\ (forall r o, In r rows -> In o (dedup items) -> ~ In o rows ->
                 date_of parse o <= date_of parse r)
           /\ (length (dedup items) <= 50 -> Permutation rows (dedup items))%nat
       | Raise e =>
           exists pre it post,
             dedup items = pre ++ it :: post
             /\ (forall x, In x pre -> exists z, parse (rss_published_at x) = Ok z)
             /\ parse (rss_published_at it) = Raise e
       end.
Proof.
  intros parse items.
  destruct (dedup_loop_spec items ∅) as (Hnd & Hfrom & Hall).
  fold (dedup items) in Hnd, Hfrom, Hall.
  split; [exact Hnd|]. split; [intros x Hx; apply Hall; [exact Hx|set_solver]|].
  split; [intros y Hy; now apply Hfrom|].
  unfold rss_rows, sort_by_date, save_jsonl.
  pose proof (date_keys_spec parse (dedup items)) as Hk.
  destruct (date_keys parse (dedup items)) as [keyed|e]; cbn [rbind]; [|exact Hk].
  destruct Hk as [Hitems Hkeys]. rewrite save_loop_no_limit.
  set (key := fun kv : Z * rss_item => IZR (fst kv)).
  set (sorted := map snd (Curate.sort_desc key keyed)).
  assert (Hperm : Permutation sorted (dedup items)).
  { unfold sorted. rewrite <- Hitems. apply Permutation_map, sort_desc_perm. }
  assert (Hdate : forall kv, In kv (Curate.sort_desc key keyed) ->
                    date_of parse (snd kv) = key kv).
  { intros kv Hin. eapply Permutation_in in Hin; [|apply sort_desc_perm].
    rewrite List.Forall_forall in Hkeys. unfold date_of.
    now rewrite (Hkeys kv Hin). }
  assert (Hdesc : descending (date_of parse) sorted).
  { unfold sorted. apply (descending_map key); [exact Hdate|].
    apply sort_desc_descending. }
  split; [|split; [|split; [|split; [|split; [|split; [|split]]]]]].
  - rewrite length_firstn, (Permutation_length Hperm). reflexivity.
  - rewrite length_firstn. lia.
  - apply NoDup_map_firstn. eapply Permutation_NoDup.
    + symmetry. apply Permutation_map. exact Hperm.
    + exact Hnd.
  - intros r Hr. apply firstn_In in Hr. eapply Permutation_in in Hr; [|exact Hperm].
    split; [exact Hr|now apply Hfrom].
  - intros it Hit. rewrite <- Hitems in Hit.
    apply in_map_iff in Hit as (kv & <- & Hkv).
    rewrite List.Forall_forall in Hkeys. exists (fst kv). now apply Hkeys.
  - now apply descending_firstn.
  - intros r o Hr Ho Hno.
    assert (Hso : In o sorted)
      by (eapply Permutation_in; [symmetry; exact Hperm|exact Ho]).
    rewrite <- (firstn_skipn 50 sorted) in Hso, Hdesc.
    apply in_app_or in Hso as [Hso|Hso]; [contradiction|].
    eapply (descending_app (date_of parse)); eassumption.
  - intros Hlen. rewrite firstn_all2; [exact Hperm|].
    now rewrite (Permutation_length Hperm).
Qed.

End RssFacts.

(** ** What a run does to the ledger *)

Section RunAppendFacts.
Import CrawlExtract.

(** X23.  A run never rewrites the ledger: whether it completes or is cut
    short, the file afterwards is the file before followed by records of
    this run's own tasks, at most one per item of the work list and no
    two for the same URL. *)
Theorem run_crawl_only_appends :
  forall (w : env) (files : list (string * list (jsonl_line raw_record)))
         (file file' : ledger),
    run_crawl w files file file' ->
    exists recs,
      file' = file ++ map Parsed recs
      /\ (length recs <= length (todo files file))%nat
      /\ List.NoDup (map f_url recs)
      /\ (forall r, In r recs ->
            exists it, In it (todo files file) /\ r = fst (task_result w it)).
Proof.
  intros w files file file' Hrun.
  destruct (run_crawl_appends w files file file' Hrun)
    as [->|(completed & m & HP & ->)].
  - exists []. cbn. rewrite app_nil_r. repeat split; [lia|constructor|intros r []].
  - exists (firstn m (map fst completed)). split; [reflexivity|].
    pose proof (completed_results w completed (todo files file) HP) as Hres.
    split; [|split].
    + rewrite length_firstn, (Permutation_length Hres), length_map. lia.
    + apply NoDup_map_firstn. eapply Permutation_NoDup.
      * symmetry. apply (completed_urls w completed (todo files file) HP).
      * apply todo_NoDup.
    + intros r Hr. apply firstn_In in Hr. eapply Permutation_in in Hr; [|exact Hres].
      apply in_map_iff in Hr as (it & <- & Hit). exists it. auto.
Qed.

Lemma run_crawl_only_appends_witness :
  exists recs,
    ex_ledger1 = [] ++ map Parsed recs /\ (length recs <= 2)%nat.
Proof.
  destruct (run_crawl_only_appends ex_world ex_files [] ex_ledger1 ex_run_first)
    as (recs & E & Hlen & _).
  exists recs. split; [exact E|]. rewrite ex_todo_first in Hlen. exact Hlen.
Defined.

End RunAppendFacts.
